(** * bcmath multiplication (libbcmath/src/recmul.c)

    A shallow embedding of the multiplication engine of PHP's bcmath
    library and the proofs of its specification.

    Conventions of the embedding.
    - Values of the native unsigned types ([BC_UINT_T], [uint32_t]) are
      integers in [Z]; every C operation that can wrap is written with its
      reduction modulo [2 ^ bits].
    - Buffers ([char *], [BC_UINT_T *]) are lists of [Z] addressed by an
      integer offset; a pointer into a buffer is the buffer and an offset.
      Offsets are in [Z] because the digit pointers walk backwards and may
      step to one position before the buffer.
    - Quantities of type [size_t] that count digits or limbs are integers in
      [Z] without reduction: they are bounded by the size of buffers that
      live in memory. *)

From Stdlib Require Import ZArith QArith List Lia Bool Permutation.
Import ListNotations.
Local Open Scope Z_scope.

(** ** Platform *)

(** [SIZEOF_SIZE_T >= 8] or not. *)
Inductive arch := Arch32 | Arch64.

(** [BC_LITTLE_ENDIAN] or not. *)
Inductive endian := LittleEndian | BigEndian.

Definition BASE : Z := 10.

Definition BC_MUL_UINT_DIGITS (a : arch) : Z :=
  match a with Arch32 => 4 | Arch64 => 8 end.

Definition BC_MUL_UINT_OVERFLOW (a : arch) : Z :=
  match a with Arch32 => 10000 | Arch64 => 100000000 end.

(** Modelled from the spec: the type [BC_UINT_T] is declared outside this
    file; it is the native unsigned integer, 64 bits wide where limbs hold 8
    digits and 32 bits wide where they hold 4. *)
Definition BC_UINT_BITS (a : arch) : Z :=
  match a with Arch32 => 32 | Arch64 => 64 end.

(** Reduction of an integer to an unsigned type of [bits] bits. *)
Definition wrap (bits x : Z) : Z := x mod 2 ^ bits.

Definition uwrap (a : arch) (x : Z) : Z := wrap (BC_UINT_BITS a) x.

(** [~((BC_UINT_T) 0)] *)
Definition BC_UINT_MAX (a : arch) : Z := 2 ^ BC_UINT_BITS a - 1.

Definition BC_MUL_MAX_ADD_COUNT (a : arch) : Z :=
  BC_UINT_MAX a / uwrap a (BC_MUL_UINT_OVERFLOW a * BC_MUL_UINT_OVERFLOW a).

Definition MIN (x y : Z) : Z := if x <? y then x else y.
Definition MAX (x y : Z) : Z := if x >? y then x else y.

(** ** Buffers *)

(** [buf[i]]; reading outside the buffer has no meaning in C, the model
    gives 0 there and the theorems never rely on it. *)
Definition rd (buf : list Z) (i : Z) : Z :=
  if i <? 0 then 0 else nth (Z.to_nat i) buf 0.

Fixpoint upd (n : nat) (v : Z) (buf : list Z) : list Z :=
  match buf with
  | [] => []
  | x :: t => match n with O => v :: t | S m => x :: upd m v t end
  end.

(** [buf[i] = v]; no effect outside the buffer. *)
Definition wr (buf : list Z) (i : Z) (v : Z) : list Z :=
  if i <? 0 then buf else upd (Z.to_nat i) v buf.

(** The offsets [0, 1, ..., n - 1]. *)
Definition zrange (n : Z) : list Z := map Z.of_nat (seq 0 (Z.to_nat n)).

(** [for (i = 0; i < n; i++) s = body s i] *)
Definition for_loop {S : Type} (n : Z) (body : S -> Z -> S) (s : S) : S :=
  fold_left body (zrange n) s.

(** [while (cond s) s = body s], cut after [fuel] iterations. *)
Fixpoint while_loop {S : Type} (fuel : nat) (cond : S -> bool)
    (body : S -> S) (s : S) : S :=
  match fuel with
  | O => s
  | Datatypes.S f => if cond s then while_loop f cond body (body s) else s
  end.

(** Contents of freshly allocated, uninitialised memory: [junk k] is the
    value found at offset [k]. *)
Definition fresh (junk : Z -> Z) (n : Z) : list Z := map junk (zrange n).

(** ** Byte order *)

Fixpoint le_combine (bs : list Z) : Z :=
  match bs with
  | [] => 0
  | b :: t => b + 256 * le_combine t
  end.

Fixpoint le_split (n : nat) (x : Z) : list Z :=
  match n with
  | O => []
  | Datatypes.S m => x mod 256 :: le_split m (x / 256)
  end.

(** [memcpy(&tmp, str, sizeof tmp)]: the integer whose object representation
    is the byte sequence [bs]. *)
Definition load (e : endian) (bs : list Z) : Z :=
  match e with
  | LittleEndian => le_combine bs
  | BigEndian => le_combine (rev bs)
  end.

(** [memcpy(str, &x, n)]: the object representation of the [n]-byte
    unsigned integer [x]. *)
Definition store (e : endian) (n : nat) (x : Z) : list Z :=
  match e with
  | LittleEndian => le_split n x
  | BigEndian => rev (le_split n x)
  end.

(** Modelled from the spec: the macro [BC_BSWAP] is defined outside this
    file; it reverses the bytes of a native word. *)
Definition BC_BSWAP (nbytes : nat) (x : Z) : Z :=
  le_combine (rev (le_split nbytes x)).

(** The [n] bytes found at [str[0 .. n-1]]. *)
Definition bytes_at (buf : list Z) (str : Z) (n : Z) : list Z :=
  map (fun k => rd buf (str + k)) (zrange n).

(** [memcpy(str, bs, length bs)] *)
Fixpoint write_bytes (buf : list Z) (str : Z) (bs : list Z) : list Z :=
  match bs with
  | [] => buf
  | b :: t => write_bytes (wr buf str b) (str + 1) t
  end.

(** ** Packing digits into a limb *)

Definition bc_parse_chunk_chars_32 (e : endian) (buf : list Z) (str : Z) : Z :=
  let tmp := load e (bytes_at buf str 4) in
  let tmp := match e with
             | LittleEndian => tmp
             | BigEndian => BC_BSWAP 4 tmp
             end in
  let lower_digits := Z.shiftr (Z.land tmp 0x0f000f00) 8 in
  let upper_digits := wrap 32 (Z.land tmp 0x000f000f * 10) in
  let tmp := wrap 32 (lower_digits + upper_digits) in
  let lower_digits := Z.shiftr (Z.land tmp 0x00ff0000) 16 in
  let upper_digits := wrap 32 (Z.land tmp 0x000000ff * 100) in
  wrap 32 (lower_digits + upper_digits).

Definition bc_parse_chunk_chars_64 (e : endian) (buf : list Z) (str : Z) : Z :=
  let tmp := load e (bytes_at buf str 8) in
  let tmp := match e with
             | LittleEndian => tmp
             | BigEndian => BC_BSWAP 8 tmp
             end in
  let lower_digits := Z.shiftr (Z.land tmp 0x0f000f000f000f00) 8 in
  let upper_digits := wrap 64 (Z.land tmp 0x000f000f000f000f * 10) in
  let tmp := wrap 64 (lower_digits + upper_digits) in
  let lower_digits := Z.shiftr (Z.land tmp 0x00ff000000ff0000) 16 in
  let upper_digits := wrap 64 (Z.land tmp 0x000000ff000000ff * 100) in
  let tmp := wrap 64 (lower_digits + upper_digits) in
  let lower_digits := Z.shiftr (Z.land tmp 0x0000ffff00000000) 32 in
  let upper_digits := wrap 64 (Z.land tmp 0x000000000000ffff * 10000) in
  wrap 64 (lower_digits + upper_digits).

Definition bc_parse_chunk_chars (a : arch) (e : endian) (buf : list Z)
    (str : Z) : Z :=
  match a with
  | Arch32 => bc_parse_chunk_chars_32 e buf str
  | Arch64 => bc_parse_chunk_chars_64 e buf str
  end.

(** The state of the loop of [bc_partial_convert_to_uint]. *)
Record pc_state := { pc_num : Z; pc_base : Z; pc_n : Z }.

(** The accumulate-with-weight loop of [bc_partial_convert_to_uint]. *)
Definition bc_partial_convert_loop (a : arch) (buf : list Z) (n : Z) (len : Z)
    : Z :=
  pc_num
    (for_loop len
       (fun s _ =>
          {| pc_num := uwrap a (pc_num s + uwrap a (rd buf (pc_n s) * pc_base s));
             pc_base := uwrap a (pc_base s * BASE);
             pc_n := pc_n s - 1 |})
       {| pc_num := 0; pc_base := 1; pc_n := n |}).

Definition bc_partial_convert_to_uint (a : arch) (e : endian) (buf : list Z)
    (n : Z) (len : Z) : Z :=
  if len =? BC_MUL_UINT_DIGITS a then
    bc_parse_chunk_chars a e buf (n - BC_MUL_UINT_DIGITS a + 1)
  else
    bc_partial_convert_loop a buf n len.

(** The state of the loop of [bc_convert_to_uint]. *)
Record cu_state := { cu_uint : list Z; cu_i : Z; cu_nend : Z; cu_nlen : Z }.

(** [n_uint] is the limb array to fill, [buf] the digit buffer that [nend]
    points into.  Every iteration consumes at least one digit, so [nlen]
    iterations are always enough. *)
Definition bc_convert_to_uint (a : arch) (e : endian) (n_uint : list Z)
    (buf : list Z) (nend : Z) (nlen : Z) : list Z :=
  cu_uint
    (while_loop (Z.to_nat nlen)
       (fun s => cu_nlen s >? 0)
       (fun s =>
          let len := MIN (BC_MUL_UINT_DIGITS a) (cu_nlen s) in
          {| cu_uint := wr (cu_uint s) (cu_i s)
                          (bc_partial_convert_to_uint a e buf (cu_nend s) len);
             cu_i := cu_i s + 1;
             cu_nend := cu_nend s - len;
             cu_nlen := cu_nlen s - len |})
       {| cu_uint := n_uint; cu_i := 0; cu_nend := nend; cu_nlen := nlen |}).

(** ** Numbers *)

Inductive sign := PLUS | MINUS.

Definition sign_eqb (s t : sign) : bool :=
  match s, t with
  | PLUS, PLUS | MINUS, MINUS => true
  | _, _ => false
  end.

(** [bc_struct]: [n_value] is the digit buffer the number points to, most
    significant digit first; the number consists of its first
    [n_len + n_scale] entries. *)
Record bc_num := {
  n_sign : sign;
  n_len : Z;
  n_scale : Z;
  n_value : list Z
}.

(** Modelled from the spec: the allocator [bc_new_num_nonzeroed] is defined
    outside this file; it produces an uninitialised number of the given
    integer length and scale, with sign [PLUS]. *)
Definition bc_new_num_nonzeroed (junk : Z -> Z) (length scale : Z) : bc_num :=
  {| n_sign := PLUS; n_len := length; n_scale := scale;
     n_value := fresh junk (length + scale) |}.

Definition set_value (n : bc_num) (v : list Z) : bc_num :=
  {| n_sign := n_sign n; n_len := n_len n; n_scale := n_scale n; n_value := v |}.

(** The state of a digit-by-digit emission loop
    [while (pend >= pptr) { *pend-- = x % BASE; x /= BASE; }]. *)
Record drain_state := { dr_out : list Z; dr_pend : Z; dr_x : Z; dr_log : list Z }.

(** [dr_log] is a history variable, not program state: it records the
    offsets stored to, latest first. *)
Definition drain_step (s : drain_state) : drain_state :=
  {| dr_out := wr (dr_out s) (dr_pend s) (dr_x s mod BASE);
     dr_pend := dr_pend s - 1;
     dr_x := dr_x s / BASE;
     dr_log := dr_pend s :: dr_log s |}.

(** The loop runs while [pend >= pptr], that is at most [pend - pptr + 1]
    times. *)
Definition drain (pptr : Z) (s : drain_state) : drain_state :=
  while_loop (Z.to_nat (dr_pend s - pptr + 1))
    (fun s => dr_pend s >=? pptr) drain_step s.

(** ** The fast path *)

Definition bc_fast_mul (junk : Z -> Z) (a : arch) (e : endian)
    (n1 : bc_num) (n1len : Z) (n2 : bc_num) (n2len : Z) : bc_num :=
  let n1end := n1len - 1 in
  let n2end := n2len - 1 in
  let n1_uint := bc_partial_convert_to_uint a e (n_value n1) n1end n1len in
  let n2_uint := bc_partial_convert_to_uint a e (n_value n2) n2end n2len in
  let prod_uint := uwrap a (n1_uint * n2_uint) in
  let prodlen := n1len + n2len in
  let prod := bc_new_num_nonzeroed junk prodlen 0 in
  let pptr := 0 in
  let pend := pptr + prodlen - 1 in
  set_value prod
    (dr_out (drain pptr {| dr_out := n_value prod; dr_pend := pend;
                           dr_x := prod_uint; dr_log := [] |})).

(** ** Unpacking four digits at a time *)

Definition BC_ENCODE_LUT (e : endian) (A B : Z) : Z :=
  match e with
  | LittleEndian => Z.lor A (Z.shiftl B 4)
  | BigEndian => Z.lor B (Z.shiftl A 4)
  end.

Definition LUT_ITERATE (f : Z -> Z -> Z) (A : Z) : list Z :=
  [f A 0; f A 1; f A 2; f A 3; f A 4; f A 5; f A 6; f A 7; f A 8; f A 9].

Definition LUT (e : endian) : list Z :=
  LUT_ITERATE (BC_ENCODE_LUT e) 0 ++
  LUT_ITERATE (BC_ENCODE_LUT e) 1 ++
  LUT_ITERATE (BC_ENCODE_LUT e) 2 ++
  LUT_ITERATE (BC_ENCODE_LUT e) 3 ++
  LUT_ITERATE (BC_ENCODE_LUT e) 4 ++
  LUT_ITERATE (BC_ENCODE_LUT e) 5 ++
  LUT_ITERATE (BC_ENCODE_LUT e) 6 ++
  LUT_ITERATE (BC_ENCODE_LUT e) 7 ++
  LUT_ITERATE (BC_ENCODE_LUT e) 8 ++
  LUT_ITERATE (BC_ENCODE_LUT e) 9.

(** The result type is [unsigned short]. *)
Definition bc_expand_lut (c : Z) : Z :=
  wrap 16 (Z.lor (Z.land c 0x0f) (Z.shiftl (Z.land c 0xf0) 4)).

(** The four bytes that [bc_write_bcd_representation] copies to [str]. *)
Definition bcd_bytes (e : endian) (value : Z) : list Z :=
  let upper := value / 100 in
  let lower := value mod 100 in
  let digits :=
    match e with
    | LittleEndian =>
        wrap 32 (Z.lor (Z.shiftl (bc_expand_lut (rd (LUT e) lower)) 16)
                       (bc_expand_lut (rd (LUT e) upper)))
    | BigEndian =>
        wrap 32 (Z.lor (Z.shiftl (bc_expand_lut (rd (LUT e) upper)) 16)
                       (bc_expand_lut (rd (LUT e) lower)))
    end in
  store e 4 digits.

Definition bc_write_bcd_representation (e : endian) (value : Z)
    (buf : list Z) (str : Z) : list Z :=
  write_bytes buf str (bcd_bytes e value).

(** ** The standard path *)

(** The accumulator array [prod_uint] together with a history variable:
    [acc_ovf] becomes (and stays) [true] as soon as one of the unsigned
    operations on the accumulator wraps around. *)
Record acc_state := { acc_prod : list Z; acc_ovf : bool }.

Definition exceeds (a : arch) (x : Z) : bool := BC_UINT_MAX a <? x.

(** [prod_uint[k] += x] *)
Definition acc_add (a : arch) (s : acc_state) (k : Z) (x : Z) : acc_state :=
  let sum := rd (acc_prod s) k + x in
  {| acc_prod := wr (acc_prod s) k (uwrap a sum);
     acc_ovf := acc_ovf s || exceeds a sum |}.

(** [prod_uint[k] += x * y] *)
Definition acc_mul_add (a : arch) (s : acc_state) (k : Z) (x y : Z)
    : acc_state :=
  let s' := acc_add a s k (uwrap a (x * y)) in
  {| acc_prod := acc_prod s'; acc_ovf := acc_ovf s' || exceeds a (x * y) |}.

(** The accumulator has at least one slot wherever the function is called,
    so [prod_arr_size - 1] does not wrap. *)
Definition bc_digits_adjustment (a : arch) (s : acc_state)
    (prod_arr_size : Z) : acc_state :=
  for_loop (prod_arr_size - 1)
    (fun s i =>
       let s := acc_add a s (i + 1)
                  (rd (acc_prod s) i / BC_MUL_UINT_OVERFLOW a) in
       {| acc_prod := wr (acc_prod s) i
                        (rd (acc_prod s) i mod BC_MUL_UINT_OVERFLOW a);
          acc_ovf := acc_ovf s |})
    s.

(** The state of the multiply-and-add loop. *)
Record mul_state := { ml_acc : acc_state; ml_count : Z }.

Definition mul_add_loops (a : arch) (n1_uint n2_uint : list Z)
    (n1_arr_size n2_arr_size prod_arr_size : Z) (s : mul_state) : mul_state :=
  for_loop n1_arr_size
    (fun s i =>
       let s :=
         if ml_count s >=? BC_MUL_MAX_ADD_COUNT a then
           {| ml_acc := bc_digits_adjustment a (ml_acc s) prod_arr_size;
              ml_count := 0 |}
         else s in
       let count := ml_count s + 1 in
       {| ml_acc :=
            for_loop n2_arr_size
              (fun acc j =>
                 acc_mul_add a acc (i + j) (rd n1_uint i) (rd n2_uint j))
              (ml_acc s);
          ml_count := count |})
    s.

(** The working arrays after the multiply-and-add phase and the final
    [bc_digits_adjustment]. *)
Definition bc_standard_mul_acc (junk : Z -> Z) (a : arch) (e : endian)
    (n1 : bc_num) (n1len : Z) (n2 : bc_num) (n2len : Z) : acc_state :=
  let n1end := n1len - 1 in
  let n2end := n2len - 1 in
  let n1_arr_size := (n1len + BC_MUL_UINT_DIGITS a - 1) / BC_MUL_UINT_DIGITS a in
  let n2_arr_size := (n2len + BC_MUL_UINT_DIGITS a - 1) / BC_MUL_UINT_DIGITS a in
  let prod_arr_size := n1_arr_size + n2_arr_size - 1 in
  let buf := fresh junk (n1_arr_size + n2_arr_size + prod_arr_size) in
  let n1_uint := firstn (Z.to_nat n1_arr_size) buf in
  let n2_uint := firstn (Z.to_nat n2_arr_size) (skipn (Z.to_nat n1_arr_size) buf) in
  let prod_uint := skipn (Z.to_nat (n1_arr_size + n2_arr_size)) buf in
  let prod_uint := for_loop prod_arr_size (fun p i => wr p i 0) prod_uint in
  let n1_uint := bc_convert_to_uint a e n1_uint (n_value n1) n1end n1len in
  let n2_uint := bc_convert_to_uint a e n2_uint (n_value n2) n2end n2len in
  let s := mul_add_loops a n1_uint n2_uint n1_arr_size n2_arr_size prod_arr_size
             {| ml_acc := {| acc_prod := prod_uint; acc_ovf := false |};
                ml_count := 0 |} in
  bc_digits_adjustment a (ml_acc s) prod_arr_size.

(** The state of the conversion back to digits: the output buffer, the
    write pointer [pend], the limb index [i], the accumulator array and the
    history of the offsets stored to (latest first). *)
Record emit_state := {
  em_out : list Z;
  em_pend : Z;
  em_i : Z;
  em_prod : list Z;
  em_log : list Z
}.

Definition emit_limb (a : arch) (e : endian) (s : emit_state) : emit_state :=
  match a with
  | Arch32 =>
      {| em_out := bc_write_bcd_representation e (rd (em_prod s) (em_i s))
                     (em_out s) (em_pend s - 3);
         em_pend := em_pend s - 4;
         em_i := em_i s + 1;
         em_prod := em_prod s;
         em_log := rev (map (fun k => em_pend s - 3 + k) (zrange 4)) ++ em_log s |}
  | Arch64 =>
      let out := bc_write_bcd_representation e
                   (wrap 32 (rd (em_prod s) (em_i s) / 10000))
                   (em_out s) (em_pend s - 7) in
      let out := bc_write_bcd_representation e
                   (wrap 32 (rd (em_prod s) (em_i s) mod 10000))
                   out (em_pend s - 3) in
      {| em_out := out;
         em_pend := em_pend s - 8;
         em_i := em_i s + 1;
         em_prod := em_prod s;
         em_log := rev (map (fun k => em_pend s - 3 + k) (zrange 4)) ++
                   rev (map (fun k => em_pend s - 7 + k) (zrange 4)) ++ em_log s |}
  end.

(** The conversion of the accumulator to the digits of the product: whole
    limbs first, then the last limb digit by digit. *)
Definition bc_standard_mul_emit (junk : Z -> Z) (a : arch) (e : endian)
    (prod_uint : list Z) (prod_arr_size prodlen : Z) : emit_state :=
  let prod := bc_new_num_nonzeroed junk prodlen 0 in
  let pptr := 0 in
  let pend := pptr + prodlen - 1 in
  let s := while_loop (Z.to_nat (prod_arr_size - 1))
             (fun s => em_i s <? prod_arr_size - 1)
             (emit_limb a e)
             {| em_out := n_value prod; em_pend := pend; em_i := 0;
                em_prod := prod_uint; em_log := [] |} in
  let d := drain pptr {| dr_out := em_out s; dr_pend := em_pend s;
                         dr_x := rd (em_prod s) (em_i s); dr_log := em_log s |} in
  {| em_out := dr_out d; em_pend := dr_pend d; em_i := em_i s;
     em_prod := wr (em_prod s) (em_i s) (dr_x d); em_log := dr_log d |}.

Definition bc_standard_mul_state (junk : Z -> Z) (a : arch) (e : endian)
    (n1 : bc_num) (n1len : Z) (n2 : bc_num) (n2len : Z) : emit_state :=
  let prodlen := n1len + n2len in
  let n1_arr_size := (n1len + BC_MUL_UINT_DIGITS a - 1) / BC_MUL_UINT_DIGITS a in
  let n2_arr_size := (n2len + BC_MUL_UINT_DIGITS a - 1) / BC_MUL_UINT_DIGITS a in
  let prod_arr_size := n1_arr_size + n2_arr_size - 1 in
  let acc := bc_standard_mul_acc junk a e n1 n1len n2 n2len in
  bc_standard_mul_emit junk a e (acc_prod acc) prod_arr_size prodlen.

Definition bc_standard_mul (junk : Z -> Z) (a : arch) (e : endian)
    (n1 : bc_num) (n1len : Z) (n2 : bc_num) (n2len : Z) : bc_num :=
  set_value (bc_new_num_nonzeroed junk (n1len + n2len) 0)
    (em_out (bc_standard_mul_state junk a e n1 n1len n2 n2len)).

(** ** The multiply routine *)

(** Modelled from the spec: [_bc_rm_leading_zeros] is defined outside this
    file; it trims leading zero digits from the integer part, keeping one
    integer digit. *)
Fixpoint rm_leading_zeros (v : list Z) (len : Z) : list Z * Z :=
  match v with
  | d :: t => if (d =? 0) && (len >? 1) then rm_leading_zeros t (len - 1)
              else (v, len)
  | [] => (v, len)
  end.

Definition _bc_rm_leading_zeros (num : bc_num) : bc_num :=
  let '(v, len) := rm_leading_zeros (n_value num) (n_len num) in
  {| n_sign := n_sign num; n_len := len; n_scale := n_scale num; n_value := v |}.

(** Modelled from the spec: [bc_is_zero] is defined outside this file; it
    tells whether all [n_len + n_scale] digits of the number are zero. *)
Definition bc_is_zero (num : bc_num) : bool :=
  forallb (fun d => d =? 0)
    (firstn (Z.to_nat (n_len num + n_scale num)) (n_value num)).

Definition bc_multiply (junk : Z -> Z) (a : arch) (e : endian)
    (n1 n2 : bc_num) (scale : Z) : bc_num :=
  let len1 := n_len n1 + n_scale n1 in
  let len2 := n_len n2 + n_scale n2 in
  let full_scale := n_scale n1 + n_scale n2 in
  let prod_scale := MIN full_scale (MAX scale (MAX (n_scale n1) (n_scale n2))) in
  let prod :=
    if (len1 <=? BC_MUL_UINT_DIGITS a) && (len2 <=? BC_MUL_UINT_DIGITS a)
    then bc_fast_mul junk a e n1 len1 n2 len2
    else bc_standard_mul junk a e n1 len1 n2 len2 in
  let prod := {| n_sign := if sign_eqb (n_sign n1) (n_sign n2) then PLUS else MINUS;
                 n_len := n_len prod - full_scale;
                 n_scale := prod_scale;
                 n_value := n_value prod |} in
  let prod := _bc_rm_leading_zeros prod in
  if bc_is_zero prod
  then {| n_sign := PLUS; n_len := n_len prod; n_scale := n_scale prod;
          n_value := n_value prod |}
  else prod.

(** ** Specification vocabulary *)

Definition is_digit (d : Z) : Prop := 0 <= d <= 9.

(** The number written by a digit sequence, most significant digit first. *)
Definition digits_value (l : list Z) : Z :=
  fold_left (fun acc d => acc * 10 + d) l 0.

(** The [n] low decimal digits of [x], most significant first. *)
Fixpoint to_digits (n : nat) (x : Z) : list Z :=
  match n with
  | O => []
  | S k => to_digits k (x / 10) ++ [x mod 10]
  end.

(** The number held by a limb array, least significant limb first. *)
Fixpoint limbs_value (a : arch) (l : list Z) : Z :=
  match l with
  | [] => 0
  | x :: t => x + BC_MUL_UINT_OVERFLOW a * limbs_value a t
  end.

(** The sum over [i < len] of [buf[n - i] * 10 ^ i]. *)
Definition weighted_sum (buf : list Z) (n len : Z) : Z :=
  fold_right Z.add 0 (map (fun i => rd buf (n - i) * 10 ^ i) (zrange len)).

(** The offsets [lo, lo + 1, ..., lo + n - 1]. *)
Definition zrange_from (lo n : Z) : list Z := map (fun k => lo + k) (zrange n).

(** A well-formed operand: non-negative lengths, as many digits as the
    lengths say, every digit in 0..9. *)
Definition wf_num (n : bc_num) : Prop :=
  0 <= n_len n /\ 0 <= n_scale n /\
  Z.of_nat (length (n_value n)) = n_len n + n_scale n /\
  Forall is_digit (n_value n).

(** The digits of a number: the first [n_len + n_scale] entries of its
    buffer. *)
Definition num_digits (n : bc_num) : list Z :=
  firstn (Z.to_nat (n_len n + n_scale n)) (n_value n).

(** The magnitude of a number as an integer count of units of
    [10 ^ - n_scale]. *)
Definition num_int (n : bc_num) : Z := digits_value (num_digits n).

(** The same with the sign: the number is [num_signed n / 10 ^ n_scale n]. *)
Definition num_signed (n : bc_num) : Z :=
  match n_sign n with
  | PLUS => num_int n
  | MINUS => - num_int n
  end.

(** A limb holds fewer than [BC_MUL_UINT_DIGITS] digits' worth. *)
Definition limb_ok (a : arch) (x : Z) : Prop := 0 <= x < BC_MUL_UINT_OVERFLOW a.

(** The number of limbs of a number of [nlen] digits. *)
Definition arr_size (a : arch) (nlen : Z) : Z :=
  (nlen + BC_MUL_UINT_DIGITS a - 1) / BC_MUL_UINT_DIGITS a.

(** The entries are values of the native unsigned type. *)
Definition slots_ok (a : arch) (l : list Z) : Prop :=
  Forall (fun x => 0 <= x <= BC_UINT_MAX a) l.

(** The most a slot can hold after [c] additions of limb products since
    the last adjustment. *)
Definition slot_bound (a : arch) (c : Z) : Z :=
  (BC_MUL_UINT_OVERFLOW a - 1) +
  c * ((BC_MUL_UINT_OVERFLOW a - 1) * (BC_MUL_UINT_OVERFLOW a - 1)).

(** The number a [bc_num] stands for. *)
Definition num_value (n : bc_num) : Q :=
  (inject_Z (num_signed n) / inject_Z (10 ^ n_scale n))%Q.

(** The integer part of a rational, toward zero. *)
Definition Qtrunc (q : Q) : Z := Z.quot (Qnum q) (Z.pos (Qden q)).

(** A rational cut, toward zero, to [s] decimal places. *)
Definition truncate_at (s : Z) (q : Q) : Q :=
  (inject_Z (Qtrunc (q * inject_Z (10 ^ s))) / inject_Z (10 ^ s))%Q.

(** Sample operands: -1234567.8912, 0.00456 and 999. *)
Definition sample_a : bc_num :=
  {| n_sign := MINUS; n_len := 7; n_scale := 4;
     n_value := [1; 2; 3; 4; 5; 6; 7; 8; 9; 1; 2] |}.

Definition sample_b : bc_num :=
  {| n_sign := PLUS; n_len := 1; n_scale := 5;
     n_value := [0; 0; 0; 4; 5; 6] |}.

Definition sample_c : bc_num :=
  {| n_sign := PLUS; n_len := 3; n_scale := 0; n_value := [9; 9; 9] |}.

(** Sample contents of uninitialised memory. *)
Definition sample_junk (k : Z) : Z := 170 + k.

(** The integer [x] written with [n] digits, as an operand. *)
Definition num_of_Z (sg : sign) (n : nat) (scale : Z) (x : Z) : bc_num :=
  {| n_sign := sg; n_len := Z.of_nat n - scale; n_scale := scale;
     n_value := to_digits n x |}.

(** * Proofs *)

(** ** Loops *)

Lemma zrange_nonpos n : n <= 0 -> zrange n = [].
Proof.
  intros H. unfold zrange. replace (Z.to_nat n) with O by lia. reflexivity.
Qed.

Lemma zrange_succ n : 0 <= n -> zrange (n + 1) = zrange n ++ [n].
Proof.
  intros H. unfold zrange.
  replace (Z.to_nat (n + 1)) with (Z.to_nat n + 1)%nat by lia.
  rewrite seq_app, map_app. simpl. now rewrite Z2Nat.id.
Qed.

Lemma length_zrange n : length (zrange n) = Z.to_nat n.
Proof. unfold zrange. now rewrite length_map, length_seq. Qed.

Lemma in_zrange n k : In k (zrange n) <-> 0 <= k < n.
Proof.
  unfold zrange. rewrite in_map_iff. split.
  - intros (x & <- & Hx). apply in_seq in Hx. lia.
  - intros Hk. exists (Z.to_nat k). split; [lia|]. apply in_seq. lia.
Qed.

Lemma for_loop_nonpos {S : Type} n (body : S -> Z -> S) s :
  n <= 0 -> for_loop n body s = s.
Proof. intros H. unfold for_loop. now rewrite zrange_nonpos. Qed.

Lemma for_loop_succ {S : Type} n (body : S -> Z -> S) s :
  0 <= n -> for_loop (n + 1) body s = body (for_loop n body s) n.
Proof.
  intros H. unfold for_loop. rewrite zrange_succ by assumption.
  now rewrite fold_left_app.
Qed.

(** The invariant rule for counted loops. *)
Lemma for_loop_inv {S : Type} (P : Z -> S -> Prop) n (body : S -> Z -> S) s :
  0 <= n ->
  P 0 s ->
  (forall i t, 0 <= i < n -> P i t -> P (i + 1) (body t i)) ->
  P n (for_loop n body s).
Proof.
  intros Hn H0 Hstep.
  assert (G : forall k : nat, (k <= Z.to_nat n)%nat ->
                P (Z.of_nat k) (for_loop (Z.of_nat k) body s)).
  { induction k as [|k IH]; intros Hk.
    - simpl. now rewrite for_loop_nonpos by lia.
    - replace (Z.of_nat (Datatypes.S k)) with (Z.of_nat k + 1) by lia.
      rewrite for_loop_succ by lia. apply Hstep; [lia|]. apply IH. lia. }
  specialize (G (Z.to_nat n) (Nat.le_refl _)).
  now rewrite Z2Nat.id in G by assumption.
Qed.

(** The rule for [while] loops: with an invariant and a measure that bounds
    the number of iterations left, the loop stops by its own condition. *)
Lemma while_loop_inv {S : Type} (P : S -> Prop) (m : S -> Z)
    (cond : S -> bool) (body : S -> S) :
  (forall s, P s -> cond s = true -> P (body s) /\ m (body s) < m s) ->
  (forall s, P s -> cond s = true -> 0 < m s) ->
  forall fuel s, P s -> m s <= Z.of_nat fuel ->
    P (while_loop fuel cond body s) /\
    cond (while_loop fuel cond body s) = false.
Proof.
  intros Hstep Hpos. induction fuel as [|f IH]; intros s Hs Hm; simpl.
  - split; [assumption|]. destruct (cond s) eqn:E; [|reflexivity].
    specialize (Hpos s Hs E). lia.
  - destruct (cond s) eqn:E; [|now split].
    destruct (Hstep s Hs E) as [Hb Hlt]. apply IH; [assumption|lia].
Qed.

(** ** Buffers *)

Lemma length_upd n v buf : length (upd n v buf) = length buf.
Proof.
  revert n. induction buf as [|x t IH]; intros [|n]; simpl; auto.
Qed.

Lemma length_wr buf i v : length (wr buf i v) = length buf.
Proof. unfold wr. destruct (i <? 0); [reflexivity|apply length_upd]. Qed.

Lemma nth_upd_same n v buf :
  (n < length buf)%nat -> nth n (upd n v buf) 0 = v.
Proof.
  revert n. induction buf as [|x t IH]; intros [|n] H; simpl in *; try lia.
  apply IH. lia.
Qed.

Lemma nth_upd_other n m v buf :
  n <> m -> nth m (upd n v buf) 0 = nth m buf 0.
Proof.
  revert n m. induction buf as [|x t IH]; intros [|n] [|m] H; simpl;
    try reflexivity; try congruence.
  apply IH. congruence.
Qed.

Lemma rd_wr_same buf i v :
  0 <= i < Z.of_nat (length buf) -> rd (wr buf i v) i = v.
Proof.
  intros H. unfold rd, wr. destruct (i <? 0) eqn:E; [lia|].
  apply nth_upd_same. lia.
Qed.

Lemma rd_wr_other buf i j v : i <> j -> rd (wr buf i v) j = rd buf j.
Proof.
  intros H. unfold rd, wr. destruct (j <? 0) eqn:Ej; [reflexivity|].
  destruct (i <? 0) eqn:Ei; [reflexivity|].
  apply nth_upd_other. lia.
Qed.

Lemma rd_outside buf i : Z.of_nat (length buf) <= i -> rd buf i = 0.
Proof.
  intros H. unfold rd. destruct (i <? 0) eqn:E; [reflexivity|].
  apply nth_overflow. lia.
Qed.

Lemma rd_cons_0 x t : rd (x :: t) 0 = x.
Proof. reflexivity. Qed.

Lemma rd_cons_succ x t i : 0 <= i -> rd (x :: t) (i + 1) = rd t i.
Proof.
  intros H. unfold rd.
  destruct (i + 1 <? 0) eqn:E1; [lia|]. destruct (i <? 0) eqn:E2; [lia|].
  replace (Z.to_nat (i + 1)) with (Datatypes.S (Z.to_nat i)) by lia.
  reflexivity.
Qed.

Lemma wr_cons_0 x t v : wr (x :: t) 0 v = v :: t.
Proof. reflexivity. Qed.

Lemma wr_cons_succ x t i v : 0 <= i -> wr (x :: t) (i + 1) v = x :: wr t i v.
Proof.
  intros H. unfold wr.
  destruct (i + 1 <? 0) eqn:E1; [lia|]. destruct (i <? 0) eqn:E2; [lia|].
  replace (Z.to_nat (i + 1)) with (Datatypes.S (Z.to_nat i)) by lia.
  reflexivity.
Qed.

Lemma rd_app_l l1 l2 i :
  0 <= i < Z.of_nat (length l1) -> rd (l1 ++ l2) i = rd l1 i.
Proof.
  intros H. unfold rd. destruct (i <? 0); [reflexivity|].
  apply app_nth1. lia.
Qed.

Lemma rd_app_r l1 l2 i :
  Z.of_nat (length l1) <= i -> rd (l1 ++ l2) i = rd l2 (i - Z.of_nat (length l1)).
Proof.
  intros H. unfold rd.
  destruct (i <? 0) eqn:E1; [lia|].
  destruct (i - Z.of_nat (length l1) <? 0) eqn:E2; [lia|].
  rewrite app_nth2 by lia. f_equal. lia.
Qed.

Lemma wr_app_r l1 l2 i v :
  Z.of_nat (length l1) <= i ->
  wr (l1 ++ l2) i v = l1 ++ wr l2 (i - Z.of_nat (length l1)) v.
Proof.
  revert i. induction l1 as [|x t IH]; intros i H; simpl in *.
  - now rewrite Z.sub_0_r.
  - replace i with ((i - 1) + 1) at 1 by lia.
    rewrite wr_cons_succ by lia. rewrite IH by lia.
    do 3 f_equal. lia.
Qed.

Lemma Forall_rd (P : Z -> Prop) buf i :
  Forall P buf -> 0 <= i < Z.of_nat (length buf) -> P (rd buf i).
Proof.
  intros HF Hi. unfold rd. destruct (i <? 0) eqn:E; [lia|].
  rewrite Forall_forall in HF. apply HF, nth_In. lia.
Qed.

Lemma Forall_wr (P : Z -> Prop) buf i v :
  Forall P buf -> P v -> Forall P (wr buf i v).
Proof.
  intros HF Hv. unfold wr. destruct (i <? 0); [assumption|].
  generalize (Z.to_nat i). clear i. induction HF as [|x t Hx Ht IH]; intros [|n]; simpl;
    constructor; auto.
Qed.

Lemma list_eq_rd (l1 l2 : list Z) :
  length l1 = length l2 ->
  (forall i, 0 <= i < Z.of_nat (length l1) -> rd l1 i = rd l2 i) ->
  l1 = l2.
Proof.
  intros HL H. apply nth_ext with (d := 0) (d' := 0); [assumption|].
  intros n Hn. specialize (H (Z.of_nat n) ltac:(lia)).
  unfold rd in H. destruct (Z.of_nat n <? 0) eqn:E; [lia|].
  now rewrite Nat2Z.id in H.
Qed.

(** ** Digit sequences *)

Lemma digits_value_snoc l d : digits_value (l ++ [d]) = digits_value l * 10 + d.
Proof. unfold digits_value. now rewrite fold_left_app. Qed.

Lemma digits_value_app l1 l2 :
  digits_value (l1 ++ l2) =
  digits_value l1 * 10 ^ Z.of_nat (length l2) + digits_value l2.
Proof.
  induction l2 as [|d l2 IH] using rev_ind.
  - rewrite app_nil_r. simpl. unfold digits_value at 3. simpl. lia.
  - rewrite app_assoc, !digits_value_snoc, IH, length_app. simpl.
    replace (Z.of_nat (length l2 + 1)) with (Z.of_nat (length l2) + 1) by lia.
    rewrite Z.pow_add_r by lia. lia.
Qed.

Lemma digits_value_cons d l :
  digits_value (d :: l) = d * 10 ^ Z.of_nat (length l) + digits_value l.
Proof.
  change (d :: l) with ([d] ++ l). rewrite digits_value_app.
  unfold digits_value at 1. simpl. lia.
Qed.

Lemma digits_value_bound l :
  Forall is_digit l -> 0 <= digits_value l < 10 ^ Z.of_nat (length l).
Proof.
  induction l as [|d l IH] using rev_ind; intros HF.
  - unfold digits_value. simpl. lia.
  - apply Forall_app in HF as [Hl Hd]. inversion Hd as [|? ? Hd' _]; subst.
    unfold is_digit in Hd'. specialize (IH Hl).
    rewrite digits_value_snoc, length_app. simpl.
    replace (Z.of_nat (length l + 1)) with (Z.of_nat (length l) + 1) by lia.
    rewrite Z.pow_add_r by lia. lia.
Qed.

Lemma length_to_digits n x : length (to_digits n x) = n.
Proof.
  revert x. induction n as [|n IH]; intros x; simpl; [reflexivity|].
  rewrite length_app, IH. simpl. lia.
Qed.

Lemma to_digits_digit n x : Forall is_digit (to_digits n x).
Proof.
  revert x. induction n as [|n IH]; intros x; simpl; [constructor|].
  apply Forall_app. split; [apply IH|]. constructor; [|constructor].
  unfold is_digit. pose proof (Z.mod_pos_bound x 10). lia.
Qed.

Lemma digits_value_to_digits n x :
  digits_value (to_digits n x) = x mod 10 ^ Z.of_nat n.
Proof.
  revert x. induction n as [|n IH]; intros x.
  - simpl. unfold digits_value. simpl. now rewrite Z.mod_1_r.
  - cbn [to_digits]. rewrite digits_value_snoc, IH.
    replace (Z.of_nat (S n)) with (1 + Z.of_nat n) by lia.
    rewrite Z.pow_add_r by lia. change (10 ^ 1) with 10.
    rewrite Z.rem_mul_r by lia. lia.
Qed.

(** A digit sequence is determined by its length and its value. *)
Lemma to_digits_digits_value l :
  Forall is_digit l -> to_digits (length l) (digits_value l) = l.
Proof.
  induction l as [|d l IH] using rev_ind; intros HF; [reflexivity|].
  apply Forall_app in HF as [Hl Hd]. inversion Hd as [|? ? Hd' _]; subst.
  unfold is_digit in Hd'.
  rewrite length_app. simpl. rewrite Nat.add_1_r. cbn [to_digits].
  rewrite digits_value_snoc.
  replace ((digits_value l * 10 + d) / 10) with (digits_value l)
    by (apply Z.div_unique with (r := d); lia).
  replace ((digits_value l * 10 + d) mod 10) with d
    by (apply Z.mod_unique with (q := digits_value l); lia).
  now rewrite IH.
Qed.

Lemma digits_unique l n x :
  Forall is_digit l -> length l = n -> digits_value l = x mod 10 ^ Z.of_nat n ->
  l = to_digits n x.
Proof.
  intros HF HL HV. rewrite <- (to_digits_digits_value l HF), HL, HV.
  clear. revert x. induction n as [|n IH]; intros x; [reflexivity|].
  cbn [to_digits].
  replace (Z.of_nat (S n)) with (1 + Z.of_nat n) by lia.
  rewrite Z.pow_add_r by lia. change (10 ^ 1) with 10.
  assert (Hp : 0 < 10 ^ Z.of_nat n) by (apply Z.pow_pos_nonneg; lia).
  rewrite Z.rem_mul_r by lia.
  replace ((x mod 10 + 10 * ((x / 10) mod 10 ^ Z.of_nat n)) / 10)
    with ((x / 10) mod 10 ^ Z.of_nat n).
  2:{ apply Z.div_unique with (r := x mod 10);
      pose proof (Z.mod_pos_bound x 10); lia. }
  replace ((x mod 10 + 10 * ((x / 10) mod 10 ^ Z.of_nat n)) mod 10)
    with (x mod 10).
  2:{ apply Z.mod_unique with (q := (x / 10) mod 10 ^ Z.of_nat n);
      pose proof (Z.mod_pos_bound x 10); lia. }
  now rewrite IH.
Qed.

Lemma to_digits_mod n x : to_digits n (x mod 10 ^ Z.of_nat n) = to_digits n x.
Proof.
  apply digits_unique.
  - apply to_digits_digit.
  - apply length_to_digits.
  - rewrite digits_value_to_digits. now rewrite Z.mod_mod by (apply Z.pow_nonzero; lia).
Qed.

Lemma to_digits_app m n x :
  to_digits (m + n) x = to_digits m (x / 10 ^ Z.of_nat n) ++ to_digits n x.
Proof.
  revert x. induction n as [|n IH]; intros x.
  - rewrite Nat.add_0_r. simpl. now rewrite Z.div_1_r, app_nil_r.
  - rewrite Nat.add_succ_r. cbn [to_digits]. rewrite IH, app_assoc.
    do 3 f_equal.
    replace (Z.of_nat (S n)) with (1 + Z.of_nat n) by lia.
    rewrite Z.pow_add_r by lia. change (10 ^ 1) with 10.
    rewrite Z.div_div by (try lia; apply Z.pow_pos_nonneg; lia). reflexivity.
Qed.

Lemma firstn_to_digits m n x :
  firstn m (to_digits (m + n) x) = to_digits m (x / 10 ^ Z.of_nat n).
Proof.
  rewrite to_digits_app.
  rewrite firstn_app, length_to_digits, Nat.sub_diag. simpl.
  rewrite app_nil_r. apply firstn_all2. rewrite length_to_digits. lia.
Qed.

Lemma digits_value_zero l :
  Forall is_digit l ->
  (forallb (fun d => d =? 0) l = true <-> digits_value l = 0).
Proof.
  induction l as [|d l IH]; intros HF.
  - simpl. unfold digits_value. simpl. tauto.
  - inversion HF as [|? ? Hd Hl]; subst. unfold is_digit in Hd.
    specialize (IH Hl). pose proof (digits_value_bound l Hl) as Hb.
    rewrite digits_value_cons. simpl. rewrite andb_true_iff, IH, Z.eqb_eq.
    assert (0 < 10 ^ Z.of_nat (length l)) by (apply Z.pow_pos_nonneg; lia).
    split.
    + intros [-> ->]. lia.
    + intros HH. split; nia.
Qed.

(** ** Limb arrays *)

Lemma OVERFLOW_pow a : BC_MUL_UINT_OVERFLOW a = 10 ^ BC_MUL_UINT_DIGITS a.
Proof. destruct a; reflexivity. Qed.

Lemma OVERFLOW_pos a : 1 < BC_MUL_UINT_OVERFLOW a.
Proof. destruct a; reflexivity. Qed.

Lemma DIGITS_pos a : 0 < BC_MUL_UINT_DIGITS a.
Proof. destruct a; reflexivity. Qed.

Lemma limbs_value_app a l1 l2 :
  limbs_value a (l1 ++ l2) =
  limbs_value a l1 +
  BC_MUL_UINT_OVERFLOW a ^ Z.of_nat (length l1) * limbs_value a l2.
Proof.
  induction l1 as [|x l1 IH].
  - cbn [app limbs_value length]. change (Z.of_nat 0) with 0.
    rewrite Z.pow_0_r. lia.
  - cbn [app limbs_value length]. rewrite IH.
    replace (Z.of_nat (S (length l1))) with (1 + Z.of_nat (length l1)) by lia.
    rewrite Z.pow_add_r by lia. lia.
Qed.

Lemma limbs_value_nonneg a l :
  Forall (fun x => 0 <= x) l -> 0 <= limbs_value a l.
Proof.
  induction 1 as [|x l Hx Hl IH]; simpl; [lia|].
  pose proof (OVERFLOW_pos a). nia.
Qed.

Lemma limbs_value_wr a l k v :
  0 <= k < Z.of_nat (length l) ->
  limbs_value a (wr l k v) =
  limbs_value a l + (v - rd l k) * BC_MUL_UINT_OVERFLOW a ^ k.
Proof.
  revert k. induction l as [|x l IH]; intros k Hk; simpl in Hk; [lia|].
  destruct (Z.eq_dec k 0) as [->|Hne].
  - rewrite wr_cons_0, rd_cons_0. simpl. lia.
  - replace k with ((k - 1) + 1) by lia.
    rewrite wr_cons_succ, rd_cons_succ by lia. cbn [limbs_value].
    rewrite IH by lia. rewrite (Z.pow_add_r _ (k - 1) 1) by lia. lia.
Qed.

(** Every slot weighs at most the whole value. *)
Lemma limbs_value_slot a l k :
  Forall (fun x => 0 <= x) l -> 0 <= k < Z.of_nat (length l) ->
  rd l k * BC_MUL_UINT_OVERFLOW a ^ k <= limbs_value a l.
Proof.
  intros HF. revert k. induction HF as [|x l Hx Hl IH]; intros k Hk; simpl in Hk; [lia|].
  pose proof (OVERFLOW_pos a) as HB.
  pose proof (limbs_value_nonneg a l Hl) as Hv.
  destruct (Z.eq_dec k 0) as [->|Hne].
  - rewrite rd_cons_0. simpl. nia.
  - replace k with ((k - 1) + 1) by lia.
    rewrite rd_cons_succ by lia. cbn [limbs_value].
    rewrite (Z.pow_add_r _ (k - 1) 1) by lia.
    specialize (IH (k - 1) ltac:(lia)). nia.
Qed.

Lemma limbs_value_bound a l :
  Forall (fun x => 0 <= x < BC_MUL_UINT_OVERFLOW a) l ->
  0 <= limbs_value a l < BC_MUL_UINT_OVERFLOW a ^ Z.of_nat (length l).
Proof.
  induction 1 as [|x l Hx Hl IH]; [simpl; lia|].
  cbn [limbs_value length].
  replace (Z.of_nat (S (length l))) with (1 + Z.of_nat (length l)) by lia.
  rewrite Z.pow_add_r by lia. pose proof (OVERFLOW_pos a). nia.
Qed.

(** Linear arithmetic with division and remainder by constants. *)
Ltac dlia := Z.to_euclidean_division_equations; lia.

(** ** Words and bytes *)

Lemma wrap_small bits x : 0 <= x < 2 ^ bits -> wrap bits x = x.
Proof. intros H. unfold wrap. now apply Z.mod_small. Qed.

Lemma wrap_range bits x : 0 <= bits -> 0 <= wrap bits x < 2 ^ bits.
Proof.
  intros H. unfold wrap. apply Z.mod_pos_bound. apply Z.pow_pos_nonneg; lia.
Qed.

Lemma uwrap_small a x : 0 <= x <= BC_UINT_MAX a -> uwrap a x = x.
Proof. intros H. apply wrap_small. unfold BC_UINT_MAX in H. lia. Qed.

Lemma uwrap_range a x : 0 <= uwrap a x <= BC_UINT_MAX a.
Proof.
  unfold uwrap, BC_UINT_MAX.
  pose proof (wrap_range (BC_UINT_BITS a) x ltac:(destruct a; simpl; lia)). lia.
Qed.

(** A bitwise [and] acts separately on the low [k] bits and on the rest. *)
Lemma land_split k lo hi mlo mhi :
  0 <= k -> 0 <= lo < 2 ^ k -> 0 <= mlo < 2 ^ k ->
  Z.land (lo + 2 ^ k * hi) (mlo + 2 ^ k * mhi) =
  Z.land lo mlo + 2 ^ k * Z.land hi mhi.
Proof.
  intros Hk Hlo Hmlo.
  assert (Hp : 0 < 2 ^ k) by (apply Z.pow_pos_nonneg; lia).
  set (x := lo + 2 ^ k * hi). set (m := mlo + 2 ^ k * mhi).
  assert (Hx1 : x mod 2 ^ k = lo)
    by (symmetry; apply Z.mod_unique with (q := hi); unfold x; lia).
  assert (Hx2 : x / 2 ^ k = hi)
    by (symmetry; apply Z.div_unique with (r := lo); unfold x; lia).
  assert (Hm1 : m mod 2 ^ k = mlo)
    by (symmetry; apply Z.mod_unique with (q := mhi); unfold m; lia).
  assert (Hm2 : m / 2 ^ k = mhi)
    by (symmetry; apply Z.div_unique with (r := mlo); unfold m; lia).
  rewrite (Z.div_mod (Z.land x m) (2 ^ k)) by lia.
  rewrite <- Z.shiftr_div_pow2, Z.shiftr_land, !Z.shiftr_div_pow2, Hx2, Hm2 by lia.
  rewrite <- Z.land_ones by lia.
  replace (Z.land (Z.land x m) (Z.ones k))
    with (Z.land (Z.land x (Z.ones k)) (Z.land m (Z.ones k))).
  2:{ apply Z.bits_inj'. intros n Hn. rewrite !Z.land_spec.
      destruct (Z.testbit x n), (Z.testbit m n), (Z.testbit (Z.ones k) n);
        reflexivity. }
  rewrite !Z.land_ones, Hx1, Hm1 by lia. lia.
Qed.

Lemma land_byte lo hi mlo mhi :
  0 <= lo < 256 -> 0 <= mlo < 256 ->
  Z.land (lo + 256 * hi) (mlo + 256 * mhi) =
  Z.land lo mlo + 256 * Z.land hi mhi.
Proof. intros. apply (land_split 8); simpl; lia. Qed.

Lemma land_15 d : 0 <= d < 16 -> Z.land d 15 = d.
Proof.
  intros H. change 15 with (Z.ones 4). rewrite Z.land_ones by lia.
  apply Z.mod_small. simpl. lia.
Qed.

Lemma land_255 d : 0 <= d < 256 -> Z.land d 255 = d.
Proof.
  intros H. change 255 with (Z.ones 8). rewrite Z.land_ones by lia.
  apply Z.mod_small. simpl. lia.
Qed.

Lemma le_split_combine bs :
  Forall (fun b => 0 <= b < 256) bs -> le_split (length bs) (le_combine bs) = bs.
Proof.
  induction 1 as [|b t Hb Ht IH]; [reflexivity|].
  cbn [length le_split le_combine]. f_equal.
  - symmetry. apply Z.mod_unique with (q := le_combine t); lia.
  - replace ((b + 256 * le_combine t) / 256) with (le_combine t); [exact IH|].
    apply Z.div_unique with (r := b); lia.
Qed.

(** On a big-endian machine, loading and swapping gives the word that a
    little-endian machine loads. *)
Lemma load_bswap e n bs :
  Forall (fun b => 0 <= b < 256) bs -> length bs = n ->
  match e with
  | LittleEndian => load e bs
  | BigEndian => BC_BSWAP n (load e bs)
  end = le_combine bs.
Proof.
  intros HF HL. destruct e; simpl; [reflexivity|].
  unfold BC_BSWAP. rewrite <- HL, <- length_rev.
  rewrite le_split_combine by (now apply Forall_rev).
  now rewrite rev_involutive.
Qed.

Lemma bytes_at_4 buf str :
  bytes_at buf str 4 =
  [rd buf str; rd buf (str + 1); rd buf (str + 2); rd buf (str + 3)].
Proof. unfold bytes_at, zrange. simpl. now rewrite Z.add_0_r. Qed.

Lemma bytes_at_8 buf str :
  bytes_at buf str 8 =
  [rd buf str; rd buf (str + 1); rd buf (str + 2); rd buf (str + 3);
   rd buf (str + 4); rd buf (str + 5); rd buf (str + 6); rd buf (str + 7)].
Proof. unfold bytes_at, zrange. simpl. now rewrite Z.add_0_r. Qed.

(** ** The pairwise combination of [bc_parse_chunk_chars] *)

Ltac digit_bounds :=
  repeat match goal with H : is_digit _ |- _ => unfold is_digit in H end.

Lemma parse_chunk_32_le_combine d0 d1 d2 d3 :
  is_digit d0 -> is_digit d1 -> is_digit d2 -> is_digit d3 ->
  let tmp := le_combine [d0; d1; d2; d3] in
  let lower_digits := Z.shiftr (Z.land tmp 0x0f000f00) 8 in
  let upper_digits := wrap 32 (Z.land tmp 0x000f000f * 10) in
  let tmp := wrap 32 (lower_digits + upper_digits) in
  let lower_digits := Z.shiftr (Z.land tmp 0x00ff0000) 16 in
  let upper_digits := wrap 32 (Z.land tmp 0x000000ff * 100) in
  wrap 32 (lower_digits + upper_digits) = 1000 * d0 + 100 * d1 + 10 * d2 + d3.
Proof.
  intros H0 H1 H2 H3. digit_bounds. cbv zeta. cbn [le_combine].
  set (t0 := d0 + 256 * (d1 + 256 * (d2 + 256 * (d3 + 256 * 0)))).
  assert (E1 : Z.shiftr (Z.land t0 0x0f000f00) 8 = d1 + 65536 * d3).
  { unfold t0.
    change 0x0f000f00 with (0 + 256 * (15 + 256 * (0 + 256 * (15 + 256 * 0)))).
    rewrite !land_byte by lia. rewrite !land_15, !Z.land_0_r by lia.
    rewrite Z.shiftr_div_pow2 by lia. change (2 ^ 8) with 256. dlia. }
  assert (E2 : Z.land t0 0x000f000f = d0 + 65536 * d2).
  { unfold t0.
    change 0x000f000f with (15 + 256 * (0 + 256 * (15 + 256 * (0 + 256 * 0)))).
    rewrite !land_byte by lia. rewrite !land_15, !Z.land_0_r by lia. lia. }
  rewrite E1, E2. clear E1 E2. clearbody t0.
  rewrite (wrap_small 32 ((d0 + 65536 * d2) * 10))
    by (change (2 ^ 32) with 4294967296; lia).
  rewrite (wrap_small 32 (d1 + 65536 * d3 + (d0 + 65536 * d2) * 10))
    by (change (2 ^ 32) with 4294967296; lia).
  set (t1 := d1 + 65536 * d3 + (d0 + 65536 * d2) * 10).
  assert (Ht1 : t1 = (10 * d0 + d1) +
                     256 * (0 + 256 * ((10 * d2 + d3) + 256 * (0 + 256 * 0))))
    by (unfold t1; lia).
  assert (E3 : Z.shiftr (Z.land t1 0x00ff0000) 16 = 10 * d2 + d3).
  { rewrite Ht1.
    change 0x00ff0000 with (0 + 256 * (0 + 256 * (255 + 256 * (0 + 256 * 0)))).
    rewrite !land_byte by lia. rewrite !land_255, !Z.land_0_r by lia.
    rewrite Z.shiftr_div_pow2 by lia. change (2 ^ 16) with 65536. dlia. }
  assert (E4 : Z.land t1 0x000000ff = 10 * d0 + d1).
  { rewrite Ht1.
    change 0x000000ff with (255 + 256 * (0 + 256 * (0 + 256 * (0 + 256 * 0)))).
    rewrite !land_byte by lia. rewrite !land_255, !Z.land_0_r by lia. lia. }
  rewrite E3, E4.
  rewrite (wrap_small 32 ((10 * d0 + d1) * 100))
    by (change (2 ^ 32) with 4294967296; lia).
  rewrite wrap_small by (change (2 ^ 32) with 4294967296; lia).
  lia.
Qed.

Lemma parse_chunk_64_le_combine d0 d1 d2 d3 d4 d5 d6 d7 :
  is_digit d0 -> is_digit d1 -> is_digit d2 -> is_digit d3 ->
  is_digit d4 -> is_digit d5 -> is_digit d6 -> is_digit d7 ->
  let tmp := le_combine [d0; d1; d2; d3; d4; d5; d6; d7] in
  let lower_digits := Z.shiftr (Z.land tmp 0x0f000f000f000f00) 8 in
  let upper_digits := wrap 64 (Z.land tmp 0x000f000f000f000f * 10) in
  let tmp := wrap 64 (lower_digits + upper_digits) in
  let lower_digits := Z.shiftr (Z.land tmp 0x00ff000000ff0000) 16 in
  let upper_digits := wrap 64 (Z.land tmp 0x000000ff000000ff * 100) in
  let tmp := wrap 64 (lower_digits + upper_digits) in
  let lower_digits := Z.shiftr (Z.land tmp 0x0000ffff00000000) 32 in
  let upper_digits := wrap 64 (Z.land tmp 0x000000000000ffff * 10000) in
  wrap 64 (lower_digits + upper_digits) =
  10000000 * d0 + 1000000 * d1 + 100000 * d2 + 10000 * d3 +
  1000 * d4 + 100 * d5 + 10 * d6 + d7.
Proof.
  intros H0 H1 H2 H3 H4 H5 H6 H7. digit_bounds. cbv zeta. cbn [le_combine].
  set (t0 := d0 + 256 * (d1 + 256 * (d2 + 256 * (d3 + 256 *
             (d4 + 256 * (d5 + 256 * (d6 + 256 * (d7 + 256 * 0)))))))).
  set (w := 2 ^ 16).
  assert (E1 : Z.shiftr (Z.land t0 0x0f000f000f000f00) 8 =
               d1 + w * (d3 + w * (d5 + w * d7))).
  { unfold t0, w.
    change 0x0f000f000f000f00 with
      (0 + 256 * (15 + 256 * (0 + 256 * (15 + 256 *
       (0 + 256 * (15 + 256 * (0 + 256 * (15 + 256 * 0)))))))).
    rewrite !land_byte by lia. rewrite !land_15, !Z.land_0_r by lia.
    rewrite Z.shiftr_div_pow2 by lia. change (2 ^ 8) with 256.
    change (2 ^ 16) with 65536. dlia. }
  assert (E2 : Z.land t0 0x000f000f000f000f =
               d0 + w * (d2 + w * (d4 + w * d6))).
  { unfold t0, w.
    change 0x000f000f000f000f with
      (15 + 256 * (0 + 256 * (15 + 256 * (0 + 256 *
       (15 + 256 * (0 + 256 * (15 + 256 * (0 + 256 * 0)))))))).
    rewrite !land_byte by lia. rewrite !land_15, !Z.land_0_r by lia.
    change (2 ^ 16) with 65536. lia. }
  rewrite E1, E2. clear E1 E2. clearbody t0.
  set (t1 := (10 * d0 + d1) + w * ((10 * d2 + d3) +
             w * ((10 * d4 + d5) + w * ((10 * d6 + d7) + w * 0)))).
  assert (W1 : wrap 64 (d1 + w * (d3 + w * (d5 + w * d7)) +
                        wrap 64 ((d0 + w * (d2 + w * (d4 + w * d6))) * 10)) = t1).
  { unfold t1, w. change (2 ^ 16) with 65536.
    rewrite (wrap_small 64 (_ * 10))
      by (change (2 ^ 64) with 18446744073709551616; lia).
    rewrite wrap_small by (change (2 ^ 64) with 18446744073709551616; lia).
    lia. }
  rewrite W1. clear W1.
  set (v := 2 ^ 32).
  assert (E3 : Z.shiftr (Z.land t1 0x00ff000000ff0000) 16 =
               (10 * d2 + d3) + v * (10 * d6 + d7)).
  { unfold t1, v.
    replace (10 * d0 + d1 + w * (10 * d2 + d3 + w * (10 * d4 + d5 + w * (10 * d6 + d7 + w * 0))))
      with ((10 * d0 + d1) + 256 * (0 + 256 * ((10 * d2 + d3) + 256 * (0 + 256 *
            ((10 * d4 + d5) + 256 * (0 + 256 * ((10 * d6 + d7) + 256 * (0 + 256 * 0))))))))
      by (unfold w; change (2 ^ 16) with 65536; lia).
    change 0x00ff000000ff0000 with
      (0 + 256 * (0 + 256 * (255 + 256 * (0 + 256 *
       (0 + 256 * (0 + 256 * (255 + 256 * (0 + 256 * 0)))))))).
    rewrite !land_byte by lia. rewrite !land_255, !Z.land_0_r by lia.
    rewrite Z.shiftr_div_pow2 by lia. change (2 ^ 16) with 65536.
    change (2 ^ 32) with 4294967296. dlia. }
  assert (E4 : Z.land t1 0x000000ff000000ff =
               (10 * d0 + d1) + v * (10 * d4 + d5)).
  { unfold t1, v.
    replace (10 * d0 + d1 + w * (10 * d2 + d3 + w * (10 * d4 + d5 + w * (10 * d6 + d7 + w * 0))))
      with ((10 * d0 + d1) + 256 * (0 + 256 * ((10 * d2 + d3) + 256 * (0 + 256 *
            ((10 * d4 + d5) + 256 * (0 + 256 * ((10 * d6 + d7) + 256 * (0 + 256 * 0))))))))
      by (unfold w; change (2 ^ 16) with 65536; lia).
    change 0x000000ff000000ff with
      (255 + 256 * (0 + 256 * (0 + 256 * (0 + 256 *
       (255 + 256 * (0 + 256 * (0 + 256 * (0 + 256 * 0)))))))).
    rewrite !land_byte by lia. rewrite !land_255, !Z.land_0_r by lia.
    change (2 ^ 32) with 4294967296. lia. }
  rewrite E3, E4. clear E3 E4. clearbody t1.
  set (q0 := 1000 * d0 + 100 * d1 + 10 * d2 + d3).
  set (q1 := 1000 * d4 + 100 * d5 + 10 * d6 + d7).
  assert (Hq0 : 0 <= q0 < 10000) by (unfold q0; lia).
  assert (Hq1 : 0 <= q1 < 10000) by (unfold q1; lia).
  assert (W2 : wrap 64 (10 * d2 + d3 + v * (10 * d6 + d7) +
                        wrap 64 ((10 * d0 + d1 + v * (10 * d4 + d5)) * 100)) =
               q0 + v * (q1 + v * 0)).
  { unfold q0, q1, v. change (2 ^ 32) with 4294967296.
    rewrite (wrap_small 64 (_ * 100))
      by (change (2 ^ 64) with 18446744073709551616; lia).
    rewrite wrap_small by (change (2 ^ 64) with 18446744073709551616; lia).
    lia. }
  rewrite W2. clear W2.
  assert (E5 : Z.shiftr (Z.land (q0 + v * (q1 + v * 0)) 0x0000ffff00000000) 32 = q1).
  { unfold v.
    change 0x0000ffff00000000 with (0 + 2 ^ 32 * (65535 + 2 ^ 32 * 0)).
    rewrite !(land_split 32) by (change (2 ^ 32) with 4294967296; lia).
    rewrite !Z.land_0_r. change 65535 with (Z.ones 16).
    rewrite Z.land_ones by lia. change (2 ^ 16) with 65536.
    rewrite Z.shiftr_div_pow2 by lia. change (2 ^ 32) with 4294967296. dlia. }
  assert (E6 : Z.land (q0 + v * (q1 + v * 0)) 0x000000000000ffff = q0).
  { unfold v.
    change 0x000000000000ffff with (65535 + 2 ^ 32 * (0 + 2 ^ 32 * 0)).
    rewrite !(land_split 32) by (change (2 ^ 32) with 4294967296; lia).
    rewrite !Z.land_0_r. change 65535 with (Z.ones 16).
    rewrite Z.land_ones by lia. change (2 ^ 16) with 65536.
    change (2 ^ 32) with 4294967296. dlia. }
  rewrite E5, E6.
  rewrite (wrap_small 64 (q0 * 10000))
    by (change (2 ^ 64) with 18446744073709551616; lia).
  rewrite wrap_small by (change (2 ^ 64) with 18446744073709551616; lia).
  unfold q0, q1. lia.
Qed.

(** ** Positional sums *)

Lemma rd_digit buf i : Forall is_digit buf -> is_digit (rd buf i).
Proof.
  intros HF. destruct (Z_lt_dec i 0) as [Hn|Hn].
  - unfold rd. destruct (i <? 0) eqn:E; [|lia]. unfold is_digit. lia.
  - destruct (Z_lt_dec i (Z.of_nat (length buf))) as [Hi|Hi].
    + apply Forall_rd; [assumption|lia].
    + rewrite rd_outside by lia. unfold is_digit. lia.
Qed.

Lemma fold_right_add_snoc l x :
  fold_right Z.add 0 (l ++ [x]) = fold_right Z.add 0 l + x.
Proof. induction l as [|y l IH]; simpl; lia. Qed.

Lemma weighted_sum_0 buf n : weighted_sum buf n 0 = 0.
Proof. reflexivity. Qed.

Lemma weighted_sum_1 buf n : weighted_sum buf n 1 = rd buf n.
Proof. unfold weighted_sum, zrange. simpl. rewrite Z.sub_0_r. lia. Qed.

Lemma weighted_sum_succ buf n m :
  0 <= m ->
  weighted_sum buf n (m + 1) = weighted_sum buf n m + rd buf (n - m) * 10 ^ m.
Proof.
  intros H. unfold weighted_sum. rewrite zrange_succ by assumption.
  rewrite map_app. cbn [map]. now rewrite fold_right_add_snoc.
Qed.

Lemma weighted_sum_split buf n k m :
  0 <= k -> 0 <= m ->
  weighted_sum buf n (k + m) =
  weighted_sum buf n k + 10 ^ k * weighted_sum buf (n - k) m.
Proof.
  intros Hk Hm. revert m Hm. apply natlike_ind.
  - rewrite Z.add_0_r, weighted_sum_0. lia.
  - intros m Hm IH. unfold Z.succ. rewrite Z.add_assoc.
    rewrite !weighted_sum_succ by lia. rewrite IH.
    rewrite Z.pow_add_r by lia. replace (n - k - m) with (n - (k + m)) by lia.
    lia.
Qed.

Lemma weighted_sum_bound buf n m :
  Forall is_digit buf -> 0 <= m -> 0 <= weighted_sum buf n m < 10 ^ m.
Proof.
  intros HF Hm. revert m Hm. apply natlike_ind.
  - rewrite weighted_sum_0. simpl. lia.
  - intros m Hm IH. unfold Z.succ. rewrite weighted_sum_succ by lia.
    pose proof (rd_digit buf (n - m) HF) as Hd. unfold is_digit in Hd.
    rewrite Z.pow_add_r by lia. change (10 ^ 1) with 10.
    assert (0 < 10 ^ m) by (apply Z.pow_pos_nonneg; lia). nia.
Qed.

(** The positional sum over a whole digit sequence is its value. *)
Lemma weighted_sum_digits_value l1 l2 :
  weighted_sum (l1 ++ l2) (Z.of_nat (length l1) - 1) (Z.of_nat (length l1)) =
  digits_value l1.
Proof.
  revert l2. induction l1 as [|d l1 IH] using rev_ind; intros l2; [reflexivity|].
  rewrite length_app. simpl length.
  replace (Z.of_nat (length l1 + 1)) with (1 + Z.of_nat (length l1)) by lia.
  rewrite weighted_sum_split by lia.
  rewrite weighted_sum_1.
  rewrite digits_value_snoc. rewrite <- app_assoc.
  replace (1 + Z.of_nat (length l1) - 1 - 1) with (Z.of_nat (length l1) - 1) by lia.
  rewrite IH.
  replace (1 + Z.of_nat (length l1) - 1) with (Z.of_nat (length l1)) by lia.
  rewrite rd_app_r by lia. rewrite Z.sub_diag. simpl app. rewrite rd_cons_0.
  change (10 ^ 1) with 10. lia.
Qed.

Lemma weighted_sum_firstn buf len :
  0 <= len <= Z.of_nat (length buf) ->
  weighted_sum buf (len - 1) len = digits_value (firstn (Z.to_nat len) buf).
Proof.
  intros H.
  assert (HL : Z.of_nat (length (firstn (Z.to_nat len) buf)) = len)
    by (rewrite length_firstn; lia).
  pose proof (weighted_sum_digits_value (firstn (Z.to_nat len) buf)
                (skipn (Z.to_nat len) buf)) as E.
  now rewrite firstn_skipn, HL in E.
Qed.

(** ** [bc_partial_convert_to_uint] *)

Lemma pow10_DIGITS_small a m :
  0 <= m <= BC_MUL_UINT_DIGITS a -> 10 ^ m <= BC_MUL_UINT_OVERFLOW a.
Proof.
  intros H. rewrite OVERFLOW_pow. apply Z.pow_le_mono_r; lia.
Qed.

Lemma OVERFLOW_sq_max a :
  BC_MUL_UINT_OVERFLOW a * BC_MUL_UINT_OVERFLOW a <= BC_UINT_MAX a.
Proof. destruct a; vm_compute; discriminate. Qed.

Lemma bc_partial_convert_loop_spec a buf n len :
  Forall is_digit buf -> 0 <= len <= BC_MUL_UINT_DIGITS a ->
  bc_partial_convert_loop a buf n len = weighted_sum buf n len.
Proof.
  intros HF Hlen. unfold bc_partial_convert_loop.
  pose proof (OVERFLOW_sq_max a) as Hsq. pose proof (OVERFLOW_pos a) as HB.
  match goal with |- pc_num (for_loop _ ?body ?s0) = _ =>
    pose proof (for_loop_inv
      (fun i s => pc_n s = n - i /\ pc_base s = 10 ^ i /\
                  pc_num s = weighted_sum buf n i) len body s0) as HI
  end.
  apply HI; [lia | simpl; rewrite Z.sub_0_r; auto |]. clear HI.
  intros i s Hi (Hn & Hb & Hv). cbn [pc_n pc_base pc_num].
  pose proof (rd_digit buf (n - i) HF) as Hd. unfold is_digit in Hd.
  pose proof (weighted_sum_bound buf n i HF ltac:(lia)) as Hw.
  pose proof (pow10_DIGITS_small a i ltac:(lia)) as Hp1.
  pose proof (pow10_DIGITS_small a (i + 1) ltac:(lia)) as Hp2.
  rewrite Z.pow_add_r in Hp2 by lia. change (10 ^ 1) with 10 in Hp2.
  assert (0 < 10 ^ i) by (apply Z.pow_pos_nonneg; lia).
  rewrite Hn, Hb, Hv. unfold BASE.
  rewrite (uwrap_small a (rd buf (n - i) * 10 ^ i)) by nia.
  rewrite !uwrap_small by nia.
  rewrite weighted_sum_succ by lia. rewrite Z.pow_add_r by lia.
  repeat split; lia.
Qed.

Lemma weighted_sum_4 buf n :
  weighted_sum buf n 4 =
  1000 * rd buf (n - 3) + 100 * rd buf (n - 2) + 10 * rd buf (n - 1) + rd buf n.
Proof.
  change (weighted_sum buf n 4) with (weighted_sum buf n (3 + 1)).
  rewrite weighted_sum_succ by lia.
  change (weighted_sum buf n 3) with (weighted_sum buf n (2 + 1)).
  rewrite weighted_sum_succ by lia.
  change (weighted_sum buf n 2) with (weighted_sum buf n (1 + 1)).
  rewrite weighted_sum_succ by lia.
  rewrite weighted_sum_1.
  change (10 ^ 1) with 10. change (10 ^ 2) with 100. change (10 ^ 3) with 1000.
  lia.
Qed.

Lemma weighted_sum_8 buf n :
  weighted_sum buf n 8 =
  10000000 * rd buf (n - 7) + 1000000 * rd buf (n - 6) +
  100000 * rd buf (n - 5) + 10000 * rd buf (n - 4) +
  1000 * rd buf (n - 3) + 100 * rd buf (n - 2) + 10 * rd buf (n - 1) + rd buf n.
Proof.
  change (weighted_sum buf n 8) with (weighted_sum buf n (4 + 4)).
  rewrite weighted_sum_split, !weighted_sum_4 by lia.
  replace (n - 4 - 3) with (n - 7) by lia.
  replace (n - 4 - 2) with (n - 6) by lia.
  replace (n - 4 - 1) with (n - 5) by lia.
  change (10 ^ 4) with 10000. lia.
Qed.

Lemma digit_byte buf i : Forall is_digit buf -> 0 <= rd buf i < 256.
Proof. intros HF. pose proof (rd_digit buf i HF) as H. unfold is_digit in H. lia. Qed.

Lemma bc_parse_chunk_chars_spec a e buf n :
  Forall is_digit buf ->
  bc_parse_chunk_chars a e buf (n - BC_MUL_UINT_DIGITS a + 1) =
  weighted_sum buf n (BC_MUL_UINT_DIGITS a).
Proof.
  intros HF. destruct a; cbn [bc_parse_chunk_chars BC_MUL_UINT_DIGITS].
  - unfold bc_parse_chunk_chars_32. rewrite bytes_at_4.
    rewrite (load_bswap e 4)
      by (repeat constructor; apply digit_byte; assumption).
    rewrite weighted_sum_4.
    replace (n - 4 + 1) with (n - 3) by lia.
    replace (n - 3 + 1) with (n - 2) by lia.
    replace (n - 3 + 2) with (n - 1) by lia.
    replace (n - 3 + 3) with n by lia.
    apply parse_chunk_32_le_combine; apply rd_digit; assumption.
  - unfold bc_parse_chunk_chars_64. rewrite bytes_at_8.
    rewrite (load_bswap e 8)
      by (repeat constructor; apply digit_byte; assumption).
    rewrite weighted_sum_8.
    replace (n - 8 + 1) with (n - 7) by lia.
    replace (n - 7 + 1) with (n - 6) by lia.
    replace (n - 7 + 2) with (n - 5) by lia.
    replace (n - 7 + 3) with (n - 4) by lia.
    replace (n - 7 + 4) with (n - 3) by lia.
    replace (n - 7 + 5) with (n - 2) by lia.
    replace (n - 7 + 6) with (n - 1) by lia.
    replace (n - 7 + 7) with n by lia.
    apply parse_chunk_64_le_combine; apply rd_digit; assumption.
Qed.

Lemma bc_partial_convert_to_uint_spec a e buf n len :
  Forall is_digit buf -> 0 <= len <= BC_MUL_UINT_DIGITS a ->
  bc_partial_convert_to_uint a e buf n len = weighted_sum buf n len.
Proof.
  intros HF Hlen. unfold bc_partial_convert_to_uint.
  destruct (len =? BC_MUL_UINT_DIGITS a) eqn:E.
  - apply Z.eqb_eq in E. subst len. now apply bc_parse_chunk_chars_spec.
  - now apply bc_partial_convert_loop_spec.
Qed.

(** ** [bc_convert_to_uint] *)

Lemma firstn_wr_snoc l i v :
  0 <= i < Z.of_nat (length l) ->
  firstn (Z.to_nat (i + 1)) (wr l i v) = firstn (Z.to_nat i) l ++ [v].
Proof.
  revert i. induction l as [|x l IH]; intros i Hi; simpl in Hi; [lia|].
  destruct (Z.eq_dec i 0) as [->|Hne].
  - reflexivity.
  - replace i with ((i - 1) + 1) at 2 by lia. rewrite wr_cons_succ by lia.
    replace (Z.to_nat (i + 1)) with (S (Z.to_nat (i - 1 + 1))) by lia.
    replace (Z.to_nat i) with (S (Z.to_nat (i - 1))) by lia.
    cbn [firstn app]. f_equal. apply IH. lia.
Qed.

Lemma limbs_value_snoc a l v :
  limbs_value a (l ++ [v]) =
  limbs_value a l + BC_MUL_UINT_OVERFLOW a ^ Z.of_nat (length l) * v.
Proof. rewrite limbs_value_app. cbn [limbs_value]. lia. Qed.

Lemma MIN_spec x y : MIN x y = Z.min x y.
Proof. unfold MIN. destruct (x <? y) eqn:E; lia. Qed.

Lemma MAX_spec x y : MAX x y = Z.max x y.
Proof. unfold MAX. destruct (x >? y) eqn:E; lia. Qed.

Lemma arr_size_step a nlen :
  0 < nlen ->
  arr_size a (nlen - Z.min (BC_MUL_UINT_DIGITS a) nlen) = arr_size a nlen - 1.
Proof. intros H. unfold arr_size. destruct a; cbn [BC_MUL_UINT_DIGITS]; dlia. Qed.

Lemma arr_size_0 a : arr_size a 0 = 0.
Proof. destruct a; reflexivity. Qed.

Lemma arr_size_nonneg a nlen : 0 <= nlen -> 0 <= arr_size a nlen.
Proof. intros H. unfold arr_size. destruct a; cbn [BC_MUL_UINT_DIGITS]; dlia. Qed.

Lemma arr_size_bounds a nlen :
  0 <= nlen ->
  BC_MUL_UINT_DIGITS a * (arr_size a nlen - 1) < nlen <=
  BC_MUL_UINT_DIGITS a * arr_size a nlen \/ (nlen = 0 /\ arr_size a nlen = 0).
Proof. intros H. unfold arr_size. destruct a; cbn [BC_MUL_UINT_DIGITS]; dlia. Qed.

Lemma bc_convert_to_uint_spec a e n_uint buf nlen :
  Forall is_digit buf -> 0 <= nlen ->
  Z.of_nat (length n_uint) = arr_size a nlen ->
  let r := bc_convert_to_uint a e n_uint buf (nlen - 1) nlen in
  length r = length n_uint /\ Forall (limb_ok a) r /\
  limbs_value a r = weighted_sum buf (nlen - 1) nlen.
Proof.
  intros HF Hnlen HL. cbv zeta. unfold bc_convert_to_uint.
  set (B := BC_MUL_UINT_OVERFLOW a). set (W := BC_MUL_UINT_DIGITS a).
  pose proof (OVERFLOW_pos a) as HB. pose proof (DIGITS_pos a) as HW.
  fold B in HB. fold W in HW.
  set (P := fun s =>
    0 <= cu_nlen s /\ cu_nend s = cu_nlen s - 1 /\
    length (cu_uint s) = length n_uint /\ 0 <= cu_i s /\
    cu_i s + arr_size a (cu_nlen s) = arr_size a nlen /\
    Forall (limb_ok a) (firstn (Z.to_nat (cu_i s)) (cu_uint s)) /\
    weighted_sum buf (nlen - 1) nlen =
    limbs_value a (firstn (Z.to_nat (cu_i s)) (cu_uint s)) +
    B ^ cu_i s * weighted_sum buf (cu_nend s) (cu_nlen s)).
  match goal with |- context [while_loop ?f ?c ?b ?s0] =>
    destruct (while_loop_inv P cu_nlen c b) with (fuel := f) (s := s0)
      as [HP Hc]
  end.
  - intros s (H1 & H2 & H3 & H4 & H5 & H6 & H7) Hc.
    assert (Hpos : 0 < cu_nlen s) by lia. clear Hc.
    rewrite MIN_spec. fold W.
    set (len := Z.min W (cu_nlen s)).
    assert (Hlen : 1 <= len <= W) by lia.
    pose proof (arr_size_step a (cu_nlen s) Hpos) as Hstep. fold W len in Hstep.
    pose proof (arr_size_nonneg a (cu_nlen s - len) ltac:(lia)) as Hnn.
    assert (Hi : 0 <= cu_i s < Z.of_nat (length (cu_uint s))) by lia.
    split; [|cbn [cu_nlen]; lia].
    unfold P. cbn [cu_nlen cu_nend cu_uint cu_i].
    rewrite length_wr, firstn_wr_snoc by assumption.
    rewrite bc_partial_convert_to_uint_spec by (assumption || (fold W; lia)).
    pose proof (weighted_sum_bound buf (cu_nend s) len HF ltac:(lia)) as Hb.
    pose proof (pow10_DIGITS_small a len ltac:(fold W; lia)) as Hp. fold B in Hp.
    repeat split; try lia.
    + apply Forall_app. split; [assumption|]. constructor; [|constructor].
      unfold limb_ok. fold B. lia.
    + rewrite H7, limbs_value_snoc. fold B.
      rewrite length_firstn, Nat.min_l by lia. rewrite Z2Nat.id by lia.
      replace (cu_nlen s) with (len + (cu_nlen s - len)) at 1 by lia.
      rewrite weighted_sum_split by lia.
      rewrite Z.pow_add_r by lia. rewrite Z.pow_1_r.
      destruct (Z.eq_dec len W) as [E|E].
      * rewrite E. unfold B, W. rewrite (OVERFLOW_pow a). lia.
      * replace (cu_nlen s - len) with 0 by lia. rewrite !weighted_sum_0. lia.
  - intros s (H1 & _) Hc. lia.
  - unfold P. cbn [cu_nlen cu_nend cu_uint cu_i].
    repeat split; try lia; [constructor|].
    change (Z.to_nat 0) with O. cbn [firstn limbs_value].
    rewrite Z.pow_0_r. lia.
  - cbn [cu_nlen]. lia.
  - destruct HP as (H1 & H2 & H3 & H4 & H5 & H6 & H7).
    cbv beta in Hc.
    match type of Hc with (cu_nlen ?t >? 0) = false => set (fin := t) in * end.
    assert (Hz : cu_nlen fin = 0) by lia.
    rewrite Hz in *. rewrite arr_size_0 in H5.
    rewrite firstn_all2 in H6, H7 by lia.
    rewrite weighted_sum_0 in H7. repeat split; [assumption..|lia].
Qed.

(** ** Writing digits *)

Lemma length_fresh junk n : length (fresh junk n) = Z.to_nat n.
Proof. unfold fresh. now rewrite length_map, length_zrange. Qed.

Lemma write_bytes_spec bs pre old D p :
  length old = length bs -> Z.of_nat (length pre) = p ->
  write_bytes (pre ++ old ++ D) p bs = pre ++ bs ++ D.
Proof.
  revert pre old p. induction bs as [|b t IH]; intros pre old p HL Hp.
  - destruct old; [reflexivity|discriminate].
  - destruct old as [|o old]; [discriminate|]. cbn [write_bytes].
    rewrite wr_app_r by lia. replace (p - Z.of_nat (length pre)) with 0 by lia.
    cbn [app]. rewrite wr_cons_0.
    change (pre ++ b :: old ++ D) with (pre ++ [b] ++ old ++ D).
    rewrite app_assoc. rewrite IH.
    + now rewrite <- app_assoc.
    + simpl in HL. congruence.
    + rewrite length_app. simpl. lia.
Qed.

Lemma zrange_S n : zrange (Z.of_nat (S n)) = zrange (Z.of_nat n) ++ [Z.of_nat n].
Proof.
  replace (Z.of_nat (S n)) with (Z.of_nat n + 1) by lia.
  apply zrange_succ. lia.
Qed.

(** The digit-by-digit loop overwrites the part of the buffer in front of
    [pend] with the low digits of [x]. *)
Lemma drain_while_spec pre D x log pend :
  pend = Z.of_nat (length pre) - 1 ->
  while_loop (length pre) (fun s => dr_pend s >=? 0) drain_step
    {| dr_out := pre ++ D; dr_pend := pend; dr_x := x; dr_log := log |} =
  {| dr_out := to_digits (length pre) x ++ D; dr_pend := -1;
     dr_x := x / 10 ^ Z.of_nat (length pre);
     dr_log := zrange (Z.of_nat (length pre)) ++ log |}.
Proof.
  revert D x log pend. induction pre as [|c pre IH] using rev_ind;
    intros D x log pend Hp.
  - simpl in *. subst pend. now rewrite Z.div_1_r.
  - rewrite length_app in *. cbn [length] in *. rewrite Nat.add_1_r in *.
    cbn [while_loop dr_pend]. destruct (pend >=? 0) eqn:E; [|lia].
    unfold drain_step at 2. cbn [dr_out dr_pend dr_x dr_log].
    rewrite <- app_assoc. rewrite wr_app_r by lia.
    replace (pend - Z.of_nat (length pre)) with 0 by lia.
    cbn [app]. rewrite wr_cons_0. rewrite IH by lia.
    cbn [to_digits]. rewrite <- app_assoc. cbn [app].
    rewrite zrange_S, <- app_assoc. cbn [app].
    unfold BASE. replace pend with (Z.of_nat (length pre)) by lia.
    f_equal. rewrite Z.div_div by (try lia; apply Z.pow_pos_nonneg; lia).
    f_equal. replace (Z.of_nat (S (length pre))) with (1 + Z.of_nat (length pre)) by lia.
    now rewrite Z.pow_add_r by lia.
Qed.

Lemma drain_spec pre D x log :
  drain 0 {| dr_out := pre ++ D; dr_pend := Z.of_nat (length pre) - 1;
             dr_x := x; dr_log := log |} =
  {| dr_out := to_digits (length pre) x ++ D; dr_pend := -1;
     dr_x := x / 10 ^ Z.of_nat (length pre);
     dr_log := zrange (Z.of_nat (length pre)) ++ log |}.
Proof.
  unfold drain. cbn [dr_pend].
  replace (Z.to_nat (Z.of_nat (length pre) - 1 - 0 + 1)) with (length pre) by lia.
  now apply drain_while_spec.
Qed.

(** ** The fast path *)

Lemma bc_fast_mul_spec junk a e n1 n1len n2 n2len :
  Forall is_digit (n_value n1) -> Forall is_digit (n_value n2) ->
  0 <= n1len <= BC_MUL_UINT_DIGITS a -> 0 <= n2len <= BC_MUL_UINT_DIGITS a ->
  bc_fast_mul junk a e n1 n1len n2 n2len =
  {| n_sign := PLUS; n_len := n1len + n2len; n_scale := 0;
     n_value := to_digits (Z.to_nat (n1len + n2len))
                  (weighted_sum (n_value n1) (n1len - 1) n1len *
                   weighted_sum (n_value n2) (n2len - 1) n2len) |}.
Proof.
  intros HF1 HF2 H1 H2. unfold bc_fast_mul.
  rewrite !bc_partial_convert_to_uint_spec by assumption.
  pose proof (weighted_sum_bound (n_value n1) (n1len - 1) n1len HF1 ltac:(lia)) as Hb1.
  pose proof (weighted_sum_bound (n_value n2) (n2len - 1) n2len HF2 ltac:(lia)) as Hb2.
  pose proof (pow10_DIGITS_small a n1len H1) as Hp1.
  pose proof (pow10_DIGITS_small a n2len H2) as Hp2.
  pose proof (OVERFLOW_sq_max a) as Hsq.
  rewrite uwrap_small by nia.
  unfold bc_new_num_nonzeroed, set_value. cbn [n_sign n_len n_scale n_value].
  f_equal.
  rewrite <- (app_nil_r (fresh junk (n1len + n2len + 0))).
  replace (0 + (n1len + n2len) - 1)
    with (Z.of_nat (length (fresh junk (n1len + n2len + 0))) - 1)
    by (rewrite length_fresh; lia).
  rewrite drain_spec. cbn [dr_out]. rewrite app_nil_r, length_fresh.
  f_equal. f_equal. lia.
Qed.

(** ** [bc_write_bcd_representation] *)

Lemma lor_split k lo hi mlo mhi :
  0 <= k -> 0 <= lo < 2 ^ k -> 0 <= mlo < 2 ^ k ->
  Z.lor (lo + 2 ^ k * hi) (mlo + 2 ^ k * mhi) =
  Z.lor lo mlo + 2 ^ k * Z.lor hi mhi.
Proof.
  intros Hk Hlo Hmlo.
  assert (Hp : 0 < 2 ^ k) by (apply Z.pow_pos_nonneg; lia).
  set (x := lo + 2 ^ k * hi). set (m := mlo + 2 ^ k * mhi).
  assert (Hx1 : x mod 2 ^ k = lo)
    by (symmetry; apply Z.mod_unique with (q := hi); unfold x; lia).
  assert (Hx2 : x / 2 ^ k = hi)
    by (symmetry; apply Z.div_unique with (r := lo); unfold x; lia).
  assert (Hm1 : m mod 2 ^ k = mlo)
    by (symmetry; apply Z.mod_unique with (q := mhi); unfold m; lia).
  assert (Hm2 : m / 2 ^ k = mhi)
    by (symmetry; apply Z.div_unique with (r := mlo); unfold m; lia).
  rewrite (Z.div_mod (Z.lor x m) (2 ^ k)) by lia.
  rewrite <- Z.shiftr_div_pow2, Z.shiftr_lor, !Z.shiftr_div_pow2, Hx2, Hm2 by lia.
  rewrite <- Z.land_ones by lia.
  replace (Z.land (Z.lor x m) (Z.ones k))
    with (Z.lor (Z.land x (Z.ones k)) (Z.land m (Z.ones k))).
  2:{ apply Z.bits_inj'. intros n Hn.
      rewrite !Z.lor_spec, !Z.land_spec, !Z.lor_spec.
      destruct (Z.testbit x n), (Z.testbit m n), (Z.testbit (Z.ones k) n);
        reflexivity. }
  rewrite !Z.land_ones, Hx1, Hm1 by lia. lia.
Qed.

(** The table entry of a two-digit value, expanded to two bytes: the tens
    digit comes first in memory. *)
Lemma bc_expand_lut_checked e :
  forallb
    (fun u => bc_expand_lut (rd (LUT e) u) =?
              match e with
              | LittleEndian => u / 10 + 256 * (u mod 10)
              | BigEndian => u mod 10 + 256 * (u / 10)
              end)
    (zrange 100) = true.
Proof. destruct e; vm_compute; reflexivity. Qed.

Lemma bc_expand_lut_spec e u :
  0 <= u < 100 ->
  bc_expand_lut (rd (LUT e) u) =
  match e with
  | LittleEndian => u / 10 + 256 * (u mod 10)
  | BigEndian => u mod 10 + 256 * (u / 10)
  end.
Proof.
  intros Hu. pose proof (bc_expand_lut_checked e) as H.
  rewrite forallb_forall in H. specialize (H u (proj2 (in_zrange 100 u) Hu)).
  now apply Z.eqb_eq in H.
Qed.

Lemma to_digits_4 v :
  0 <= v < 10000 ->
  to_digits 4 v = [v / 1000; v / 100 mod 10; v / 10 mod 10; v mod 10].
Proof.
  intros Hv. cbn [to_digits app].
  replace (v / 10 / 10 / 10 mod 10) with (v / 1000) by dlia.
  replace (v / 10 / 10 mod 10) with (v / 100 mod 10) by dlia.
  reflexivity.
Qed.

Lemma bcd_bytes_spec e v : 0 <= v < 10000 -> bcd_bytes e v = to_digits 4 v.
Proof.
  intros Hv. rewrite to_digits_4 by assumption. unfold bcd_bytes.
  rewrite !bc_expand_lut_spec by dlia.
  set (u1 := v / 100 / 10). set (u0 := (v / 100) mod 10).
  set (l1 := (v mod 100) / 10). set (l0 := (v mod 100) mod 10).
  assert (Hu1 : 0 <= u1 < 10) by (unfold u1; dlia).
  assert (Hu0 : 0 <= u0 < 10) by (unfold u0; dlia).
  assert (Hl1 : 0 <= l1 < 10) by (unfold l1; dlia).
  assert (Hl0 : 0 <= l0 < 10) by (unfold l0; dlia).
  replace (v / 1000) with u1 by (unfold u1; dlia).
  replace (v / 100 mod 10) with u0 by reflexivity.
  replace (v / 10 mod 10) with l1 by (unfold l1; dlia).
  replace (v mod 10) with l0 by (unfold l0; dlia).
  clearbody u1 u0 l1 l0. clear Hv v.
  assert (Hlor : forall X Y, 0 <= Y < 65536 ->
            Z.lor (Z.shiftl X 16) Y = Y + 65536 * X).
  { intros X Y HY. rewrite Z.shiftl_mul_pow2 by lia.
    replace (X * 2 ^ 16) with (0 + 2 ^ 16 * X) by lia.
    replace Y with (Y + 2 ^ 16 * 0) at 1 by lia.
    rewrite (lor_split 16) by (change (2 ^ 16) with 65536; lia).
    rewrite Z.lor_0_l, Z.lor_0_r. reflexivity. }
  destruct e; cbn [store]; rewrite Hlor by lia;
    rewrite wrap_small by (change (2 ^ 32) with 4294967296; lia).
  - replace (u1 + 256 * u0 + 65536 * (l1 + 256 * l0))
      with (le_combine [u1; u0; l1; l0]) by (cbn [le_combine]; lia).
    change 4%nat with (length [u1; u0; l1; l0]).
    apply le_split_combine. repeat constructor; lia.
  - replace (l0 + 256 * l1 + 65536 * (u0 + 256 * u1))
      with (le_combine [l0; l1; u0; u1]) by (cbn [le_combine]; lia).
    change 4%nat with (length [l0; l1; u0; u1]).
    rewrite le_split_combine by (repeat constructor; lia). reflexivity.
Qed.

Lemma length_bcd_bytes e v : length (bcd_bytes e v) = 4%nat.
Proof. unfold bcd_bytes. destruct e; reflexivity. Qed.

(** Writing at [str] where [str + 4] is the end of the part [pre] of the
    buffer not yet written. *)
Lemma bc_write_bcd_representation_spec e v pre D str :
  0 <= v < 10000 -> 0 <= str -> Z.of_nat (length pre) = str + 4 ->
  bc_write_bcd_representation e v (pre ++ D) str =
  firstn (Z.to_nat str) pre ++ to_digits 4 v ++ D.
Proof.
  intros Hv Hs HL. unfold bc_write_bcd_representation.
  rewrite <- (firstn_skipn (Z.to_nat str) pre) at 1. rewrite <- app_assoc.
  rewrite write_bytes_spec.
  - now rewrite bcd_bytes_spec.
  - rewrite length_skipn, length_bcd_bytes. lia.
  - rewrite length_firstn. lia.
Qed.

(** ** The accumulator *)

Lemma slots_ok_nonneg a l : slots_ok a l -> Forall (fun x => 0 <= x) l.
Proof. apply Forall_impl. intros x H. lia. Qed.

Lemma slots_ok_rd a l i : slots_ok a l -> 0 <= rd l i <= BC_UINT_MAX a.
Proof.
  intros H. pose proof (uwrap_range a 0) as H0.
  destruct (Z_lt_dec i 0) as [Hn|Hn].
  - unfold rd. destruct (i <? 0) eqn:E; lia.
  - destruct (Z_lt_dec i (Z.of_nat (length l))) as [Hi|Hi].
    + apply (Forall_rd _ l i H). lia.
    + rewrite rd_outside; lia.
Qed.

Lemma firstn_succ_rd l i :
  0 <= i < Z.of_nat (length l) ->
  firstn (Z.to_nat (i + 1)) l = firstn (Z.to_nat i) l ++ [rd l i].
Proof.
  intros H. rewrite <- (firstn_wr_snoc l i (rd l i)) by assumption.
  f_equal. apply list_eq_rd.
  - now rewrite length_wr.
  - intros j Hj. destruct (Z.eq_dec i j) as [->|Hne].
    + now rewrite rd_wr_same.
    + now rewrite rd_wr_other.
Qed.

Lemma limbs_value_firstn_succ a l i :
  0 <= i < Z.of_nat (length l) ->
  limbs_value a (firstn (Z.to_nat (i + 1)) l) =
  limbs_value a (firstn (Z.to_nat i) l) + BC_MUL_UINT_OVERFLOW a ^ i * rd l i.
Proof.
  intros H. rewrite firstn_succ_rd, limbs_value_snoc by assumption.
  rewrite length_firstn, Nat.min_l by lia. now rewrite Z2Nat.id by lia.
Qed.

Lemma limbs_value_firstn_le a l i :
  Forall (fun x => 0 <= x) l ->
  limbs_value a (firstn i l) <= limbs_value a l.
Proof.
  intros HF. rewrite <- (firstn_skipn i l) at 2. rewrite limbs_value_app.
  rewrite <- (firstn_skipn i l) in HF. apply Forall_app in HF as [_ HF].
  pose proof (limbs_value_nonneg a (skipn i l) HF) as Hs.
  pose proof (OVERFLOW_pos a) as HB.
  assert (0 <= BC_MUL_UINT_OVERFLOW a ^ Z.of_nat (length (firstn i l)))
    by (apply Z.pow_nonneg; lia).
  nia.
Qed.

(** The last slot holds what the lower slots leave of the value. *)
Lemma limbs_value_last a l n :
  Z.of_nat (length l) = n -> 0 < n ->
  (forall j, 0 <= j < n - 1 -> 0 <= rd l j < BC_MUL_UINT_OVERFLOW a) ->
  rd l (n - 1) = limbs_value a l / BC_MUL_UINT_OVERFLOW a ^ (n - 1).
Proof.
  intros HL Hn Hlow. pose proof (OVERFLOW_pos a) as HB.
  assert (Hp : 0 < BC_MUL_UINT_OVERFLOW a ^ (n - 1))
    by (apply Z.pow_pos_nonneg; lia).
  assert (E : l = firstn (Z.to_nat (n - 1)) l ++ [rd l (n - 1)]).
  { rewrite <- firstn_succ_rd by lia. symmetry. apply firstn_all2. lia. }
  assert (HFl : Forall (limb_ok a) (firstn (Z.to_nat (n - 1)) l)).
  { apply Forall_forall. intros x Hx.
    apply In_nth with (d := 0) in Hx. destruct Hx as (k & Hk & <-).
    rewrite length_firstn in Hk. rewrite nth_firstn.
    assert (Hk' : (k <? Z.to_nat (n - 1))%nat = true) by (apply Nat.ltb_lt; lia).
    rewrite Hk'. specialize (Hlow (Z.of_nat k) ltac:(lia)).
    unfold rd in Hlow. destruct (Z.of_nat k <? 0) eqn:E'; [lia|].
    now rewrite Nat2Z.id in Hlow. }
  pose proof (limbs_value_bound a _ HFl) as Hb.
  rewrite length_firstn, Nat.min_l, Z2Nat.id in Hb by lia.
  rewrite E at 2. rewrite limbs_value_snoc.
  rewrite length_firstn, Nat.min_l, Z2Nat.id by lia.
  apply Z.div_unique with (r := limbs_value a (firstn (Z.to_nat (n - 1)) l)); lia.
Qed.

Lemma exceeds_false a x : exceeds a x = false -> x <= BC_UINT_MAX a.
Proof. unfold exceeds. intros H. apply Z.ltb_ge in H. exact H. Qed.

Lemma exceeds_small a x : x <= BC_UINT_MAX a -> exceeds a x = false.
Proof. unfold exceeds. intros H. now apply Z.ltb_ge. Qed.

(** ** [bc_digits_adjustment] *)

Section Adjustment.
Variable a : arch.
Variable s : acc_state.
Variable n : Z.
Hypothesis Hlen : Z.of_nat (length (acc_prod s)) = n.
Hypothesis Hn : 1 <= n.
Hypothesis Hslots : slots_ok a (acc_prod s).

Let B := BC_MUL_UINT_OVERFLOW a.

(** What every prefix of the pass establishes.  [M] bounds the slots
    below the last one, and the value is small enough for the last. *)
Let adjust_inv (M : Z) (i : Z) (t : acc_state) : Prop :=
  length (acc_prod t) = length (acc_prod s) /\
  slots_ok a (acc_prod t) /\
  (forall j, i < j -> rd (acc_prod t) j = rd (acc_prod s) j) /\
  (acc_ovf t = false ->
     acc_ovf s = false /\
     limbs_value a (acc_prod t) = limbs_value a (acc_prod s) /\
     forall j, 0 <= j < i -> 0 <= rd (acc_prod t) j < B) /\
  (acc_ovf s = false ->
   (forall j, 0 <= j < n - 1 -> rd (acc_prod s) j <= M) ->
   M + BC_UINT_MAX a / B <= BC_UINT_MAX a ->
   limbs_value a (acc_prod s) < B ^ (n - 1) * (BC_UINT_MAX a + 1) ->
   acc_ovf t = false).

Lemma bc_digits_adjustment_inv M :
  adjust_inv M (n - 1) (bc_digits_adjustment a s n).
Proof.
  unfold bc_digits_adjustment. apply for_loop_inv; [lia| |].
  - unfold adjust_inv. repeat split; auto; intros; lia.
  - intros i t Hi (HL & HS & Hun & Hc & Hb).
    pose proof (OVERFLOW_pos a) as HB. fold B in HB.
    pose proof (OVERFLOW_sq_max a) as Hsq. fold B in Hsq.
    set (p := acc_prod t) in *.
    pose proof (slots_ok_rd a p i HS) as Hri.
    pose proof (slots_ok_rd a p (i + 1) HS) as Hri1.
    assert (Hq : 0 <= rd p i / B) by (apply Z.div_pos; lia).
    assert (Hm : 0 <= rd p i mod B < B) by (apply Z.mod_pos_bound; lia).
    assert (Hi1 : 0 <= i + 1 < Z.of_nat (length p)) by lia.
    assert (Hi0 : 0 <= i < Z.of_nat (length p)) by lia.
    unfold acc_add. cbn [acc_prod acc_ovf]. fold p. fold B.
    rewrite (rd_wr_other _ (i + 1) i) by lia.
    set (sum := rd p (i + 1) + rd p i / B).
    (* the pass on unbounded integers *)
    assert (Hideal : limbs_value a (wr (wr p (i + 1) sum) i (rd p i mod B)) =
                     limbs_value a p).
    { rewrite !limbs_value_wr by (rewrite ?length_wr; lia).
      rewrite (rd_wr_other _ (i + 1) i) by lia. fold B. unfold sum.
      rewrite Z.pow_add_r by lia. rewrite Z.pow_1_r.
      pose proof (Z.div_mod (rd p i) B ltac:(lia)). nia. }
    unfold adjust_inv. cbn [acc_prod acc_ovf]. repeat split.
    + now rewrite !length_wr.
    + apply Forall_wr; [apply Forall_wr; [assumption|apply uwrap_range]|].
      unfold BC_UINT_MAX in *. nia.
    + intros j Hj. rewrite !rd_wr_other by lia. apply Hun. lia.
    + apply orb_false_elim in H as [H _]. now apply Hc.
    + apply orb_false_elim in H as [H Hex]. apply exceeds_false in Hex.
      destruct (Hc H) as (_ & Hv & _).
      rewrite uwrap_small by (fold sum in Hex; unfold sum; lia).
      fold sum. now rewrite Hideal.
    + destruct (Z.eq_dec j i) as [->|Hne].
      * rewrite rd_wr_same by (rewrite length_wr; lia). lia.
      * rewrite !rd_wr_other by lia.
        apply orb_false_elim in H as [H _]. destruct (Hc H) as (_ & _ & Hlow).
        apply Hlow. lia.
    + destruct (Z.eq_dec j i) as [->|Hne].
      * rewrite rd_wr_same by (rewrite length_wr; lia). lia.
      * rewrite !rd_wr_other by lia.
        apply orb_false_elim in H as [H _]. destruct (Hc H) as (_ & _ & Hlow).
        apply Hlow. lia.
    + intros Hs0 HM HMmax Hval. specialize (Hb Hs0 HM HMmax Hval).
      rewrite Hb. cbn [orb]. apply exceeds_small. fold sum.
      destruct (Hc Hb) as (_ & Hv & _).
      destruct (Z.eq_dec (i + 1) (n - 1)) as [Elast|Elast].
      * (* the last slot: bounded through the value *)
        assert (Hnn : Forall (fun x => 0 <= x)
                        (wr (wr p (i + 1) sum) i (rd p i mod B))).
        { apply Forall_wr; [apply Forall_wr|]; try (unfold sum; lia).
          apply (slots_ok_nonneg a). assumption. }
        pose proof (limbs_value_slot a _ (n - 1) Hnn
                      ltac:(rewrite !length_wr; lia)) as Hslot.
        rewrite Hideal, Hv in Hslot.
        rewrite rd_wr_other, <- Elast, rd_wr_same in Hslot by lia.
        fold B in Hslot. rewrite Elast in Hslot.
        assert (0 < B ^ (n - 1)) by (apply Z.pow_pos_nonneg; lia).
        nia.
      * unfold sum. rewrite Hun by lia.
        specialize (HM (i + 1) ltac:(lia)).
        assert (rd p i / B <= BC_UINT_MAX a / B)
          by (apply Z.div_le_mono; lia).
        lia.
Qed.
End Adjustment.

Lemma bc_digits_adjustment_spec a s n :
  Z.of_nat (length (acc_prod s)) = n -> 1 <= n -> slots_ok a (acc_prod s) ->
  acc_ovf (bc_digits_adjustment a s n) = false ->
  acc_ovf s = false /\
  length (acc_prod (bc_digits_adjustment a s n)) = length (acc_prod s) /\
  slots_ok a (acc_prod (bc_digits_adjustment a s n)) /\
  (forall j, 0 <= j < n - 1 ->
     0 <= rd (acc_prod (bc_digits_adjustment a s n)) j < BC_MUL_UINT_OVERFLOW a) /\
  limbs_value a (acc_prod (bc_digits_adjustment a s n)) =
  limbs_value a (acc_prod s).
Proof.
  intros HL Hn HS Hov.
  destruct (bc_digits_adjustment_inv a s n HL Hn HS 0) as (H1 & H2 & _ & H4 & _).
  destruct (H4 Hov) as (H5 & H6 & H7). auto.
Qed.

Lemma bc_digits_adjustment_no_overflow a s n M :
  Z.of_nat (length (acc_prod s)) = n -> 1 <= n -> slots_ok a (acc_prod s) ->
  acc_ovf s = false ->
  (forall j, 0 <= j < n - 1 -> rd (acc_prod s) j <= M) ->
  M + BC_UINT_MAX a / BC_MUL_UINT_OVERFLOW a <= BC_UINT_MAX a ->
  limbs_value a (acc_prod s) <
    BC_MUL_UINT_OVERFLOW a ^ (n - 1) * (BC_UINT_MAX a + 1) ->
  acc_ovf (bc_digits_adjustment a s n) = false.
Proof.
  intros HL Hn HS Hov HM HMmax Hval.
  destruct (bc_digits_adjustment_inv a s n HL Hn HS M) as (_ & _ & _ & _ & H5).
  now apply H5.
Qed.

(** ** The multiply-and-add loops *)

Lemma slot_bound_max a :
  slot_bound a (BC_MUL_MAX_ADD_COUNT a) +
  BC_UINT_MAX a / BC_MUL_UINT_OVERFLOW a <= BC_UINT_MAX a.
Proof. destruct a; vm_compute; discriminate. Qed.

Lemma MAX_ADD_COUNT_pos a : 1 <= BC_MUL_MAX_ADD_COUNT a.
Proof. destruct a; vm_compute; discriminate. Qed.

Lemma slot_bound_mono a c d : c <= d -> slot_bound a c <= slot_bound a d.
Proof.
  intros H. unfold slot_bound. pose proof (OVERFLOW_pos a).
  apply Z.add_le_mono_l. apply Z.mul_le_mono_nonneg_r; [|assumption].
  apply Z.mul_nonneg_nonneg; lia.
Qed.

Lemma slot_bound_succ a c :
  slot_bound a (c + 1) =
  slot_bound a c +
  (BC_MUL_UINT_OVERFLOW a - 1) * (BC_MUL_UINT_OVERFLOW a - 1).
Proof. unfold slot_bound. lia. Qed.

Lemma UINT_MAX_div_nonneg a : 0 <= BC_UINT_MAX a / BC_MUL_UINT_OVERFLOW a.
Proof. destruct a; vm_compute; discriminate. Qed.

Section MulAdd.
Variable a : arch.
Variables n1_uint n2_uint : list Z.
Variables la lb p : Z.
Hypothesis Hla : Z.of_nat (length n1_uint) = la.
Hypothesis Hlb : Z.of_nat (length n2_uint) = lb.
Hypothesis Hp : p = la + lb - 1.
Hypothesis Hp1 : 1 <= p.
Hypothesis Hn1 : Forall (limb_ok a) n1_uint.
Hypothesis Hn2 : Forall (limb_ok a) n2_uint.

Let B := BC_MUL_UINT_OVERFLOW a.
Let V1 (i : Z) := limbs_value a (firstn (Z.to_nat i) n1_uint).
Let V2 (j : Z) := limbs_value a (firstn (Z.to_nat j) n2_uint).

Local Lemma HB : 1 < B.
Proof. apply OVERFLOW_pos. Qed.

Local Lemma limb_nonneg l : Forall (limb_ok a) l -> Forall (fun x => 0 <= x) l.
Proof. apply Forall_impl. unfold limb_ok. intros x H. lia. Qed.

Local Lemma V1_bound i : 0 <= i <= la -> 0 <= V1 i < B ^ i.
Proof.
  intros Hi. unfold V1.
  assert (HF : Forall (limb_ok a) (firstn (Z.to_nat i) n1_uint)).
  { rewrite <- (firstn_skipn (Z.to_nat i) n1_uint) in Hn1.
    now apply Forall_app in Hn1 as [H _]. }
  pose proof (limbs_value_bound a _ HF) as H.
  rewrite length_firstn, Nat.min_l, Z2Nat.id in H by lia. exact H.
Qed.

Local Lemma V2_bound j : 0 <= j <= lb -> 0 <= V2 j < B ^ j.
Proof.
  intros Hj. unfold V2.
  assert (HF : Forall (limb_ok a) (firstn (Z.to_nat j) n2_uint)).
  { rewrite <- (firstn_skipn (Z.to_nat j) n2_uint) in Hn2.
    now apply Forall_app in Hn2 as [H _]. }
  pose proof (limbs_value_bound a _ HF) as H.
  rewrite length_firstn, Nat.min_l, Z2Nat.id in H by lia. exact H.
Qed.

Local Lemma V1_succ i :
  0 <= i < la -> V1 (i + 1) = V1 i + B ^ i * rd n1_uint i.
Proof. intros Hi. unfold V1. apply limbs_value_firstn_succ. lia. Qed.

Local Lemma V2_succ j :
  0 <= j < lb -> V2 (j + 1) = V2 j + B ^ j * rd n2_uint j.
Proof. intros Hj. unfold V2. apply limbs_value_firstn_succ. lia. Qed.

Local Lemma V2_le j : V2 j <= V2 lb.
Proof.
  unfold V2. rewrite (firstn_all2 (n := Z.to_nat lb)) by lia.
  apply limbs_value_firstn_le. now apply limb_nonneg.
Qed.

Local Lemma rd_limb1 i : 0 <= rd n1_uint i < B.
Proof.
  destruct (Z_lt_dec i 0) as [Hn|Hn].
  - unfold rd. destruct (i <? 0) eqn:E; [|lia]. pose proof HB. lia.
  - destruct (Z_lt_dec i la) as [Hi|Hi].
    + apply (Forall_rd _ n1_uint i Hn1). lia.
    + rewrite rd_outside by lia. pose proof HB. lia.
Qed.

Local Lemma rd_limb2 j : 0 <= rd n2_uint j < B.
Proof.
  destruct (Z_lt_dec j 0) as [Hn|Hn].
  - unfold rd. destruct (j <? 0) eqn:E; [|lia]. pose proof HB. lia.
  - destruct (Z_lt_dec j lb) as [Hj|Hj].
    + apply (Forall_rd _ n2_uint j Hn2). lia.
    + rewrite rd_outside by lia. pose proof HB. lia.
Qed.

(** A slot that weighs [B ^ (p - 1)] in a value below [B ^ (p + 1)] fits
    the native type. *)
Local Lemma last_slot_fits x v :
  0 <= x -> x * B ^ (p - 1) <= v -> v < B ^ (p + 1) -> x <= BC_UINT_MAX a.
Proof.
  intros Hx Hle Hv. pose proof HB as HB'.
  pose proof (OVERFLOW_sq_max a) as Hsq. fold B in Hsq.
  replace (p + 1) with ((p - 1) + 2) in Hv by lia.
  rewrite Z.pow_add_r in Hv by lia.
  assert (0 < B ^ (p - 1)) by (apply Z.pow_pos_nonneg; lia).
  replace (B ^ 2) with (B * B) in Hv by lia. nia.
Qed.

(** Between two additions of row [i]: the slots [i .. i + j - 1] have
    received their product, the others not yet. *)
Let inner_inv (i c : Z) (j : Z) (acc : acc_state) : Prop :=
  acc_ovf acc = false /\
  Z.of_nat (length (acc_prod acc)) = p /\
  slots_ok a (acc_prod acc) /\
  (forall k, 0 <= k < p - 1 ->
     rd (acc_prod acc) k <=
     slot_bound a c + (if (i <=? k) && (k <? i + j)
                       then (B - 1) * (B - 1) else 0)) /\
  limbs_value a (acc_prod acc) = V1 i * V2 lb + rd n1_uint i * B ^ i * V2 j.

Local Lemma inner_loop_inv i c acc :
  0 <= i < la -> 0 <= c < BC_MUL_MAX_ADD_COUNT a ->
  inner_inv i c 0 acc ->
  inner_inv i c lb
    (for_loop lb
       (fun acc j => acc_mul_add a acc (i + j) (rd n1_uint i) (rd n2_uint j))
       acc).
Proof.
  intros Hi Hc H0. apply for_loop_inv; [lia|assumption|].
  clear acc H0. intros j acc Hj (Hov & HL & HS & Hbd & Hv).
  pose proof HB as HB'. pose proof (rd_limb1 i) as Hx.
  pose proof (rd_limb2 j) as Hy.
  pose proof (OVERFLOW_sq_max a) as Hsq. fold B in Hsq.
  set (x := rd n1_uint i) in *. set (y := rd n2_uint j) in *.
  assert (Hxy : 0 <= x * y <= (B - 1) * (B - 1)) by nia.
  assert (Hxy' : x * y <= BC_UINT_MAX a) by nia.
  set (k := i + j).
  assert (Hk : 0 <= k < Z.of_nat (length (acc_prod acc))) by (unfold k; lia).
  pose proof (slots_ok_rd a (acc_prod acc) k HS) as Hrk.
  set (sum := rd (acc_prod acc) k + x * y).
  (* the value after the addition on unbounded integers *)
  assert (Hideal : limbs_value a (wr (acc_prod acc) k sum) =
                   V1 i * V2 lb + x * B ^ i * V2 (j + 1)).
  { rewrite limbs_value_wr by assumption. rewrite Hv, V2_succ by lia.
    fold B y. unfold sum, k. rewrite Z.pow_add_r by lia. lia. }
  assert (Hfit : sum <= BC_UINT_MAX a).
  { destruct (Z.eq_dec k (p - 1)) as [E|E].
    - apply (last_slot_fits sum (limbs_value a (wr (acc_prod acc) k sum))).
      + unfold sum. lia.
      + pose proof (limbs_value_slot a (wr (acc_prod acc) k sum) k) as Hs.
        rewrite rd_wr_same, length_wr in Hs by assumption. rewrite <- E.
        apply Hs; [|assumption].
        apply Forall_wr; [now apply (slots_ok_nonneg a)|unfold sum; lia].
      + rewrite Hideal.
        pose proof (V1_bound i ltac:(lia)) as Hb1.
        pose proof (V2_bound lb ltac:(lia)) as Hb2.
        pose proof (V2_bound (j + 1) ltac:(lia)) as Hb3.
        pose proof (V2_le (j + 1)) as Hle.
        replace (p + 1) with (i + 1 + lb) by lia.
        rewrite !Z.pow_add_r by lia. rewrite Z.pow_1_r.
        assert (0 < B ^ i) by (apply Z.pow_pos_nonneg; lia).
        assert (0 < B ^ lb) by (apply Z.pow_pos_nonneg; lia).
        assert (Ht : 0 <= x * B ^ i <= (B - 1) * B ^ i) by nia.
        set (t := x * B ^ i) in *.
        assert (V1 i * V2 lb + t * V2 (j + 1) <= (V1 i + t) * V2 lb) by nia.
        assert (V1 i + t + 1 <= B ^ i * B) by nia.
        assert ((V1 i + t) * V2 lb < (B ^ i * B) * B ^ lb) by nia.
        lia.
    - specialize (Hbd k ltac:(lia)).
      replace ((i <=? k) && (k <? i + j)) with false in Hbd
        by (symmetry; apply andb_false_iff; right; apply Z.ltb_ge; unfold k; lia).
      pose proof (slot_bound_mono a (c + 1) (BC_MUL_MAX_ADD_COUNT a) ltac:(lia))
        as Hm1.
      pose proof (slot_bound_max a). pose proof (UINT_MAX_div_nonneg a).
      rewrite slot_bound_succ in Hm1. fold B in Hm1. unfold sum. lia. }
  unfold acc_mul_add, acc_add. cbn [acc_prod acc_ovf]. fold x y k.
  rewrite (uwrap_small a (x * y)) by lia. fold sum.
  rewrite uwrap_small by (unfold sum; lia).
  unfold inner_inv. cbn [acc_prod acc_ovf]. repeat split.
  - rewrite Hov, !exceeds_small by assumption. reflexivity.
  - now rewrite length_wr.
  - apply Forall_wr; [assumption|]. unfold sum. lia.
  - intros k' Hk'. destruct (Z.eq_dec k k') as [<-|Hne].
    + rewrite rd_wr_same by assumption.
      specialize (Hbd k Hk').
      replace ((i <=? k) && (k <? i + j)) with false in Hbd
        by (symmetry; apply andb_false_iff; right; apply Z.ltb_ge; unfold k; lia).
      replace ((i <=? k) && (k <? i + (j + 1))) with true
        by (symmetry; apply andb_true_iff; split;
            [apply Z.leb_le|apply Z.ltb_lt]; unfold k; lia).
      unfold sum. lia.
    + rewrite rd_wr_other by assumption. specialize (Hbd k' Hk').
      replace ((i <=? k') && (k' <? i + (j + 1)))
        with ((i <=? k') && (k' <? i + j)); [assumption|].
      f_equal. unfold k in Hne.
      destruct (k' <? i + j) eqn:E1; destruct (k' <? i + (j + 1)) eqn:E2;
        try reflexivity; lia.
  - exact Hideal.
Qed.

(** Between two rows. *)
Let outer_inv (i : Z) (s : mul_state) : Prop :=
  acc_ovf (ml_acc s) = false /\
  Z.of_nat (length (acc_prod (ml_acc s))) = p /\
  slots_ok a (acc_prod (ml_acc s)) /\
  0 <= ml_count s <= BC_MUL_MAX_ADD_COUNT a /\
  (forall k, 0 <= k < p - 1 ->
     rd (acc_prod (ml_acc s)) k <= slot_bound a (ml_count s)) /\
  limbs_value a (acc_prod (ml_acc s)) = V1 i * V2 lb.

Local Lemma value_fits i :
  0 <= i <= la -> V1 i * V2 lb < B ^ (p - 1) * (BC_UINT_MAX a + 1).
Proof.
  intros Hi. pose proof HB as HB'.
  pose proof (OVERFLOW_sq_max a) as Hsq. fold B in Hsq.
  pose proof (V1_bound i Hi) as Hb1. pose proof (V2_bound lb ltac:(lia)) as Hb2.
  assert (Hle : B ^ i <= B ^ la) by (apply Z.pow_le_mono_r; lia).
  assert (E : B ^ la * B ^ lb = B ^ (p - 1) * (B * B)).
  { rewrite <- Z.pow_add_r by lia. replace (la + lb) with ((p - 1) + 2) by lia.
    rewrite Z.pow_add_r by lia. f_equal. lia. }
  assert (0 < B ^ (p - 1)) by (apply Z.pow_pos_nonneg; lia).
  assert (0 < B ^ lb) by (apply Z.pow_pos_nonneg; lia).
  assert (V1 i * V2 lb < B ^ la * B ^ lb) by nia.
  nia.
Qed.

Lemma mul_add_loops_inv s :
  outer_inv 0 s ->
  outer_inv la (mul_add_loops a n1_uint n2_uint la lb p s).
Proof.
  intros H0. unfold mul_add_loops. apply for_loop_inv; [lia|assumption|].
  clear s H0. intros i s Hi (Hov & HL & HS & Hc & Hbd & Hv).
  pose proof HB as HB'.
  (* the state after the conditional adjustment *)
  set (s1 := if ml_count s >=? BC_MUL_MAX_ADD_COUNT a
             then {| ml_acc := bc_digits_adjustment a (ml_acc s) p;
                     ml_count := 0 |}
             else s).
  assert (H1 : acc_ovf (ml_acc s1) = false /\
               Z.of_nat (length (acc_prod (ml_acc s1))) = p /\
               slots_ok a (acc_prod (ml_acc s1)) /\
               0 <= ml_count s1 < BC_MUL_MAX_ADD_COUNT a /\
               (forall k, 0 <= k < p - 1 ->
                  rd (acc_prod (ml_acc s1)) k <= slot_bound a (ml_count s1)) /\
               limbs_value a (acc_prod (ml_acc s1)) = V1 i * V2 lb).
  { unfold s1. destruct (ml_count s >=? BC_MUL_MAX_ADD_COUNT a) eqn:E.
    - cbn [ml_acc ml_count].
      assert (Hno : acc_ovf (bc_digits_adjustment a (ml_acc s) p) = false).
      { apply bc_digits_adjustment_no_overflow
          with (M := slot_bound a (BC_MUL_MAX_ADD_COUNT a)); try assumption.
        - intros j Hj. specialize (Hbd j Hj).
          pose proof (slot_bound_mono a (ml_count s) (BC_MUL_MAX_ADD_COUNT a)
                        ltac:(lia)). lia.
        - apply slot_bound_max.
        - rewrite Hv. apply value_fits. lia. }
      destruct (bc_digits_adjustment_spec a (ml_acc s) p HL Hp1 HS Hno)
        as (_ & HL' & HS' & Hlow & Hv').
      pose proof (MAX_ADD_COUNT_pos a).
      repeat split; try assumption; try lia.
      intros k Hk. specialize (Hlow k Hk). unfold slot_bound.
      fold B in Hlow |- *. lia.
    - repeat split; try assumption; lia. }
  clearbody s1. destruct H1 as (Hov1 & HL1 & HS1 & Hc1 & Hbd1 & Hv1).
  assert (Hin : inner_inv i (ml_count s1) 0 (ml_acc s1)).
  { unfold inner_inv. repeat split; try assumption.
    - intros k Hk. specialize (Hbd1 k Hk).
      replace ((i <=? k) && (k <? i + 0)) with false; [lia|].
      symmetry. apply andb_false_iff.
      destruct (i <=? k) eqn:E1; [right|now left].
      apply Z.leb_le in E1. apply Z.ltb_ge. lia.
    - rewrite Hv1. unfold V2 at 3. change (Z.to_nat 0) with O.
      cbn [firstn limbs_value]. lia. }
  pose proof (inner_loop_inv i (ml_count s1) (ml_acc s1) ltac:(lia) Hc1 Hin)
    as (Hov2 & HL2 & HS2 & Hbd2 & Hv2).
  unfold outer_inv. cbn [ml_acc ml_count]. repeat split; try assumption; try lia.
  - intros k Hk. specialize (Hbd2 k Hk). rewrite slot_bound_succ. fold B.
    destruct ((i <=? k) && (k <? i + lb)); nia.
  - rewrite Hv2, V1_succ by lia. lia.
Qed.

(** The whole accumulation: the rows, then the final adjustment. *)
Lemma mul_add_adjust_spec s :
  acc_ovf (ml_acc s) = false ->
  Z.of_nat (length (acc_prod (ml_acc s))) = p ->
  (forall k, 0 <= k < p -> rd (acc_prod (ml_acc s)) k = 0) ->
  ml_count s = 0 ->
  let acc := bc_digits_adjustment a
               (ml_acc (mul_add_loops a n1_uint n2_uint la lb p s)) p in
  acc_ovf (ml_acc (mul_add_loops a n1_uint n2_uint la lb p s)) = false /\
  acc_ovf acc = false /\
  Z.of_nat (length (acc_prod acc)) = p /\
  slots_ok a (acc_prod acc) /\
  (forall j, 0 <= j < p - 1 -> 0 <= rd (acc_prod acc) j < B) /\
  limbs_value a (acc_prod acc) = limbs_value a n1_uint * limbs_value a n2_uint.
Proof.
  intros Hov HL Hz Hc. cbv zeta. pose proof HB as HB'.
  assert (Hall : Forall (fun x => x = 0) (acc_prod (ml_acc s))).
  { apply Forall_forall. intros x Hx.
    apply In_nth with (d := 0) in Hx. destruct Hx as (k & Hk & <-).
    specialize (Hz (Z.of_nat k) ltac:(lia)). unfold rd in Hz.
    destruct (Z.of_nat k <? 0) eqn:E; [lia|]. now rewrite Nat2Z.id in Hz. }
  assert (H0 : outer_inv 0 s).
  { unfold outer_inv. pose proof (MAX_ADD_COUNT_pos a).
    pose proof (uwrap_range a 0) as Hmax.
    repeat split; try assumption; try lia.
    - revert Hall. apply Forall_impl. intros x ->. lia.
    - intros k Hk. rewrite Hz by lia. rewrite Hc. unfold slot_bound. fold B. lia.
    - unfold V1. change (Z.to_nat 0) with O. cbn [firstn limbs_value].
      clear -Hall. induction Hall as [|x l Hx Hl IH]; [reflexivity|].
      cbn [limbs_value]. rewrite IH. lia. }
  destruct (mul_add_loops_inv s H0) as (Hov' & HL' & HS' & Hc' & Hbd' & Hv').
  set (s' := mul_add_loops a n1_uint n2_uint la lb p s) in *.
  assert (Hno : acc_ovf (bc_digits_adjustment a (ml_acc s') p) = false).
  { apply bc_digits_adjustment_no_overflow
      with (M := slot_bound a (BC_MUL_MAX_ADD_COUNT a)); try assumption.
    - intros j Hj. specialize (Hbd' j Hj).
      pose proof (slot_bound_mono a (ml_count s') (BC_MUL_MAX_ADD_COUNT a)
                    ltac:(lia)). lia.
    - apply slot_bound_max.
    - rewrite Hv'. apply value_fits. lia. }
  destruct (bc_digits_adjustment_spec a (ml_acc s') p HL' Hp1 HS' Hno)
    as (_ & HL'' & HS'' & Hlow & Hv'').
  repeat split; try assumption; try lia.
  - apply Hlow. assumption.
  - apply Hlow. assumption.
  - rewrite Hv'', Hv'. unfold V1, V2.
    now rewrite !firstn_all2 by lia.
Qed.
End MulAdd.

(** ** The accumulation phase of [bc_standard_mul] *)

Lemma zero_loop_spec prod n :
  Z.of_nat (length prod) = n ->
  let r := for_loop n (fun p i => wr p i 0) prod in
  length r = length prod /\ forall k, 0 <= k < n -> rd r k = 0.
Proof.
  intros HL. cbv zeta.
  apply (for_loop_inv
           (fun i r => length r = length prod /\
                       forall k, 0 <= k < i -> rd r k = 0)); [lia| |].
  - split; [reflexivity|]. intros k Hk. lia.
  - intros i r Hi (HLr & Hz). split; [now rewrite length_wr|].
    intros k Hk. destruct (Z.eq_dec i k) as [<-|Hne].
    + apply rd_wr_same. lia.
    + rewrite rd_wr_other by assumption. apply Hz. lia.
Qed.

Lemma bc_standard_mul_acc_spec junk a e n1 n1len n2 n2len :
  Forall is_digit (n_value n1) -> Forall is_digit (n_value n2) ->
  0 <= n1len -> 0 <= n2len ->
  1 <= arr_size a n1len + arr_size a n2len - 1 ->
  let p := arr_size a n1len + arr_size a n2len - 1 in
  let acc := bc_standard_mul_acc junk a e n1 n1len n2 n2len in
  acc_ovf acc = false /\
  Z.of_nat (length (acc_prod acc)) = p /\
  slots_ok a (acc_prod acc) /\
  (forall j, 0 <= j < p - 1 ->
     0 <= rd (acc_prod acc) j < BC_MUL_UINT_OVERFLOW a) /\
  limbs_value a (acc_prod acc) =
  weighted_sum (n_value n1) (n1len - 1) n1len *
  weighted_sum (n_value n2) (n2len - 1) n2len.
Proof.
  intros HF1 HF2 H1 H2 Hp. cbv zeta. unfold bc_standard_mul_acc.
  fold (arr_size a n1len). fold (arr_size a n2len).
  set (a1 := arr_size a n1len) in *. set (a2 := arr_size a n2len) in *.
  pose proof (arr_size_nonneg a n1len H1) as Ha1. fold a1 in Ha1.
  pose proof (arr_size_nonneg a n2len H2) as Ha2. fold a2 in Ha2.
  set (buf := fresh junk (a1 + a2 + (a1 + a2 - 1))).
  assert (Hbuf : length buf = Z.to_nat (a1 + a2 + (a1 + a2 - 1)))
    by apply length_fresh.
  set (u1 := firstn (Z.to_nat a1) buf).
  set (u2 := firstn (Z.to_nat a2) (skipn (Z.to_nat a1) buf)).
  set (p0 := skipn (Z.to_nat (a1 + a2)) buf).
  assert (Hu1 : Z.of_nat (length u1) = a1)
    by (unfold u1; rewrite length_firstn; lia).
  assert (Hu2 : Z.of_nat (length u2) = a2)
    by (unfold u2; rewrite length_firstn, length_skipn; lia).
  assert (Hp0 : Z.of_nat (length p0) = a1 + a2 - 1)
    by (unfold p0; rewrite length_skipn; lia).
  destruct (zero_loop_spec p0 (a1 + a2 - 1) Hp0) as (HLz & Hz).
  destruct (bc_convert_to_uint_spec a e u1 (n_value n1) n1len HF1 H1 Hu1)
    as (HL1 & Hok1 & Hv1).
  destruct (bc_convert_to_uint_spec a e u2 (n_value n2) n2len HF2 H2 Hu2)
    as (HL2 & Hok2 & Hv2).
  match goal with |- context [mul_add_loops a ?x ?y a1 a2 (a1 + a2 - 1) ?s] =>
    destruct (mul_add_adjust_spec a x y a1 a2 (a1 + a2 - 1)
                ltac:(lia) ltac:(lia) eq_refl Hp Hok1 Hok2 s)
      as (_ & G1 & G2 & G3 & G4 & G5)
  end; cbn [ml_acc ml_count acc_prod acc_ovf]; try reflexivity; try lia.
  - assumption.
  - repeat split; try assumption; try apply G4; try assumption.
    rewrite <- Hv1, <- Hv2. exact G5.
Qed.

(** ** The conversion of the accumulator to digits *)

Lemma zrange_from_0 n : zrange_from 0 n = zrange n.
Proof.
  unfold zrange_from. rewrite <- (map_id (zrange n)) at 2.
  apply map_ext. intros k. lia.
Qed.

Lemma zrange_from_succ lo n :
  0 <= n -> zrange_from lo (n + 1) = zrange_from lo n ++ [lo + n].
Proof.
  intros H. unfold zrange_from. rewrite zrange_succ by assumption.
  now rewrite map_app.
Qed.

Lemma zrange_from_app lo m n :
  0 <= m -> 0 <= n ->
  zrange_from lo (m + n) = zrange_from lo m ++ zrange_from (lo + m) n.
Proof.
  intros Hm Hn. revert n Hn. apply natlike_ind.
  - rewrite Z.add_0_r. unfold zrange_from at 3. cbn. now rewrite app_nil_r.
  - intros n Hn IH. unfold Z.succ. rewrite Z.add_assoc.
    rewrite !zrange_from_succ by lia. rewrite IH, <- app_assoc.
    do 3 f_equal. lia.
Qed.

(** One more limb in front of the digits of the lower limbs. *)
Lemma to_digits_limb a i low x :
  0 <= i -> 0 <= low < BC_MUL_UINT_OVERFLOW a ^ i ->
  to_digits (Z.to_nat (BC_MUL_UINT_DIGITS a))  x ++
  to_digits (Z.to_nat (BC_MUL_UINT_DIGITS a * i)) low =
  to_digits (Z.to_nat (BC_MUL_UINT_DIGITS a * (i + 1)))
    (low + BC_MUL_UINT_OVERFLOW a ^ i * x).
Proof.
  intros Hi Hlow. pose proof (DIGITS_pos a) as HW.
  set (W := BC_MUL_UINT_DIGITS a) in *.
  assert (E : BC_MUL_UINT_OVERFLOW a ^ i = 10 ^ Z.of_nat (Z.to_nat (W * i))).
  { rewrite OVERFLOW_pow. fold W. rewrite <- Z.pow_mul_r by lia.
    now rewrite Z2Nat.id by lia. }
  rewrite E in *.
  replace (Z.to_nat (W * (i + 1))) with (Z.to_nat W + Z.to_nat (W * i))%nat by lia.
  rewrite to_digits_app. f_equal.
  - f_equal. apply Z.div_unique with (r := low); lia.
  - rewrite <- (to_digits_mod _ (low + _)). f_equal.
    apply Z.mod_unique with (q := x); lia.
Qed.

Lemma Permutation_rev_map (f : Z -> Z) l :
  Permutation (rev (map f l)) (map f l).
Proof. apply Permutation_sym, Permutation_rev. Qed.

Section Emission.
Variable a : arch.
Variable e : endian.
Variable prod : list Z.
Variables p prodlen : Z.
Hypothesis HL : Z.of_nat (length prod) = p.
Hypothesis Hp : 1 <= p.
Hypothesis Hlow :
  forall j, 0 <= j < p - 1 -> 0 <= rd prod j < BC_MUL_UINT_OVERFLOW a.
Hypothesis Hfit : BC_MUL_UINT_DIGITS a * (p - 1) <= prodlen.

Let W := BC_MUL_UINT_DIGITS a.
Let low (i : Z) := limbs_value a (firstn (Z.to_nat i) prod).

Local Lemma low_bound i :
  0 <= i <= p - 1 -> 0 <= low i < BC_MUL_UINT_OVERFLOW a ^ i.
Proof.
  intros Hi. unfold low.
  assert (HF : Forall (limb_ok a) (firstn (Z.to_nat i) prod)).
  { apply Forall_forall. intros x Hx.
    apply In_nth with (d := 0) in Hx. destruct Hx as (k & Hk & <-).
    rewrite length_firstn in Hk. rewrite nth_firstn.
    assert (Hk' : (k <? Z.to_nat i)%nat = true) by (apply Nat.ltb_lt; lia).
    rewrite Hk'. specialize (Hlow (Z.of_nat k) ltac:(lia)).
    unfold rd in Hlow. destruct (Z.of_nat k <? 0) eqn:E'; [lia|].
    now rewrite Nat2Z.id in Hlow. }
  pose proof (limbs_value_bound a _ HF) as H.
  rewrite length_firstn, Nat.min_l, Z2Nat.id in H by lia. exact H.
Qed.

(** Between two limbs: the digits of the limbs below [em_i] are in
    place behind [em_pend], and exactly their offsets were stored to. *)
Let emit_inv (s : emit_state) : Prop :=
  0 <= em_i s <= p - 1 /\
  em_prod s = prod /\
  em_pend s = prodlen - 1 - W * em_i s /\
  (exists pre,
     em_out s = pre ++ to_digits (Z.to_nat (W * em_i s)) (low (em_i s)) /\
     Z.of_nat (length pre) = em_pend s + 1) /\
  Permutation (em_log s) (zrange_from (em_pend s + 1) (W * em_i s)).

Local Lemma emit_limb_inv s :
  emit_inv s -> em_i s < p - 1 -> emit_inv (emit_limb a e s).
Proof.
  intros (Hi & Hprod & Hpend & (pre & Hout & Hpre) & Hlog) Hlt.
  pose proof (DIGITS_pos a) as HW. fold W in HW.
  pose proof (Hlow (em_i s) ltac:(lia)) as Hx. rewrite <- Hprod in Hx.
  set (x := rd (em_prod s) (em_i s)) in *.
  pose proof (low_bound (em_i s) ltac:(lia)) as Hlb.
  assert (Hroom : W <= em_pend s + 1) by nia.
  assert (Hdig : to_digits (Z.to_nat W) x ++
                 to_digits (Z.to_nat (W * em_i s)) (low (em_i s)) =
                 to_digits (Z.to_nat (W * (em_i s + 1))) (low (em_i s + 1))).
  { unfold W. rewrite (to_digits_limb a) by (assumption || lia).
    f_equal. unfold low. rewrite limbs_value_firstn_succ by lia.
    unfold x. now rewrite Hprod. }
  unfold emit_inv.
  destruct a; cbn [emit_limb em_i em_prod em_pend em_out em_log];
    cbn [BC_MUL_UINT_DIGITS BC_MUL_UINT_OVERFLOW] in *; subst W; cbv beta in *.
  - (* four digits per limb *)
    repeat split; try lia; try assumption.
    + exists (firstn (Z.to_nat (em_pend s - 3)) pre). split.
      * fold x. rewrite Hout, bc_write_bcd_representation_spec by lia.
        now rewrite <- Hdig.
      * rewrite length_firstn. lia.
    + replace (em_pend s - 4 + 1) with (em_pend s - 3) by lia.
      replace (4 * (em_i s + 1)) with (4 + 4 * em_i s) by lia.
      rewrite zrange_from_app by lia. apply Permutation_app.
      * apply Permutation_rev_map.
      * now replace (em_pend s - 3 + 4) with (em_pend s + 1) by lia.
  - (* eight digits per limb, written as two groups of four *)
    fold x.
    rewrite !wrap_small by (change (2 ^ 32) with 4294967296; dlia).
    repeat split; try lia; try assumption.
    + exists (firstn (Z.to_nat (em_pend s - 7)) pre). split.
      * rewrite Hout.
        rewrite <- (firstn_skipn (Z.to_nat (em_pend s - 3)) pre) at 1.
        rewrite <- app_assoc.
        rewrite bc_write_bcd_representation_spec
          by (try dlia; rewrite length_firstn; lia).
        rewrite firstn_firstn.
        replace (Init.Nat.min (Z.to_nat (em_pend s - 7)) (Z.to_nat (em_pend s - 3)))
          with (Z.to_nat (em_pend s - 7)) by lia.
        rewrite !app_assoc.
        rewrite <- (app_assoc (firstn _ pre)).
        rewrite bc_write_bcd_representation_spec.
        -- rewrite (app_assoc (firstn _ pre) (to_digits 4 _) (skipn _ pre)).
           rewrite firstn_app.
           rewrite firstn_all2
             by (rewrite length_app, length_firstn, length_to_digits; lia).
           replace (Z.to_nat (em_pend s - 3) -
                    length (firstn (Z.to_nat (em_pend s - 7)) pre ++
                            to_digits 4 (x / 10000)))%nat with O
             by (rewrite length_app, length_firstn, length_to_digits; lia).
           cbn [firstn]. rewrite app_nil_r, <- !app_assoc.
           f_equal. rewrite <- Hdig.
           change (Z.to_nat 8) with (4 + 4)%nat.
           rewrite to_digits_app. change (10 ^ Z.of_nat 4) with 10000.
           rewrite <- (to_digits_mod 4 x). change (10 ^ Z.of_nat 4) with 10000.
           now rewrite <- !app_assoc.
        -- dlia.
        -- lia.
        -- rewrite !length_app, length_firstn, length_to_digits, length_skipn.
           lia.
      * rewrite length_firstn. lia.
    + replace (em_pend s - 8 + 1) with (em_pend s - 7) by lia.
      replace (8 * (em_i s + 1)) with (4 + (4 + 8 * em_i s)) by lia.
      rewrite !zrange_from_app by lia.
      rewrite !app_assoc.
      apply Permutation_app.
      * rewrite Permutation_app_comm. apply Permutation_app.
        -- apply Permutation_rev_map.
        -- replace (em_pend s - 7 + 4) with (em_pend s - 3) by lia.
           apply Permutation_rev_map.
      * now replace (em_pend s - 7 + 4 + 4) with (em_pend s + 1) by lia.
Qed.

Lemma bc_standard_mul_emit_spec junk :
  let s := bc_standard_mul_emit junk a e prod p prodlen in
  em_out s = to_digits (Z.to_nat prodlen) (limbs_value a prod) /\
  Permutation (em_log s) (zrange prodlen) /\
  em_pend s = -1 /\
  em_i s = p - 1 /\
  em_prod s = wr prod (p - 1) (rd prod (p - 1) / 10 ^ (prodlen - W * (p - 1))).
Proof.
  cbv zeta. unfold bc_standard_mul_emit.
  pose proof (DIGITS_pos a) as HW. fold W in HW.
  assert (Hlen0 : 0 <= prodlen) by (unfold W in *; nia).
  match goal with |- context [while_loop ?f ?c ?b ?s0] =>
    destruct (while_loop_inv emit_inv (fun s => p - 1 - em_i s) c b)
      with (fuel := f) (s := s0) as [HP Hc];
      [ | | | | set (fin := while_loop f c b s0) in * ]
  end.
  - intros s Hs Hc. apply Z.ltb_lt in Hc. split.
    + now apply emit_limb_inv.
    + destruct a; cbn [emit_limb em_i]; lia.
  - intros s Hs Hc. apply Z.ltb_lt in Hc. lia.
  - unfold emit_inv. cbn [em_i em_prod em_pend em_out em_log].
    unfold bc_new_num_nonzeroed. cbn [n_value].
    rewrite Z.mul_0_r. repeat split; try lia.
    + exists (fresh junk (prodlen + 0)). split.
      * change (Z.to_nat 0) with O. cbn [to_digits]. now rewrite app_nil_r.
      * rewrite length_fresh. lia.
    + constructor.
  - cbn [em_i]. lia.
  - cbv beta in Hc. apply Z.ltb_ge in Hc.
    destruct HP as (Hi & Hprod & Hpend & (pre & Hout & Hpre) & Hlog).
    assert (Ei : em_i fin = p - 1) by lia.
    rewrite Hout. replace (em_pend fin) with (Z.of_nat (length pre) - 1) by lia.
    rewrite drain_spec. cbn [em_out em_log em_pend em_i em_prod dr_out dr_log dr_pend dr_x].
    rewrite Hprod, Ei in *.
    pose proof (low_bound (p - 1) ltac:(lia)) as Hlb.
    assert (Epow : BC_MUL_UINT_OVERFLOW a ^ (p - 1) =
                   10 ^ Z.of_nat (Z.to_nat (W * (p - 1)))).
    { rewrite OVERFLOW_pow. fold W. rewrite <- Z.pow_mul_r by lia.
      now rewrite Z2Nat.id by lia. }
    assert (Eval : limbs_value a prod =
                   low (p - 1) + BC_MUL_UINT_OVERFLOW a ^ (p - 1) * rd prod (p - 1)).
    { unfold low. rewrite <- limbs_value_firstn_succ by lia.
      now rewrite firstn_all2 by lia. }
    repeat split.
    + replace (Z.to_nat prodlen)
        with (length pre + Z.to_nat (W * (p - 1)))%nat by lia.
      rewrite to_digits_app. f_equal.
      * f_equal. rewrite Eval, Epow in *.
        apply Z.div_unique with (r := low (p - 1)); lia.
      * rewrite <- (to_digits_mod _ (limbs_value a prod)). f_equal.
        rewrite Eval, Epow in *.
        apply Z.mod_unique with (q := rd prod (p - 1)); lia.
    + assert (Epl : prodlen = Z.of_nat (length pre) + W * (p - 1)) by lia.
      rewrite <- (zrange_from_0 prodlen), Epl.
      rewrite zrange_from_app by lia. rewrite zrange_from_0.
      apply Permutation_app; [reflexivity|].
      now replace (0 + Z.of_nat (length pre)) with (em_pend fin + 1) by lia.
    + do 3 f_equal. lia.
Qed.
End Emission.

(** ** The standard path as a whole *)

Lemma arr_size_fit a n1len n2len :
  0 <= n1len -> 0 <= n2len ->
  BC_MUL_UINT_DIGITS a * (arr_size a n1len + arr_size a n2len - 1 - 1) <=
  n1len + n2len.
Proof. intros H1 H2. unfold arr_size. destruct a; cbn [BC_MUL_UINT_DIGITS]; dlia. Qed.

Lemma arr_size_pos a nlen : 1 <= nlen -> 1 <= arr_size a nlen.
Proof. intros H. unfold arr_size. destruct a; cbn [BC_MUL_UINT_DIGITS]; dlia. Qed.

Lemma arr_size_big a nlen : BC_MUL_UINT_DIGITS a < nlen -> 2 <= arr_size a nlen.
Proof. intros H. unfold arr_size. destruct a; cbn [BC_MUL_UINT_DIGITS] in *; dlia. Qed.

Lemma arr_size_small a nlen :
  1 <= nlen <= BC_MUL_UINT_DIGITS a -> arr_size a nlen = 1.
Proof. intros H. unfold arr_size. destruct a; cbn [BC_MUL_UINT_DIGITS] in *; dlia. Qed.

Lemma bc_standard_mul_state_spec junk a e n1 n1len n2 n2len :
  Forall is_digit (n_value n1) -> Forall is_digit (n_value n2) ->
  0 <= n1len -> 0 <= n2len ->
  1 <= arr_size a n1len + arr_size a n2len - 1 ->
  let p := arr_size a n1len + arr_size a n2len - 1 in
  let x := weighted_sum (n_value n1) (n1len - 1) n1len *
           weighted_sum (n_value n2) (n2len - 1) n2len in
  let s := bc_standard_mul_state junk a e n1 n1len n2 n2len in
  em_out s = to_digits (Z.to_nat (n1len + n2len)) x /\
  Permutation (em_log s) (zrange (n1len + n2len)) /\
  em_pend s = -1 /\ em_i s = p - 1 /\ rd (em_prod s) (p - 1) = 0.
Proof.
  intros HF1 HF2 H1 H2 Hp. cbv zeta. unfold bc_standard_mul_state.
  fold (arr_size a n1len). fold (arr_size a n2len).
  set (p := arr_size a n1len + arr_size a n2len - 1) in *.
  destruct (bc_standard_mul_acc_spec junk a e n1 n1len n2 n2len
              HF1 HF2 H1 H2 Hp) as (_ & HL & HS & Hlow & Hv).
  fold p in HL, Hlow.
  set (acc := bc_standard_mul_acc junk a e n1 n1len n2 n2len) in *.
  pose proof (arr_size_fit a n1len n2len H1 H2) as Hfit. fold p in Hfit.
  destruct (bc_standard_mul_emit_spec a e (acc_prod acc) p (n1len + n2len)
              HL Hp Hlow Hfit junk) as (E1 & E2 & E3 & E4 & E5).
  rewrite E1, E3, E4, E5, Hv. repeat split; try assumption.
  rewrite rd_wr_same by lia.
  (* the last limb is below the power of ten of the digits left *)
  pose proof (OVERFLOW_pos a) as HB. pose proof (DIGITS_pos a) as HW.
  rewrite (limbs_value_last a (acc_prod acc) p HL ltac:(lia) Hlow), Hv.
  pose proof (weighted_sum_bound (n_value n1) (n1len - 1) n1len HF1 H1) as Hb1.
  pose proof (weighted_sum_bound (n_value n2) (n2len - 1) n2len HF2 H2) as Hb2.
  set (x := weighted_sum (n_value n1) (n1len - 1) n1len *
            weighted_sum (n_value n2) (n2len - 1) n2len) in *.
  assert (Hx : 0 <= x < 10 ^ (n1len + n2len)).
  { rewrite Z.pow_add_r by lia. unfold x. nia. }
  rewrite OVERFLOW_pow, <- Z.pow_mul_r by lia.
  set (m := BC_MUL_UINT_DIGITS a * (p - 1)) in *.
  assert (Hm : 0 <= m) by (unfold m; nia).
  rewrite Z.div_div by (try lia; apply Z.pow_pos_nonneg; lia).
  rewrite <- Z.pow_add_r by lia. replace (m + (n1len + n2len - m)) with (n1len + n2len) by lia.
  apply Z.div_small. lia.
Qed.

Lemma bc_standard_mul_spec junk a e n1 n1len n2 n2len :
  Forall is_digit (n_value n1) -> Forall is_digit (n_value n2) ->
  0 <= n1len -> 0 <= n2len ->
  1 <= arr_size a n1len + arr_size a n2len - 1 ->
  bc_standard_mul junk a e n1 n1len n2 n2len =
  {| n_sign := PLUS; n_len := n1len + n2len; n_scale := 0;
     n_value := to_digits (Z.to_nat (n1len + n2len))
                  (weighted_sum (n_value n1) (n1len - 1) n1len *
                   weighted_sum (n_value n2) (n2len - 1) n2len) |}.
Proof.
  intros HF1 HF2 H1 H2 Hp. unfold bc_standard_mul.
  destruct (bc_standard_mul_state_spec junk a e n1 n1len n2 n2len
              HF1 HF2 H1 H2 Hp) as (E & _).
  now rewrite E.
Qed.

(** ** The multiply routine *)

Lemma wf_num_int n :
  wf_num n ->
  weighted_sum (n_value n) (n_len n + n_scale n - 1) (n_len n + n_scale n) =
  num_int n.
Proof.
  intros (H1 & H2 & HL & HF). unfold num_int, num_digits.
  apply weighted_sum_firstn. lia.
Qed.

Lemma num_int_bound n :
  wf_num n -> 0 <= num_int n < 10 ^ (n_len n + n_scale n).
Proof.
  intros Hwf. rewrite <- (wf_num_int n Hwf).
  destruct Hwf as (H1 & H2 & HL & HF). apply weighted_sum_bound; [assumption|lia].
Qed.

(** Both paths deliver the digits of the product of the two digit
    sequences read as integers. *)
Lemma raw_product junk a e n1 n2 :
  wf_num n1 -> wf_num n2 ->
  let len1 := n_len n1 + n_scale n1 in
  let len2 := n_len n2 + n_scale n2 in
  (if (len1 <=? BC_MUL_UINT_DIGITS a) && (len2 <=? BC_MUL_UINT_DIGITS a)
   then bc_fast_mul junk a e n1 len1 n2 len2
   else bc_standard_mul junk a e n1 len1 n2 len2) =
  {| n_sign := PLUS; n_len := len1 + len2; n_scale := 0;
     n_value := to_digits (Z.to_nat (len1 + len2)) (num_int n1 * num_int n2) |}.
Proof.
  intros Hwf1 Hwf2. cbv zeta.
  rewrite <- (wf_num_int n1 Hwf1), <- (wf_num_int n2 Hwf2).
  destruct Hwf1 as (H1 & H2 & HL1 & HF1). destruct Hwf2 as (H3 & H4 & HL2 & HF2).
  destruct ((n_len n1 + n_scale n1 <=? BC_MUL_UINT_DIGITS a) &&
            (n_len n2 + n_scale n2 <=? BC_MUL_UINT_DIGITS a)) eqn:E.
  - apply andb_true_iff in E as [E1 E2]. apply Z.leb_le in E1, E2.
    apply bc_fast_mul_spec; (assumption || lia).
  - apply bc_standard_mul_spec; try (assumption || lia).
    pose proof (arr_size_nonneg a (n_len n1 + n_scale n1) ltac:(lia)).
    pose proof (arr_size_nonneg a (n_len n2 + n_scale n2) ltac:(lia)).
    apply andb_false_iff in E as [E|E]; apply Z.leb_gt in E;
      apply arr_size_big in E; lia.
Qed.

Lemma digits_value_zero_cons l : digits_value (0 :: l) = digits_value l.
Proof. rewrite digits_value_cons. lia. Qed.

Lemma rm_leading_zeros_value v0 l0 sc :
  0 <= sc ->
  digits_value (firstn (Z.to_nat (snd (rm_leading_zeros v0 l0) + sc))
                  (fst (rm_leading_zeros v0 l0))) =
  digits_value (firstn (Z.to_nat (l0 + sc)) v0).
Proof.
  intros Hsc. revert l0. induction v0 as [|d t IH]; intros l0; [reflexivity|].
  cbn [rm_leading_zeros].
  destruct ((d =? 0) && (l0 >? 1)) eqn:E; [|reflexivity].
  apply andb_true_iff in E as [Ed El]. apply Z.eqb_eq in Ed. subst d.
  rewrite IH.
  replace (Z.to_nat (l0 + sc)) with (S (Z.to_nat (l0 - 1 + sc))) by lia.
  cbn [firstn]. now rewrite digits_value_zero_cons.
Qed.

Lemma rm_leading_zeros_digits v0 l0 :
  Forall is_digit v0 -> Forall is_digit (fst (rm_leading_zeros v0 l0)).
Proof.
  intros HF. revert l0. induction HF as [|d t Hd Ht IH]; intros l0; [constructor|].
  cbn [rm_leading_zeros]. destruct ((d =? 0) && (l0 >? 1)); [apply IH|].
  now constructor.
Qed.

(** The result of [bc_multiply], field by field. *)
Lemma bc_multiply_spec junk a e n1 n2 scale :
  wf_num n1 -> wf_num n2 -> 0 <= scale ->
  let r := bc_multiply junk a e n1 n2 scale in
  let full_scale := n_scale n1 + n_scale n2 in
  let raw := to_digits (Z.to_nat (n_len n1 + n_scale n1 + (n_len n2 + n_scale n2)))
               (num_int n1 * num_int n2) in
  n_scale r = Z.min full_scale (Z.max scale (Z.max (n_scale n1) (n_scale n2))) /\
  n_value r = fst (rm_leading_zeros raw (n_len n1 + n_len n2)) /\
  n_len r = snd (rm_leading_zeros raw (n_len n1 + n_len n2)) /\
  num_int r = num_int n1 * num_int n2 / 10 ^ (full_scale - n_scale r) /\
  n_sign r = (if num_int r =? 0 then PLUS
              else if sign_eqb (n_sign n1) (n_sign n2) then PLUS else MINUS).
Proof.
  intros Hwf1 Hwf2 Hs. cbv zeta. unfold bc_multiply.
  rewrite (raw_product junk a e n1 n2 Hwf1 Hwf2). cbv zeta. cbn [n_len n_value].
  rewrite !MIN_spec, !MAX_spec.
  set (ps := Z.min (n_scale n1 + n_scale n2)
               (Z.max scale (Z.max (n_scale n1) (n_scale n2)))).
  set (L := n_len n1 + n_scale n1 + (n_len n2 + n_scale n2)).
  set (X := num_int n1 * num_int n2).
  replace (L - (n_scale n1 + n_scale n2)) with (n_len n1 + n_len n2) by (unfold L; lia).
  unfold _bc_rm_leading_zeros. cbn [n_len n_value n_sign n_scale].
  pose proof (rm_leading_zeros_value (to_digits (Z.to_nat L) X)
                (n_len n1 + n_len n2) ps) as Hval.
  pose proof (rm_leading_zeros_digits (to_digits (Z.to_nat L) X)
                (n_len n1 + n_len n2) (to_digits_digit _ _)) as Hdig.
  destruct (rm_leading_zeros (to_digits (Z.to_nat L) X) (n_len n1 + n_len n2))
    as [v l] eqn:Erm.
  cbn [fst snd] in Hval, Hdig.
  pose proof (num_int_bound n1 Hwf1) as Hb1.
  pose proof (num_int_bound n2 Hwf2) as Hb2.
  destruct Hwf1 as (H1 & H2 & HL1 & HF1). destruct Hwf2 as (H3 & H4 & HL2 & HF2).
  assert (Hps : 0 <= ps <= n_scale n1 + n_scale n2) by (unfold ps; lia).
  set (k := n_scale n1 + n_scale n2 - ps) in *.
  (* the value of the digits that the result keeps *)
  assert (Hnum : digits_value (firstn (Z.to_nat (l + ps)) v) = X / 10 ^ k).
  { rewrite Hval by lia.
    replace (Z.to_nat L) with (Z.to_nat (n_len n1 + n_len n2 + ps) + Z.to_nat k)%nat
      by (unfold L, k; lia).
    rewrite firstn_to_digits, digits_value_to_digits.
    rewrite !Z2Nat.id by (unfold k; lia).
    apply Z.mod_small.
    assert (HX : 0 <= X < 10 ^ L).
    { unfold L. rewrite Z.pow_add_r by lia. unfold X. nia. }
    assert (0 < 10 ^ k) by (apply Z.pow_pos_nonneg; unfold k; lia).
    split; [apply Z.div_pos; lia|].
    apply Z.div_lt_upper_bound; [lia|].
    rewrite <- Z.pow_add_r by (unfold k; lia).
    replace (k + (n_len n1 + n_len n2 + ps)) with L by (unfold L, k; lia). lia. }
  assert (Hz : bc_is_zero {| n_sign := if sign_eqb (n_sign n1) (n_sign n2)
                                        then PLUS else MINUS;
                             n_len := l; n_scale := ps; n_value := v |} =
               (X / 10 ^ k =? 0)).
  { unfold bc_is_zero. cbn [n_len n_scale n_value].
    assert (HFf : Forall is_digit (firstn (Z.to_nat (l + ps)) v)).
    { rewrite <- (firstn_skipn (Z.to_nat (l + ps)) v) in Hdig.
      now apply Forall_app in Hdig as [Hd _]. }
    pose proof (digits_value_zero _ HFf) as Hiff. rewrite Hnum in Hiff.
    destruct (X / 10 ^ k =? 0) eqn:E.
    - apply Hiff. now apply Z.eqb_eq.
    - apply Z.eqb_neq in E.
      destruct (forallb (fun d => d =? 0) (firstn (Z.to_nat (l + ps)) v)) eqn:E';
        [|reflexivity].
      exfalso. apply E. now apply Hiff. }
  rewrite Hz.
  destruct (X / 10 ^ k =? 0) eqn:E; unfold num_int, num_digits;
    cbn [n_len n_scale n_value n_sign]; rewrite Hnum, E; repeat split.
Qed.

(** ** Exactness *)

Lemma Qtrunc_frac q x y :
  0 < y -> (q == inject_Z x / inject_Z y)%Q -> Qtrunc q = Z.quot x y.
Proof.
  intros Hy E. destruct q as [n d]. destruct y as [|py|py]; try lia.
  unfold Qtrunc, Qeq, Qdiv, Qmult, Qinv, inject_Z in *. cbn in E. cbn [Qnum Qden].
  rewrite Z.mul_1_r in E.
  rewrite <- (Z.quot_mul_cancel_r n (Z.pos d) (Z.pos py)) by lia.
  rewrite E. rewrite (Z.mul_comm (Z.pos d) (Z.pos py)).
  apply Z.quot_mul_cancel_r; lia.
Qed.

Lemma inject_Z_pow10_nonzero s : 0 <= s -> ~ (inject_Z (10 ^ s) == 0)%Q.
Proof.
  intros Hs. unfold Qeq, inject_Z. cbn [Qnum Qden]. rewrite Z.mul_1_r. simpl.
  assert (0 < 10 ^ s) by (apply Z.pow_pos_nonneg; lia). lia.
Qed.

(** The exact product of two decimal fractions, scaled to [sr] places. *)
Lemma scaled_product x1 x2 s1 s2 sr :
  0 <= s1 -> 0 <= s2 -> 0 <= sr <= s1 + s2 ->
  (inject_Z x1 / inject_Z (10 ^ s1) * (inject_Z x2 / inject_Z (10 ^ s2)) *
   inject_Z (10 ^ sr) ==
   inject_Z (x1 * x2) / inject_Z (10 ^ (s1 + s2 - sr)))%Q.
Proof.
  intros H1 H2 Hr.
  pose proof (inject_Z_pow10_nonzero s1 H1) as N1.
  pose proof (inject_Z_pow10_nonzero s2 H2) as N2.
  pose proof (inject_Z_pow10_nonzero sr ltac:(lia)) as Nr.
  pose proof (inject_Z_pow10_nonzero (s1 + s2 - sr) ltac:(lia)) as Nk.
  assert (E : (inject_Z (10 ^ s1) * inject_Z (10 ^ s2) ==
               inject_Z (10 ^ (s1 + s2 - sr)) * inject_Z (10 ^ sr))%Q).
  { rewrite <- !inject_Z_mult, <- !Z.pow_add_r by lia.
    now replace (s1 + s2 - sr + sr) with (s1 + s2) by lia. }
  rewrite inject_Z_mult.
  set (A := inject_Z (10 ^ s1)) in *. set (B := inject_Z (10 ^ s2)) in *.
  set (R := inject_Z (10 ^ sr)) in *. set (K := inject_Z (10 ^ (s1 + s2 - sr))) in *.
  assert (EK : (K == A * B / R)%Q) by (rewrite E; field; assumption).
  rewrite EK. field. repeat split; assumption.
Qed.

Lemma num_signed_product junk a e n1 n2 scale :
  wf_num n1 -> wf_num n2 -> 0 <= scale ->
  let r := bc_multiply junk a e n1 n2 scale in
  num_signed r =
  Z.quot (num_signed n1 * num_signed n2)
         (10 ^ (n_scale n1 + n_scale n2 - n_scale r)).
Proof.
  intros Hwf1 Hwf2 Hs. cbv zeta.
  destruct (bc_multiply_spec junk a e n1 n2 scale Hwf1 Hwf2 Hs)
    as (Hsc & _ & _ & Hnum & Hsign).
  pose proof (num_int_bound n1 Hwf1) as Hb1.
  pose proof (num_int_bound n2 Hwf2) as Hb2.
  destruct Hwf1 as (_ & Hs1 & _). destruct Hwf2 as (_ & Hs2 & _).
  set (r := bc_multiply junk a e n1 n2 scale) in *.
  set (k := n_scale n1 + n_scale n2 - n_scale r) in *.
  assert (Hk : 0 <= k) by (unfold k; lia).
  assert (Hp : 0 < 10 ^ k) by (apply Z.pow_pos_nonneg; lia).
  assert (HX : 0 <= num_int n1 * num_int n2) by nia.
  assert (Hq : Z.quot (num_int n1 * num_int n2) (10 ^ k) = num_int r)
    by (rewrite Z.quot_div_nonneg by lia; now rewrite Hnum).
  assert (Hqn : Z.quot (- (num_int n1 * num_int n2)) (10 ^ k) = - num_int r)
    by (rewrite Z.quot_opp_l by lia; now rewrite Hq).
  unfold num_signed at 1. rewrite Hsign.
  unfold num_signed.
  destruct (num_int r =? 0) eqn:Ez.
  - apply Z.eqb_eq in Ez.
    destruct (n_sign n1), (n_sign n2);
      rewrite ?Z.mul_opp_opp, ?Z.mul_opp_l, ?Z.mul_opp_r, ?Hq, ?Hqn; lia.
  - destruct (n_sign n1), (n_sign n2); cbn [sign_eqb];
      rewrite ?Z.mul_opp_opp, ?Z.mul_opp_l, ?Z.mul_opp_r, ?Hq, ?Hqn; lia.
Qed.

Lemma rm_leading_zeros_length v0 l0 :
  Z.of_nat (length (fst (rm_leading_zeros v0 l0))) -
  snd (rm_leading_zeros v0 l0) = Z.of_nat (length v0) - l0 /\
  snd (rm_leading_zeros v0 l0) <= l0.
Proof.
  revert l0. induction v0 as [|d t IH]; intros l0; cbn [rm_leading_zeros].
  - cbn [fst snd]. lia.
  - destruct ((d =? 0) && (l0 >? 1)).
    + specialize (IH (l0 - 1)). cbn [length]. lia.
    + cbn [fst snd]. lia.
Qed.

Lemma rm_leading_zeros_nonneg v l :
  0 <= l -> 0 <= snd (rm_leading_zeros v l).
Proof.
  revert l. induction v as [|d t IH]; intros l Hl; cbn [rm_leading_zeros].
  - cbn [snd]. lia.
  - destruct ((d =? 0) && (l >? 1)) eqn:E; [|cbn [snd]; lia].
    apply andb_true_iff in E as [_ E]. apply IH. lia.
Qed.

(** ** Digits of a limb array *)

Lemma rd_to_digits n x j :
  0 <= j < Z.of_nat n ->
  rd (to_digits n x) (Z.of_nat n - 1 - j) = (x / 10 ^ j) mod 10.
Proof.
  revert x j. induction n as [|n IH]; intros x j Hj; [lia|].
  cbn [to_digits]. destruct (Z.eq_dec j 0) as [->|Hne].
  - rewrite rd_app_r by (rewrite length_to_digits; lia).
    rewrite length_to_digits.
    replace (Z.of_nat (S n) - 1 - 0 - Z.of_nat n) with 0 by lia.
    rewrite rd_cons_0. now rewrite Z.div_1_r.
  - rewrite rd_app_l by (rewrite length_to_digits; lia).
    replace (Z.of_nat (S n) - 1 - j) with (Z.of_nat n - 1 - (j - 1)) by lia.
    rewrite IH by lia.
    rewrite Z.div_div by (try lia; apply Z.pow_pos_nonneg; lia).
    replace (10 * 10 ^ (j - 1)) with (10 ^ j); [reflexivity|].
    replace j with (1 + (j - 1)) at 1 by lia. now rewrite Z.pow_add_r by lia.
Qed.

(** The decimal digit of weight [10 ^ (W * i + k)] of the value of a limb
    array is digit [k] of limb [i]. *)
Lemma limbs_value_digit a l i k :
  0 <= i < Z.of_nat (length l) ->
  (forall j, 0 <= j < Z.of_nat (length l) - 1 ->
     0 <= rd l j < BC_MUL_UINT_OVERFLOW a) ->
  0 <= rd l (Z.of_nat (length l) - 1) ->
  0 <= k -> (i < Z.of_nat (length l) - 1 -> k < BC_MUL_UINT_DIGITS a) ->
  (limbs_value a l / 10 ^ (BC_MUL_UINT_DIGITS a * i + k)) mod 10 =
  (rd l i / 10 ^ k) mod 10.
Proof.
  intros Hi Hlow Hlast Hk Hkw.
  pose proof (OVERFLOW_pos a) as HB. pose proof (DIGITS_pos a) as HW.
  set (B := BC_MUL_UINT_OVERFLOW a) in *. set (W := BC_MUL_UINT_DIGITS a) in *.
  (* the value splits at limb [i] *)
  assert (E : l = firstn (Z.to_nat i) l ++ rd l i :: skipn (Z.to_nat (i + 1)) l).
  { rewrite <- (firstn_skipn (Z.to_nat (i + 1)) l) at 1.
    rewrite firstn_succ_rd by lia. now rewrite <- app_assoc. }
  assert (HFl : Forall (limb_ok a) (firstn (Z.to_nat i) l)).
  { apply Forall_forall. intros x Hx.
    apply In_nth with (d := 0) in Hx. destruct Hx as (m & Hm & <-).
    rewrite length_firstn in Hm. rewrite nth_firstn.
    assert (Hm' : (m <? Z.to_nat i)%nat = true) by (apply Nat.ltb_lt; lia).
    rewrite Hm'. specialize (Hlow (Z.of_nat m) ltac:(lia)).
    unfold rd in Hlow. destruct (Z.of_nat m <? 0) eqn:E'; [lia|].
    now rewrite Nat2Z.id in Hlow. }
  pose proof (limbs_value_bound a _ HFl) as Hb.
  rewrite length_firstn, Nat.min_l, Z2Nat.id in Hb by lia. fold B in Hb.
  set (lo := limbs_value a (firstn (Z.to_nat i) l)) in *.
  set (hi := limbs_value a (skipn (Z.to_nat (i + 1)) l)).
  assert (Ev : limbs_value a l = lo + B ^ i * (rd l i + B * hi)).
  { rewrite E at 1. rewrite limbs_value_app. cbn [limbs_value].
    rewrite length_firstn, Nat.min_l, Z2Nat.id by lia. reflexivity. }
  assert (Hpk : 0 < 10 ^ k) by (apply Z.pow_pos_nonneg; lia).
  assert (Hpi : 0 < B ^ i) by (apply Z.pow_pos_nonneg; lia).
  rewrite Z.pow_add_r by lia.
  replace (10 ^ (W * i)) with (B ^ i)
    by (unfold B; rewrite OVERFLOW_pow; fold W; now rewrite <- Z.pow_mul_r by lia).
  rewrite <- Z.div_div by lia.
  replace (limbs_value a l / B ^ i) with (rd l i + B * hi)
    by (rewrite Ev; apply Z.div_unique with (r := lo); lia).
  destruct (Z_lt_dec i (Z.of_nat (length l) - 1)) as [Hin|Hin].
  - (* a limb below the last: the higher limbs weigh a multiple of ten *)
    specialize (Hkw Hin).
    assert (EB : B = 10 ^ k * (10 * 10 ^ (W - k - 1))).
    { unfold B. rewrite OVERFLOW_pow. fold W.
      replace W with (k + (1 + (W - k - 1))) at 1 by lia.
      rewrite !Z.pow_add_r by lia. reflexivity. }
    rewrite EB. rewrite <- Z.mul_assoc, (Z.mul_comm (10 ^ k)), Z.div_add by lia.
    replace (10 * 10 ^ (W - k - 1) * hi) with (10 ^ (W - k - 1) * hi * 10) by lia.
    now rewrite Z.mod_add by lia.
  - (* the last limb: nothing above it *)
    assert (Ehi : hi = 0).
    { unfold hi. rewrite skipn_all2 by lia. reflexivity. }
    rewrite Ehi, Z.mul_0_r, Z.add_0_r. reflexivity.
Qed.

Ltac prove_digits := repeat constructor; unfold is_digit; lia.
Ltac prove_wf := unfold wf_num; cbn; repeat split; try lia; prove_digits.

(** ** Concrete scenarios *)

Example multiply_123_456 :
  bc_multiply sample_junk Arch64 LittleEndian
    (num_of_Z PLUS 3 0 123) (num_of_Z PLUS 3 0 456) 0 =
  {| n_sign := PLUS; n_len := 5; n_scale := 0; n_value := [5; 6; 0; 8; 8] |}.
Proof. reflexivity. Qed.

Example multiply_01_02 :
  bc_multiply sample_junk Arch32 BigEndian
    (num_of_Z PLUS 2 1 1) (num_of_Z PLUS 2 1 2) 2 =
  {| n_sign := PLUS; n_len := 1; n_scale := 2; n_value := [0; 0; 2] |}.
Proof. reflexivity. Qed.

Example multiply_m7_3 :
  bc_multiply sample_junk Arch32 LittleEndian
    (num_of_Z MINUS 1 0 7) (num_of_Z PLUS 1 0 3) 0 =
  {| n_sign := MINUS; n_len := 2; n_scale := 0; n_value := [2; 1] |}.
Proof. reflexivity. Qed.

Example multiply_0_big :
  bc_multiply sample_junk Arch64 BigEndian
    (num_of_Z MINUS 1 0 0) (num_of_Z PLUS 18 0 999999999999999999) 0 =
  {| n_sign := PLUS; n_len := 1; n_scale := 0; n_value := [0] |}.
Proof. vm_compute. reflexivity. Qed.

(** The history variable of the accumulator reports an addition that
    leaves the native type. *)
Example acc_add_wraps :
  acc_add Arch32 {| acc_prod := [4294967295]; acc_ovf := false |} 0 1 =
  {| acc_prod := [0]; acc_ovf := true |}.
Proof. reflexivity. Qed.

(** 172 nines squared on a 32-bit machine: 43 limbs each, so that slot 42
    receives 43 products of [9999 * 9999], one more than the native type
    holds; the adjustment before the 43rd row keeps it from wrapping. *)
Example multiply_172_nines :
  let n := num_of_Z PLUS 172 0 (10 ^ 172 - 1) in
  BC_UINT_MAX Arch32 < 43 * (9999 * 9999) /\
  acc_ovf (bc_standard_mul_acc sample_junk Arch32 LittleEndian n 172 n 172)
  = false /\
  n_value (bc_standard_mul sample_junk Arch32 LittleEndian n 172 n 172) =
  to_digits 344 ((10 ^ 172 - 1) * (10 ^ 172 - 1)).
Proof. vm_compute. repeat split; reflexivity. Qed.

(** ** The properties of the specification *)

(** C1: for well-formed operands and a non-negative target scale, the
    number returned by [bc_multiply] is the exact product of the operands
    cut toward zero (not rounded) to the result scale
    [min (a.scale + b.scale) (max s (max a.scale b.scale))]; its digits are
    decimal digits, as many as its lengths say. *)
Theorem bc_multiply_exact_truncated junk a e n1 n2 scale :
  wf_num n1 -> wf_num n2 -> 0 <= scale ->
  let r := bc_multiply junk a e n1 n2 scale in
  n_scale r = Z.min (n_scale n1 + n_scale n2)
                (Z.max scale (Z.max (n_scale n1) (n_scale n2))) /\
  (num_value r == truncate_at (n_scale r) (num_value n1 * num_value n2))%Q /\
  Forall is_digit (num_digits r) /\
  Z.of_nat (length (num_digits r)) = n_len r + n_scale r.
Proof.
  intros Hwf1 Hwf2 Hs. cbv zeta.
  pose proof (num_signed_product junk a e n1 n2 scale Hwf1 Hwf2 Hs) as Hsigned.
  destruct (bc_multiply_spec junk a e n1 n2 scale Hwf1 Hwf2 Hs)
    as (Hsc & Hval & Hlen & _ & _).
  cbv zeta in Hsigned.
  set (r := bc_multiply junk a e n1 n2 scale) in *.
  set (raw := to_digits
                (Z.to_nat (n_len n1 + n_scale n1 + (n_len n2 + n_scale n2)))
                (num_int n1 * num_int n2)) in *.
  pose proof (rm_leading_zeros_digits raw (n_len n1 + n_len n2)
                (to_digits_digit _ _)) as Hdig.
  pose proof (rm_leading_zeros_length raw (n_len n1 + n_len n2)) as (Hl1 & Hl2).
  destruct Hwf1 as (Hn1 & Hs1 & _). destruct Hwf2 as (Hn2 & Hs2 & _).
  pose proof (rm_leading_zeros_nonneg raw (n_len n1 + n_len n2) ltac:(lia)) as Hl3.
  rewrite <- Hval in Hdig, Hl1. rewrite <- Hlen in Hl1, Hl2, Hl3.
  unfold raw in Hl1. rewrite length_to_digits in Hl1.
  assert (Hsr : 0 <= n_scale r <= n_scale n1 + n_scale n2) by lia.
  split; [assumption|]. split; [|split].
  - unfold truncate_at, num_value.
    rewrite (Qtrunc_frac _ (num_signed n1 * num_signed n2)
               (10 ^ (n_scale n1 + n_scale n2 - n_scale r))).
    + rewrite <- Hsigned. reflexivity.
    + apply Z.pow_pos_nonneg; lia.
    + apply scaled_product; assumption.
  - unfold num_digits.
    rewrite <- (firstn_skipn (Z.to_nat (n_len r + n_scale r)) (n_value r)) in Hdig.
    now apply Forall_app in Hdig as [Hd _].
  - unfold num_digits. rewrite length_firstn. lia.
Qed.

Lemma bc_multiply_exact_truncated_witness :
  wf_num sample_a /\ wf_num sample_b /\ 0 <= 3 /\
  let r := bc_multiply sample_junk Arch32 BigEndian sample_a sample_b 3 in
  n_scale r = Z.min (n_scale sample_a + n_scale sample_b)
                (Z.max 3 (Z.max (n_scale sample_a) (n_scale sample_b))) /\
  (num_value r ==
   truncate_at (n_scale r) (num_value sample_a * num_value sample_b))%Q /\
  Forall is_digit (num_digits r) /\
  Z.of_nat (length (num_digits r)) = n_len r + n_scale r.
Proof.
  assert (Ha : wf_num sample_a) by prove_wf.
  assert (Hb : wf_num sample_b) by prove_wf.
  assert (Hs : 0 <= 3) by lia.
  exact (conj Ha (conj Hb (conj Hs
    (bc_multiply_exact_truncated sample_junk Arch32 BigEndian sample_a sample_b 3
       Ha Hb Hs)))).
Defined.

(** C2: the scale of the number returned by [bc_multiply] is
    [min (n1.scale + n2.scale) (max target_scale (max n1.scale n2.scale))]. *)
Theorem bc_multiply_scale junk a e n1 n2 scale :
  n_scale (bc_multiply junk a e n1 n2 scale) =
  Z.min (n_scale n1 + n_scale n2)
        (Z.max scale (Z.max (n_scale n1) (n_scale n2))).
Proof.
  unfold bc_multiply. rewrite MIN_spec, !MAX_spec.
  unfold _bc_rm_leading_zeros. cbn [n_value n_len n_scale n_sign].
  match goal with |- context [rm_leading_zeros ?v ?l] =>
    destruct (rm_leading_zeros v l) as [v' l']
  end.
  match goal with |- context [bc_is_zero ?x] => destruct (bc_is_zero x) end;
    reflexivity.
Qed.

(** C3: the sign of the number returned by [bc_multiply] is [PLUS] when
    the returned value is zero; otherwise it is [PLUS] when the operands'
    signs are equal and [MINUS] when they differ. *)
Theorem bc_multiply_sign junk a e n1 n2 scale :
  wf_num n1 -> wf_num n2 -> 0 <= scale ->
  let r := bc_multiply junk a e n1 n2 scale in
  (num_int r = 0 -> n_sign r = PLUS) /\
  (num_int r <> 0 -> n_sign n1 = n_sign n2 -> n_sign r = PLUS) /\
  (num_int r <> 0 -> n_sign n1 <> n_sign n2 -> n_sign r = MINUS).
Proof.
  intros Hwf1 Hwf2 Hs. cbv zeta.
  destruct (bc_multiply_spec junk a e n1 n2 scale Hwf1 Hwf2 Hs)
    as (_ & _ & _ & _ & Hsign).
  rewrite Hsign. repeat split.
  - intros ->. reflexivity.
  - intros Hnz ->. apply Z.eqb_neq in Hnz. rewrite Hnz.
    destruct (n_sign n2); reflexivity.
  - intros Hnz Hne. apply Z.eqb_neq in Hnz. rewrite Hnz.
    destruct (n_sign n1), (n_sign n2); try reflexivity; congruence.
Qed.

Lemma bc_multiply_sign_witness :
  wf_num sample_a /\ wf_num sample_b /\ 0 <= 3 /\
  let r := bc_multiply sample_junk Arch64 LittleEndian sample_a sample_b 3 in
  (num_int r = 0 -> n_sign r = PLUS) /\
  (num_int r <> 0 -> n_sign sample_a = n_sign sample_b -> n_sign r = PLUS) /\
  (num_int r <> 0 -> n_sign sample_a <> n_sign sample_b -> n_sign r = MINUS).
Proof.
  assert (Ha : wf_num sample_a) by prove_wf.
  assert (Hb : wf_num sample_b) by prove_wf.
  assert (Hs : 0 <= 3) by lia.
  exact (conj Ha (conj Hb (conj Hs
    (bc_multiply_sign sample_junk Arch64 LittleEndian sample_a sample_b 3
       Ha Hb Hs)))).
Defined.

(** C4: in [bc_standard_mul], for operands of any lengths [len1, len2 >= 1],
    adjusting the accumulator whenever the row counter reaches
    [BC_MUL_MAX_ADD_COUNT = UINT_MAX / (10 ^ W) ^ 2] keeps every unsigned
    operation on the accumulator within the native type: the overflow
    history of the multiply-and-add phase stays [false]. *)
Theorem bc_standard_mul_no_wraparound junk a e n1 n1len n2 n2len :
  Forall is_digit (n_value n1) -> Forall is_digit (n_value n2) ->
  1 <= n1len <= Z.of_nat (length (n_value n1)) ->
  1 <= n2len <= Z.of_nat (length (n_value n2)) ->
  BC_MUL_MAX_ADD_COUNT a = BC_UINT_MAX a / (10 ^ BC_MUL_UINT_DIGITS a) ^ 2 /\
  acc_ovf (bc_standard_mul_acc junk a e n1 n1len n2 n2len) = false /\
  slots_ok a (acc_prod (bc_standard_mul_acc junk a e n1 n1len n2 n2len)).
Proof.
  intros HF1 HF2 H1 H2.
  pose proof (arr_size_pos a n1len ltac:(lia)) as Ha1.
  pose proof (arr_size_pos a n2len ltac:(lia)) as Ha2.
  destruct (bc_standard_mul_acc_spec junk a e n1 n1len n2 n2len HF1 HF2
              ltac:(lia) ltac:(lia) ltac:(lia)) as (Hov & _ & HS & _).
  repeat split; try assumption. destruct a; reflexivity.
Qed.

Lemma bc_standard_mul_no_wraparound_witness :
  Forall is_digit (n_value sample_a) /\ Forall is_digit (n_value sample_b) /\
  1 <= 11 <= Z.of_nat (length (n_value sample_a)) /\
  1 <= 6 <= Z.of_nat (length (n_value sample_b)) /\
  BC_MUL_MAX_ADD_COUNT Arch32 =
    BC_UINT_MAX Arch32 / (10 ^ BC_MUL_UINT_DIGITS Arch32) ^ 2 /\
  acc_ovf (bc_standard_mul_acc sample_junk Arch32 LittleEndian
             sample_a 11 sample_b 6) = false /\
  slots_ok Arch32
    (acc_prod (bc_standard_mul_acc sample_junk Arch32 LittleEndian
                 sample_a 11 sample_b 6)).
Proof.
  assert (Ha : Forall is_digit (n_value sample_a)) by (cbn; prove_digits).
  assert (Hb : Forall is_digit (n_value sample_b)) by (cbn; prove_digits).
  assert (H1 : 1 <= 11 <= Z.of_nat (length (n_value sample_a))) by (cbn; lia).
  assert (H2 : 1 <= 6 <= Z.of_nat (length (n_value sample_b))) by (cbn; lia).
  exact (conj Ha (conj Hb (conj H1 (conj H2
    (bc_standard_mul_no_wraparound sample_junk Arch32 LittleEndian
       sample_a 11 sample_b 6 Ha Hb H1 H2))))).
Defined.

(** C5: on operands of at most [W] digits each, [bc_fast_mul] and
    [bc_standard_mul] produce the same number, whose digit array has
    [len1 + len2] entries, whatever the allocator hands out; and for
    operands of any lengths, at the boundary [W], [W + 1] as elsewhere, the
    path that [bc_multiply] chooses gives what the standard path gives. *)
Theorem bc_fast_mul_standard_mul_agree junk1 junk2 a e n1 n1len n2 n2len :
  Forall is_digit (n_value n1) -> Forall is_digit (n_value n2) ->
  1 <= n1len <= Z.of_nat (length (n_value n1)) ->
  1 <= n2len <= Z.of_nat (length (n_value n2)) ->
  (n1len <= BC_MUL_UINT_DIGITS a -> n2len <= BC_MUL_UINT_DIGITS a ->
   bc_fast_mul junk1 a e n1 n1len n2 n2len =
   bc_standard_mul junk2 a e n1 n1len n2 n2len /\
   Z.of_nat (length (n_value (bc_fast_mul junk1 a e n1 n1len n2 n2len))) =
   n1len + n2len) /\
  (if (n1len <=? BC_MUL_UINT_DIGITS a) && (n2len <=? BC_MUL_UINT_DIGITS a)
   then bc_fast_mul junk1 a e n1 n1len n2 n2len
   else bc_standard_mul junk1 a e n1 n1len n2 n2len) =
  bc_standard_mul junk2 a e n1 n1len n2 n2len.
Proof.
  intros HF1 HF2 H1 H2.
  pose proof (arr_size_pos a n1len ltac:(lia)) as Ha1.
  pose proof (arr_size_pos a n2len ltac:(lia)) as Ha2.
  assert (Hstd : forall junk,
            bc_standard_mul junk a e n1 n1len n2 n2len =
            {| n_sign := PLUS; n_len := n1len + n2len; n_scale := 0;
               n_value := to_digits (Z.to_nat (n1len + n2len))
                            (weighted_sum (n_value n1) (n1len - 1) n1len *
                             weighted_sum (n_value n2) (n2len - 1) n2len) |})
    by (intros junk; apply bc_standard_mul_spec; assumption || lia).
  assert (Hfast : n1len <= BC_MUL_UINT_DIGITS a ->
                  n2len <= BC_MUL_UINT_DIGITS a ->
                  bc_fast_mul junk1 a e n1 n1len n2 n2len =
                  bc_standard_mul junk2 a e n1 n1len n2 n2len)
    by (intros L1 L2; rewrite Hstd; apply bc_fast_mul_spec; assumption || lia).
  split.
  - intros L1 L2. split; [now apply Hfast|].
    rewrite Hfast, Hstd by assumption. cbn [n_value].
    rewrite length_to_digits. lia.
  - destruct ((n1len <=? BC_MUL_UINT_DIGITS a) &&
              (n2len <=? BC_MUL_UINT_DIGITS a)) eqn:E.
    + apply andb_true_iff in E as [E1 E2]. apply Z.leb_le in E1, E2.
      now apply Hfast.
    + now rewrite !Hstd.
Qed.

Lemma bc_fast_mul_standard_mul_agree_witness :
  Forall is_digit (n_value sample_c) /\ Forall is_digit (n_value sample_b) /\
  1 <= 3 <= Z.of_nat (length (n_value sample_c)) /\
  1 <= 6 <= Z.of_nat (length (n_value sample_b)) /\
  3 <= BC_MUL_UINT_DIGITS Arch64 /\ 6 <= BC_MUL_UINT_DIGITS Arch64 /\
  bc_fast_mul sample_junk Arch64 BigEndian sample_c 3 sample_b 6 =
  bc_standard_mul (fun _ => 0) Arch64 BigEndian sample_c 3 sample_b 6 /\
  Z.of_nat (length (n_value (bc_fast_mul sample_junk Arch64 BigEndian
                               sample_c 3 sample_b 6))) = 3 + 6.
Proof.
  assert (Hc : Forall is_digit (n_value sample_c)) by (cbn; prove_digits).
  assert (Hb : Forall is_digit (n_value sample_b)) by (cbn; prove_digits).
  assert (H1 : 1 <= 3 <= Z.of_nat (length (n_value sample_c))) by (cbn; lia).
  assert (H2 : 1 <= 6 <= Z.of_nat (length (n_value sample_b))) by (cbn; lia).
  assert (L1 : 3 <= BC_MUL_UINT_DIGITS Arch64) by (cbn; lia).
  assert (L2 : 6 <= BC_MUL_UINT_DIGITS Arch64) by (cbn; lia).
  exact (conj Hc (conj Hb (conj H1 (conj H2 (conj L1 (conj L2
    (proj1 (bc_fast_mul_standard_mul_agree sample_junk (fun _ => 0)
              Arch64 BigEndian sample_c 3 sample_b 6 Hc Hb H1 H2)
       L1 L2))))))).
Defined.

(** C6: for digits in 0..9 and [1 <= len <= W],
    [bc_partial_convert_to_uint n len] is the sum over [i < len] of
    [digit[n - i] * 10 ^ i]; when [len = W] the bit-trick path
    [bc_parse_chunk_chars] returns what the accumulate-with-weight loop
    returns, on either byte order. *)
Theorem bc_partial_convert_to_uint_value a e buf n len :
  Forall is_digit buf ->
  1 <= len <= BC_MUL_UINT_DIGITS a ->
  len - 1 <= n < Z.of_nat (length buf) ->
  bc_partial_convert_to_uint a e buf n len = weighted_sum buf n len /\
  (len = BC_MUL_UINT_DIGITS a ->
   bc_parse_chunk_chars a e buf (n - len + 1) =
   bc_partial_convert_loop a buf n len).
Proof.
  intros HF Hlen Hn. split.
  - apply bc_partial_convert_to_uint_spec; [assumption|lia].
  - intros ->. rewrite bc_parse_chunk_chars_spec by assumption.
    symmetry. apply bc_partial_convert_loop_spec; [assumption|lia].
Qed.

Lemma bc_partial_convert_to_uint_value_witness :
  Forall is_digit (n_value sample_a) /\
  1 <= 8 <= BC_MUL_UINT_DIGITS Arch64 /\
  8 - 1 <= 9 < Z.of_nat (length (n_value sample_a)) /\
  bc_partial_convert_to_uint Arch64 BigEndian (n_value sample_a) 9 8 =
  weighted_sum (n_value sample_a) 9 8 /\
  (8 = BC_MUL_UINT_DIGITS Arch64 ->
   bc_parse_chunk_chars Arch64 BigEndian (n_value sample_a) (9 - 8 + 1) =
   bc_partial_convert_loop Arch64 (n_value sample_a) 9 8).
Proof.
  assert (Ha : Forall is_digit (n_value sample_a)) by (cbn; prove_digits).
  assert (H1 : 1 <= 8 <= BC_MUL_UINT_DIGITS Arch64) by (cbn; lia).
  assert (H2 : 8 - 1 <= 9 < Z.of_nat (length (n_value sample_a))) by (cbn; lia).
  exact (conj Ha (conj H1 (conj H2
    (bc_partial_convert_to_uint_value Arch64 BigEndian
       (n_value sample_a) 9 8 Ha H1 H2)))).
Defined.

(** C7: on an accumulator of [n >= 1] native values, a pass of
    [bc_digits_adjustment] during which no addition wraps leaves every slot
    but the last below [10 ^ W], leaves in the last slot the whole quotient
    of the value by [(10 ^ W) ^ (n - 1)], and keeps the value
    [sum of slot[i] * (10 ^ W) ^ i]. *)
Theorem bc_digits_adjustment_pass a prod n :
  Z.of_nat (length prod) = n -> 1 <= n -> slots_ok a prod ->
  let s := bc_digits_adjustment a {| acc_prod := prod; acc_ovf := false |} n in
  acc_ovf s = false ->
  (forall i, 0 <= i < n - 1 ->
     0 <= rd (acc_prod s) i < BC_MUL_UINT_OVERFLOW a) /\
  rd (acc_prod s) (n - 1) =
    limbs_value a prod / BC_MUL_UINT_OVERFLOW a ^ (n - 1) /\
  limbs_value a (acc_prod s) = limbs_value a prod.
Proof.
  intros HL Hn HS. cbv zeta. intros Hov.
  destruct (bc_digits_adjustment_spec a {| acc_prod := prod; acc_ovf := false |}
              n HL Hn HS Hov) as (_ & HL' & HS' & Hlow & Hv).
  cbn [acc_prod] in *. repeat split; try apply Hlow; try assumption.
  rewrite <- Hv. apply limbs_value_last; [lia|lia|assumption].
Qed.

Lemma bc_digits_adjustment_pass_witness :
  let prod := [123456789; 4000000000; 7] in
  let s := bc_digits_adjustment Arch32
             {| acc_prod := prod; acc_ovf := false |} 3 in
  Z.of_nat (length prod) = 3 /\ 1 <= 3 /\ slots_ok Arch32 prod /\
  acc_ovf s = false /\
  (forall i, 0 <= i < 3 - 1 ->
     0 <= rd (acc_prod s) i < BC_MUL_UINT_OVERFLOW Arch32) /\
  rd (acc_prod s) (3 - 1) =
    limbs_value Arch32 prod / BC_MUL_UINT_OVERFLOW Arch32 ^ (3 - 1) /\
  limbs_value Arch32 (acc_prod s) = limbs_value Arch32 prod.
Proof.
  cbv zeta.
  assert (HL : Z.of_nat (length [123456789; 4000000000; 7]) = 3) by reflexivity.
  assert (Hn : 1 <= 3) by lia.
  assert (HS : slots_ok Arch32 [123456789; 4000000000; 7])
    by (repeat constructor; vm_compute; discriminate).
  assert (Hov : acc_ovf (bc_digits_adjustment Arch32
                  {| acc_prod := [123456789; 4000000000; 7];
                     acc_ovf := false |} 3) = false) by reflexivity.
  exact (conj HL (conj Hn (conj HS (conj Hov
    (bc_digits_adjustment_pass Arch32
       [123456789; 4000000000; 7] 3 HL Hn HS Hov))))).
Defined.

(** C8: in [bc_standard_mul], for operands of lengths [len1, len2 >= 1]
    with [max len1 len2 > W], the conversion to digits stores to each of
    the [len1 + len2] output offsets exactly once; every limb but the last
    gives exactly its [W] decimal digits, the last limb gives the digits
    that remain, and it is zero once the buffer is full. *)
Theorem bc_standard_mul_emits_each_digit_once junk a e n1 n1len n2 n2len :
  Forall is_digit (n_value n1) -> Forall is_digit (n_value n2) ->
  1 <= n1len <= Z.of_nat (length (n_value n1)) ->
  1 <= n2len <= Z.of_nat (length (n_value n2)) ->
  BC_MUL_UINT_DIGITS a < Z.max n1len n2len ->
  let W := BC_MUL_UINT_DIGITS a in
  let prodlen := n1len + n2len in
  let p := arr_size a n1len + arr_size a n2len - 1 in
  let acc := acc_prod (bc_standard_mul_acc junk a e n1 n1len n2 n2len) in
  let s := bc_standard_mul_state junk a e n1 n1len n2 n2len in
  Permutation (em_log s) (zrange prodlen) /\
  Z.of_nat (length (em_out s)) = prodlen /\
  (forall i k, 0 <= i < p - 1 -> 0 <= k < W ->
     rd (em_out s) (prodlen - 1 - (W * i + k)) = (rd acc i / 10 ^ k) mod 10) /\
  (forall k, 0 <= k < prodlen - W * (p - 1) ->
     rd (em_out s) (prodlen - 1 - (W * (p - 1) + k)) =
     (rd acc (p - 1) / 10 ^ k) mod 10) /\
  em_pend s = -1 /\ em_i s = p - 1 /\ rd (em_prod s) (em_i s) = 0.
Proof.
  intros HF1 HF2 H1 H2 Hmax. cbv zeta.
  pose proof (arr_size_pos a n1len ltac:(lia)) as Ha1.
  pose proof (arr_size_pos a n2len ltac:(lia)) as Ha2.
  pose proof (DIGITS_pos a) as HW.
  set (p := arr_size a n1len + arr_size a n2len - 1).
  assert (Hp : 1 <= p) by (unfold p; lia).
  destruct (bc_standard_mul_state_spec junk a e n1 n1len n2 n2len HF1 HF2
              ltac:(lia) ltac:(lia) Hp) as (E1 & E2 & E3 & E4 & E5).
  destruct (bc_standard_mul_acc_spec junk a e n1 n1len n2 n2len HF1 HF2
              ltac:(lia) ltac:(lia) Hp) as (_ & HL & HS & Hlow & Hv).
  fold p in E4, E5, HL, Hlow.
  pose proof (arr_size_fit a n1len n2len ltac:(lia) ltac:(lia)) as Hfit.
  fold p in Hfit.
  set (acc := acc_prod (bc_standard_mul_acc junk a e n1 n1len n2 n2len)) in *.
  rewrite E1, E3, E4, E5, <- Hv.
  assert (Hdigit : forall i k, 0 <= i < p -> 0 <= k ->
            (i < p - 1 -> k < BC_MUL_UINT_DIGITS a) ->
            BC_MUL_UINT_DIGITS a * i + k < n1len + n2len ->
            rd (to_digits (Z.to_nat (n1len + n2len)) (limbs_value a acc))
               (n1len + n2len - 1 - (BC_MUL_UINT_DIGITS a * i + k)) =
            (rd acc i / 10 ^ k) mod 10).
  { intros i k Hi Hk Hkw Hin.
    replace (n1len + n2len - 1 - (BC_MUL_UINT_DIGITS a * i + k))
      with (Z.of_nat (Z.to_nat (n1len + n2len)) - 1 -
            (BC_MUL_UINT_DIGITS a * i + k)) by lia.
    rewrite rd_to_digits by nia.
    apply limbs_value_digit; rewrite ?HL; try lia; try assumption.
    apply (slots_ok_rd a acc (p - 1) HS). }
  repeat split; try assumption; try lia.
  - rewrite length_to_digits. lia.
  - intros i k Hi Hk. apply Hdigit; try lia. nia.
  - intros k Hk. apply Hdigit; lia.
Qed.

Lemma bc_standard_mul_emits_each_digit_once_witness :
  Forall is_digit (n_value sample_a) /\ Forall is_digit (n_value sample_b) /\
  1 <= 11 <= Z.of_nat (length (n_value sample_a)) /\
  1 <= 6 <= Z.of_nat (length (n_value sample_b)) /\
  BC_MUL_UINT_DIGITS Arch64 < Z.max 11 6 /\
  let s := bc_standard_mul_state sample_junk Arch64 LittleEndian
             sample_a 11 sample_b 6 in
  Permutation (em_log s) (zrange (11 + 6)) /\
  rd (em_prod s) (em_i s) = 0.
Proof.
  assert (Ha : Forall is_digit (n_value sample_a)) by (cbn; prove_digits).
  assert (Hb : Forall is_digit (n_value sample_b)) by (cbn; prove_digits).
  assert (H1 : 1 <= 11 <= Z.of_nat (length (n_value sample_a))) by (cbn; lia).
  assert (H2 : 1 <= 6 <= Z.of_nat (length (n_value sample_b))) by (cbn; lia).
  assert (H3 : BC_MUL_UINT_DIGITS Arch64 < Z.max 11 6) by (cbn; lia).
  pose proof (bc_standard_mul_emits_each_digit_once sample_junk Arch64
                LittleEndian sample_a 11 sample_b 6 Ha Hb H1 H2 H3) as H.
  cbv zeta in H.
  exact (conj Ha (conj Hb (conj H1 (conj H2 (conj H3
    (conj (proj1 H) (proj2 (proj2 (proj2 (proj2 (proj2 (proj2 H)))))))))))).
Defined.

Lemma bc_num_eq (x y : bc_num) :
  n_sign x = n_sign y -> n_len x = n_len y -> n_scale x = n_scale y ->
  n_value x = n_value y -> x = y.
Proof. destruct x, y. cbn. intros -> -> -> ->. reflexivity. Qed.

(** C9: for well-formed operands and a non-negative target scale,
    [bc_multiply a b s] and [bc_multiply b a s] return the same number:
    same digits, sign, integer length and scale. *)
Theorem bc_multiply_comm junk1 junk2 a e n1 n2 scale :
  wf_num n1 -> wf_num n2 -> 0 <= scale ->
  bc_multiply junk1 a e n1 n2 scale = bc_multiply junk2 a e n2 n1 scale.
Proof.
  intros Hwf1 Hwf2 Hs.
  destruct (bc_multiply_spec junk1 a e n1 n2 scale Hwf1 Hwf2 Hs)
    as (Hsc & Hval & Hlen & Hnum & Hsign).
  destruct (bc_multiply_spec junk2 a e n2 n1 scale Hwf2 Hwf1 Hs)
    as (Hsc' & Hval' & Hlen' & Hnum' & Hsign').
  assert (Escale : n_scale (bc_multiply junk1 a e n1 n2 scale) =
                   n_scale (bc_multiply junk2 a e n2 n1 scale))
    by (rewrite Hsc, Hsc'; lia).
  assert (Eraw : to_digits
                   (Z.to_nat (n_len n1 + n_scale n1 + (n_len n2 + n_scale n2)))
                   (num_int n1 * num_int n2) =
                 to_digits
                   (Z.to_nat (n_len n2 + n_scale n2 + (n_len n1 + n_scale n1)))
                   (num_int n2 * num_int n1))
    by (f_equal; lia).
  assert (Enum : num_int (bc_multiply junk1 a e n1 n2 scale) =
                 num_int (bc_multiply junk2 a e n2 n1 scale)).
  { rewrite Hnum, Hnum', <- Escale. f_equal; [lia|f_equal; lia]. }
  apply bc_num_eq.
  - rewrite Hsign, Hsign', Enum.
    destruct (n_sign n1), (n_sign n2); reflexivity.
  - rewrite Hlen, Hlen', Eraw.
    now replace (n_len n2 + n_len n1) with (n_len n1 + n_len n2) by lia.
  - exact Escale.
  - rewrite Hval, Hval', Eraw.
    now replace (n_len n2 + n_len n1) with (n_len n1 + n_len n2) by lia.
Qed.

Lemma bc_multiply_comm_witness :
  wf_num sample_a /\ wf_num sample_b /\ 0 <= 2 /\
  bc_multiply sample_junk Arch64 LittleEndian sample_a sample_b 2 =
  bc_multiply (fun _ => 0) Arch64 LittleEndian sample_b sample_a 2.
Proof.
  assert (Ha : wf_num sample_a) by prove_wf.
  assert (Hb : wf_num sample_b) by prove_wf.
  assert (Hs : 0 <= 2) by lia.
  exact (conj Ha (conj Hb (conj Hs
    (bc_multiply_comm sample_junk (fun _ => 0) Arch64 LittleEndian
       sample_a sample_b 2 Ha Hb Hs)))).
Defined.

(** C10: for [0 <= value <= 9999], [bc_write_bcd_representation value str]
    changes exactly the four bytes at [str]: they become the four decimal
    digits of [value], most significant first, each a raw digit 0..9, and
    the buffer that results is the same on either byte order. *)
Theorem bc_write_bcd_representation_digits e value buf str :
  0 <= value <= 9999 -> 0 <= str -> str + 4 <= Z.of_nat (length buf) ->
  bc_write_bcd_representation e value buf str =
    firstn (Z.to_nat str) buf ++
    [value / 1000; value / 100 mod 10; value / 10 mod 10; value mod 10] ++
    skipn (Z.to_nat (str + 4)) buf /\
  Forall is_digit
    [value / 1000; value / 100 mod 10; value / 10 mod 10; value mod 10] /\
  bc_write_bcd_representation LittleEndian value buf str =
  bc_write_bcd_representation BigEndian value buf str.
Proof.
  intros Hv Hs HL.
  assert (G : forall e', bc_write_bcd_representation e' value buf str =
            firstn (Z.to_nat str) buf ++
            [value / 1000; value / 100 mod 10; value / 10 mod 10; value mod 10] ++
            skipn (Z.to_nat (str + 4)) buf).
  { intros e'. rewrite <- (firstn_skipn (Z.to_nat (str + 4)) buf) at 1.
    rewrite bc_write_bcd_representation_spec
      by (try lia; rewrite length_firstn; lia).
    rewrite firstn_firstn, Nat.min_l by lia.
    now rewrite to_digits_4 by lia. }
  split; [apply G|]. split; [|now rewrite !G].
  rewrite <- to_digits_4 by lia. apply to_digits_digit.
Qed.

Lemma bc_write_bcd_representation_digits_witness :
  0 <= 407 <= 9999 /\ 0 <= 2 /\
  2 + 4 <= Z.of_nat (length (n_value sample_a)) /\
  bc_write_bcd_representation BigEndian 407 (n_value sample_a) 2 =
    [1; 2; 0; 4; 0; 7; 7; 8; 9; 1; 2].
Proof.
  assert (Hv : 0 <= 407 <= 9999) by lia.
  assert (Hs : 0 <= 2) by lia.
  assert (HL : 2 + 4 <= Z.of_nat (length (n_value sample_a))) by (cbn; lia).
  exact (conj Hv (conj Hs (conj HL
    (proj1 (bc_write_bcd_representation_digits BigEndian 407
              (n_value sample_a) 2 Hv Hs HL))))).
Defined.

(** * Further properties of the code *)
(** ** More about packing *)

Lemma land_15_mod b : 0 <= b -> Z.land b 15 = b mod 16.
Proof.
  intros H. change 15 with (Z.ones 4). now rewrite Z.land_ones by lia.
Qed.

(** The pairwise combination on arbitrary bytes: only the low four bits of
    every byte take part. *)
Lemma parse_chunk_32_nibbles b0 b1 b2 b3 :
  0 <= b0 < 256 -> 0 <= b1 < 256 -> 0 <= b2 < 256 -> 0 <= b3 < 256 ->
  let tmp := le_combine [b0; b1; b2; b3] in
  let lower_digits := Z.shiftr (Z.land tmp 0x0f000f00) 8 in
  let upper_digits := wrap 32 (Z.land tmp 0x000f000f * 10) in
  let tmp := wrap 32 (lower_digits + upper_digits) in
  let lower_digits := Z.shiftr (Z.land tmp 0x00ff0000) 16 in
  let upper_digits := wrap 32 (Z.land tmp 0x000000ff * 100) in
  wrap 32 (lower_digits + upper_digits) =
  1000 * (b0 mod 16) + 100 * (b1 mod 16) + 10 * (b2 mod 16) + b3 mod 16.
Proof.
  intros H0 H1 H2 H3. cbv zeta. cbn [le_combine].
  set (t0 := b0 + 256 * (b1 + 256 * (b2 + 256 * (b3 + 256 * 0)))).
  assert (E1 : Z.shiftr (Z.land t0 0x0f000f00) 8 = b1 mod 16 + 65536 * (b3 mod 16)).
  { unfold t0.
    change 0x0f000f00 with (0 + 256 * (15 + 256 * (0 + 256 * (15 + 256 * 0)))).
    rewrite !land_byte by lia. rewrite !land_15_mod, !Z.land_0_r by lia.
    rewrite Z.shiftr_div_pow2 by lia. change (2 ^ 8) with 256. dlia. }
  assert (E2 : Z.land t0 0x000f000f = b0 mod 16 + 65536 * (b2 mod 16)).
  { unfold t0.
    change 0x000f000f with (15 + 256 * (0 + 256 * (15 + 256 * (0 + 256 * 0)))).
    rewrite !land_byte by lia. rewrite !land_15_mod, !Z.land_0_r by lia. lia. }
  rewrite E1, E2. clear E1 E2. clearbody t0.
  pose proof (Z.mod_pos_bound b0 16 ltac:(lia)) as D0.
  pose proof (Z.mod_pos_bound b1 16 ltac:(lia)) as D1.
  pose proof (Z.mod_pos_bound b2 16 ltac:(lia)) as D2.
  pose proof (Z.mod_pos_bound b3 16 ltac:(lia)) as D3.
  set (d0 := b0 mod 16) in *. set (d1 := b1 mod 16) in *.
  set (d2 := b2 mod 16) in *. set (d3 := b3 mod 16) in *.
  clearbody d0 d1 d2 d3.
  rewrite (wrap_small 32 ((d0 + 65536 * d2) * 10))
    by (change (2 ^ 32) with 4294967296; lia).
  rewrite (wrap_small 32 (d1 + 65536 * d3 + (d0 + 65536 * d2) * 10))
    by (change (2 ^ 32) with 4294967296; lia).
  set (t1 := d1 + 65536 * d3 + (d0 + 65536 * d2) * 10).
  assert (Ht1 : t1 = (10 * d0 + d1) +
                     256 * (0 + 256 * ((10 * d2 + d3) + 256 * (0 + 256 * 0))))
    by (unfold t1; lia).
  assert (E3 : Z.shiftr (Z.land t1 0x00ff0000) 16 = 10 * d2 + d3).
  { rewrite Ht1.
    change 0x00ff0000 with (0 + 256 * (0 + 256 * (255 + 256 * (0 + 256 * 0)))).
    rewrite !land_byte by lia. rewrite !land_255, !Z.land_0_r by lia.
    rewrite Z.shiftr_div_pow2 by lia. change (2 ^ 16) with 65536. dlia. }
  assert (E4 : Z.land t1 0x000000ff = 10 * d0 + d1).
  { rewrite Ht1.
    change 0x000000ff with (255 + 256 * (0 + 256 * (0 + 256 * (0 + 256 * 0)))).
    rewrite !land_byte by lia. rewrite !land_255, !Z.land_0_r by lia. lia. }
  rewrite E3, E4.
  rewrite (wrap_small 32 ((10 * d0 + d1) * 100))
    by (change (2 ^ 32) with 4294967296; lia).
  rewrite wrap_small by (change (2 ^ 32) with 4294967296; lia).
  lia.
Qed.

Lemma parse_chunk_64_nibbles b0 b1 b2 b3 b4 b5 b6 b7 :
  0 <= b0 < 256 -> 0 <= b1 < 256 -> 0 <= b2 < 256 -> 0 <= b3 < 256 ->
  0 <= b4 < 256 -> 0 <= b5 < 256 -> 0 <= b6 < 256 -> 0 <= b7 < 256 ->
  let tmp := le_combine [b0; b1; b2; b3; b4; b5; b6; b7] in
  let lower_digits := Z.shiftr (Z.land tmp 0x0f000f000f000f00) 8 in
  let upper_digits := wrap 64 (Z.land tmp 0x000f000f000f000f * 10) in
  let tmp := wrap 64 (lower_digits + upper_digits) in
  let lower_digits := Z.shiftr (Z.land tmp 0x00ff000000ff0000) 16 in
  let upper_digits := wrap 64 (Z.land tmp 0x000000ff000000ff * 100) in
  let tmp := wrap 64 (lower_digits + upper_digits) in
  let lower_digits := Z.shiftr (Z.land tmp 0x0000ffff00000000) 32 in
  let upper_digits := wrap 64 (Z.land tmp 0x000000000000ffff * 10000) in
  wrap 64 (lower_digits + upper_digits) =
  10000000 * (b0 mod 16) + 1000000 * (b1 mod 16) + 100000 * (b2 mod 16) +
  10000 * (b3 mod 16) + 1000 * (b4 mod 16) + 100 * (b5 mod 16) +
  10 * (b6 mod 16) + b7 mod 16.
Proof.
  intros H0 H1 H2 H3 H4 H5 H6 H7. cbv zeta. cbn [le_combine].
  set (t0 := b0 + 256 * (b1 + 256 * (b2 + 256 * (b3 + 256 *
             (b4 + 256 * (b5 + 256 * (b6 + 256 * (b7 + 256 * 0)))))))).
  set (w := 2 ^ 16).
  assert (E1 : Z.shiftr (Z.land t0 0x0f000f000f000f00) 8 =
               b1 mod 16 + w * (b3 mod 16 + w * (b5 mod 16 + w * (b7 mod 16)))).
  { unfold t0, w.
    change 0x0f000f000f000f00 with
      (0 + 256 * (15 + 256 * (0 + 256 * (15 + 256 *
       (0 + 256 * (15 + 256 * (0 + 256 * (15 + 256 * 0)))))))).
    rewrite !land_byte by lia. rewrite !land_15_mod, !Z.land_0_r by lia.
    rewrite Z.shiftr_div_pow2 by lia. change (2 ^ 8) with 256.
    change (2 ^ 16) with 65536. dlia. }
  assert (E2 : Z.land t0 0x000f000f000f000f =
               b0 mod 16 + w * (b2 mod 16 + w * (b4 mod 16 + w * (b6 mod 16)))).
  { unfold t0, w.
    change 0x000f000f000f000f with
      (15 + 256 * (0 + 256 * (15 + 256 * (0 + 256 *
       (15 + 256 * (0 + 256 * (15 + 256 * (0 + 256 * 0)))))))).
    rewrite !land_byte by lia. rewrite !land_15_mod, !Z.land_0_r by lia.
    change (2 ^ 16) with 65536. lia. }
  rewrite E1, E2. clear E1 E2. clearbody t0.
  pose proof (Z.mod_pos_bound b0 16 ltac:(lia)) as D0.
  pose proof (Z.mod_pos_bound b1 16 ltac:(lia)) as D1.
  pose proof (Z.mod_pos_bound b2 16 ltac:(lia)) as D2.
  pose proof (Z.mod_pos_bound b3 16 ltac:(lia)) as D3.
  pose proof (Z.mod_pos_bound b4 16 ltac:(lia)) as D4.
  pose proof (Z.mod_pos_bound b5 16 ltac:(lia)) as D5.
  pose proof (Z.mod_pos_bound b6 16 ltac:(lia)) as D6.
  pose proof (Z.mod_pos_bound b7 16 ltac:(lia)) as D7.
  set (d0 := b0 mod 16) in *. set (d1 := b1 mod 16) in *.
  set (d2 := b2 mod 16) in *. set (d3 := b3 mod 16) in *.
  set (d4 := b4 mod 16) in *. set (d5 := b5 mod 16) in *.
  set (d6 := b6 mod 16) in *. set (d7 := b7 mod 16) in *.
  clearbody d0 d1 d2 d3 d4 d5 d6 d7.
  set (t1 := (10 * d0 + d1) + w * ((10 * d2 + d3) +
             w * ((10 * d4 + d5) + w * ((10 * d6 + d7) + w * 0)))).
  assert (W1 : wrap 64 (d1 + w * (d3 + w * (d5 + w * d7)) +
                        wrap 64 ((d0 + w * (d2 + w * (d4 + w * d6))) * 10)) = t1).
  { unfold t1, w. change (2 ^ 16) with 65536.
    rewrite (wrap_small 64 (_ * 10))
      by (change (2 ^ 64) with 18446744073709551616; lia).
    rewrite wrap_small by (change (2 ^ 64) with 18446744073709551616; lia).
    lia. }
  rewrite W1. clear W1.
  set (v := 2 ^ 32).
  assert (Et1 : t1 = (10 * d0 + d1) + 256 * (0 + 256 * ((10 * d2 + d3) + 256 * (0 + 256 *
            ((10 * d4 + d5) + 256 * (0 + 256 * ((10 * d6 + d7) + 256 * (0 + 256 * 0))))))))
    by (unfold t1, w; change (2 ^ 16) with 65536; lia).
  assert (E3 : Z.shiftr (Z.land t1 0x00ff000000ff0000) 16 =
               (10 * d2 + d3) + v * (10 * d6 + d7)).
  { rewrite Et1. unfold v.
    change 0x00ff000000ff0000 with
      (0 + 256 * (0 + 256 * (255 + 256 * (0 + 256 *
       (0 + 256 * (0 + 256 * (255 + 256 * (0 + 256 * 0)))))))).
    rewrite !land_byte by lia. rewrite !land_255, !Z.land_0_r by lia.
    rewrite Z.shiftr_div_pow2 by lia. change (2 ^ 16) with 65536.
    change (2 ^ 32) with 4294967296. dlia. }
  assert (E4 : Z.land t1 0x000000ff000000ff =
               (10 * d0 + d1) + v * (10 * d4 + d5)).
  { rewrite Et1. unfold v.
    change 0x000000ff000000ff with
      (255 + 256 * (0 + 256 * (0 + 256 * (0 + 256 *
       (255 + 256 * (0 + 256 * (0 + 256 * (0 + 256 * 0)))))))).
    rewrite !land_byte by lia. rewrite !land_255, !Z.land_0_r by lia.
    change (2 ^ 32) with 4294967296. lia. }
  rewrite E3, E4. clear E3 E4 Et1. clearbody t1.
  set (q0 := 1000 * d0 + 100 * d1 + 10 * d2 + d3).
  set (q1 := 1000 * d4 + 100 * d5 + 10 * d6 + d7).
  assert (Hq0 : 0 <= q0 < 65536) by (unfold q0; lia).
  assert (Hq1 : 0 <= q1 < 65536) by (unfold q1; lia).
  assert (W2 : wrap 64 (10 * d2 + d3 + v * (10 * d6 + d7) +
                        wrap 64 ((10 * d0 + d1 + v * (10 * d4 + d5)) * 100)) =
               q0 + v * (q1 + v * 0)).
  { unfold q0, q1, v. change (2 ^ 32) with 4294967296.
    rewrite (wrap_small 64 (_ * 100))
      by (change (2 ^ 64) with 18446744073709551616; lia).
    rewrite wrap_small by (change (2 ^ 64) with 18446744073709551616; lia).
    lia. }
  rewrite W2. clear W2.
  assert (E5 : Z.shiftr (Z.land (q0 + v * (q1 + v * 0)) 0x0000ffff00000000) 32 = q1).
  { unfold v.
    change 0x0000ffff00000000 with (0 + 2 ^ 32 * (65535 + 2 ^ 32 * 0)).
    rewrite !(land_split 32) by (change (2 ^ 32) with 4294967296; lia).
    rewrite !Z.land_0_r. change 65535 with (Z.ones 16).
    rewrite Z.land_ones by lia. change (2 ^ 16) with 65536.
    rewrite Z.shiftr_div_pow2 by lia. change (2 ^ 32) with 4294967296. dlia. }
  assert (E6 : Z.land (q0 + v * (q1 + v * 0)) 0x000000000000ffff = q0).
  { unfold v.
    change 0x000000000000ffff with (65535 + 2 ^ 32 * (0 + 2 ^ 32 * 0)).
    rewrite !(land_split 32) by (change (2 ^ 32) with 4294967296; lia).
    rewrite !Z.land_0_r. change 65535 with (Z.ones 16).
    rewrite Z.land_ones by lia. change (2 ^ 16) with 65536.
    change (2 ^ 32) with 4294967296. dlia. }
  rewrite E5, E6.
  rewrite (wrap_small 64 (q0 * 10000))
    by (change (2 ^ 64) with 18446744073709551616; lia).
  rewrite wrap_small by (change (2 ^ 64) with 18446744073709551616; lia).
  unfold q0, q1. lia.
Qed.

Lemma rd_map_mod16 buf i : rd (map (fun b => b mod 16) buf) i = rd buf i mod 16.
Proof.
  unfold rd. destruct (i <? 0); [reflexivity|].
  change 0 with ((fun b => b mod 16) 0) at 1. apply map_nth.
Qed.

Lemma rd_byte buf i :
  Forall (fun b => 0 <= b < 256) buf -> 0 <= rd buf i < 256.
Proof.
  intros HF. destruct (Z_lt_dec i 0) as [Hn|Hn].
  - unfold rd. destruct (i <? 0) eqn:E; lia.
  - destruct (Z_lt_dec i (Z.of_nat (length buf))) as [Hi|Hi].
    + apply (Forall_rd _ buf i HF). lia.
    + rewrite rd_outside; lia.
Qed.

(** X2: [bc_parse_chunk_chars] masks every byte with [0x0f]: on any [W]
    bytes it returns the positional sum of their low four bits, on either
    word size and byte order. *)
Theorem bc_parse_chunk_chars_low_nibbles a e buf str :
  Forall (fun b => 0 <= b < 256) buf ->
  0 <= str -> str + BC_MUL_UINT_DIGITS a <= Z.of_nat (length buf) ->
  bc_parse_chunk_chars a e buf str =
  weighted_sum (map (fun b => b mod 16) buf)
    (str + BC_MUL_UINT_DIGITS a - 1) (BC_MUL_UINT_DIGITS a).
Proof.
  intros HF Hs HL. destruct a; cbn [bc_parse_chunk_chars BC_MUL_UINT_DIGITS].
  - unfold bc_parse_chunk_chars_32. rewrite bytes_at_4.
    rewrite (load_bswap e 4) by (repeat constructor; apply rd_byte; assumption).
    rewrite weighted_sum_4, !rd_map_mod16.
    replace (str + 4 - 1 - 3) with str by lia.
    replace (str + 4 - 1 - 2) with (str + 1) by lia.
    replace (str + 4 - 1 - 1) with (str + 2) by lia.
    replace (str + 4 - 1) with (str + 3) by lia.
    apply parse_chunk_32_nibbles; apply rd_byte; assumption.
  - unfold bc_parse_chunk_chars_64. rewrite bytes_at_8.
    rewrite (load_bswap e 8) by (repeat constructor; apply rd_byte; assumption).
    rewrite weighted_sum_8, !rd_map_mod16.
    replace (str + 8 - 1 - 7) with str by lia.
    replace (str + 8 - 1 - 6) with (str + 1) by lia.
    replace (str + 8 - 1 - 5) with (str + 2) by lia.
    replace (str + 8 - 1 - 4) with (str + 3) by lia.
    replace (str + 8 - 1 - 3) with (str + 4) by lia.
    replace (str + 8 - 1 - 2) with (str + 5) by lia.
    replace (str + 8 - 1 - 1) with (str + 6) by lia.
    replace (str + 8 - 1) with (str + 7) by lia.
    apply parse_chunk_64_nibbles; apply rd_byte; assumption.
Qed.

(** The ASCII text "20240131" read as eight digits. *)
Lemma bc_parse_chunk_chars_low_nibbles_witness :
  let buf := [50; 48; 50; 52; 48; 49; 51; 49] in
  Forall (fun b => 0 <= b < 256) buf /\ 0 <= 0 /\
  0 + BC_MUL_UINT_DIGITS Arch64 <= Z.of_nat (length buf) /\
  bc_parse_chunk_chars Arch64 BigEndian buf 0 = 20240131.
Proof.
  cbv zeta.
  assert (HF : Forall (fun b => 0 <= b < 256) [50; 48; 50; 52; 48; 49; 51; 49])
    by (repeat constructor; lia).
  assert (Hs : 0 <= 0) by lia.
  assert (HL : 0 + BC_MUL_UINT_DIGITS Arch64 <=
               Z.of_nat (length [50; 48; 50; 52; 48; 49; 51; 49])) by (cbn; lia).
  exact (conj HF (conj Hs (conj HL
    (bc_parse_chunk_chars_low_nibbles Arch64 BigEndian
       [50; 48; 50; 52; 48; 49; 51; 49] 0 HF Hs HL)))).
Defined.

(** ** More about [bc_convert_to_uint] *)

(** A limb of a normalised array is read off its value. *)
Lemma limb_of_value a l i :
  Forall (limb_ok a) l -> 0 <= i < Z.of_nat (length l) ->
  rd l i = (limbs_value a l / BC_MUL_UINT_OVERFLOW a ^ i) mod BC_MUL_UINT_OVERFLOW a.
Proof.
  intros HF Hi. pose proof (OVERFLOW_pos a) as HB.
  set (B := BC_MUL_UINT_OVERFLOW a) in *.
  assert (E : l = firstn (Z.to_nat i) l ++ rd l i :: skipn (Z.to_nat (i + 1)) l).
  { rewrite <- (firstn_skipn (Z.to_nat (i + 1)) l) at 1.
    rewrite firstn_succ_rd by lia. now rewrite <- app_assoc. }
  assert (HFl : Forall (limb_ok a) (firstn (Z.to_nat i) l)).
  { rewrite <- (firstn_skipn (Z.to_nat i) l) in HF.
    now apply Forall_app in HF as [H _]. }
  pose proof (limbs_value_bound a _ HFl) as Hb.
  rewrite length_firstn, Nat.min_l, Z2Nat.id in Hb by lia. fold B in Hb.
  pose proof (Forall_rd _ l i HF Hi) as Hx. unfold limb_ok in Hx. fold B in Hx.
  set (lo := limbs_value a (firstn (Z.to_nat i) l)) in *.
  set (hi := limbs_value a (skipn (Z.to_nat (i + 1)) l)).
  assert (Ev : limbs_value a l = lo + B ^ i * (rd l i + B * hi)).
  { rewrite E at 1. rewrite limbs_value_app. cbn [limbs_value].
    rewrite length_firstn, Nat.min_l, Z2Nat.id by lia. reflexivity. }
  assert (Hpi : 0 < B ^ i) by (apply Z.pow_pos_nonneg; lia).
  replace (limbs_value a l / B ^ i) with (rd l i + B * hi)
    by (rewrite Ev; apply Z.div_unique with (r := lo); lia).
  apply Z.mod_unique with (q := hi); lia.
Qed.

(** X1: [bc_convert_to_uint] cuts the [nlen] digits of a number into groups
    of [W], from the least significant end (the last group may be shorter):
    limb [i] is the number written by group [i], so it is below [10 ^ W],
    and the array as a whole stands for the number the digits write. *)
Theorem bc_convert_to_uint_limbs a e n_uint buf nlen :
  Forall is_digit buf ->
  0 <= nlen <= Z.of_nat (length buf) ->
  Z.of_nat (length n_uint) = arr_size a nlen ->
  let r := bc_convert_to_uint a e n_uint buf (nlen - 1) nlen in
  let W := BC_MUL_UINT_DIGITS a in
  length r = length n_uint /\
  limbs_value a r = digits_value (firstn (Z.to_nat nlen) buf) /\
  forall i, 0 <= i < arr_size a nlen ->
    rd r i = weighted_sum buf (nlen - 1 - W * i) (Z.min W (nlen - W * i)) /\
    0 <= rd r i < 10 ^ W.
Proof.
  intros HF Hn HL. cbv zeta.
  destruct (bc_convert_to_uint_spec a e n_uint buf nlen HF ltac:(lia) HL)
    as (HLr & Hok & Hv).
  set (r := bc_convert_to_uint a e n_uint buf (nlen - 1) nlen) in *.
  pose proof (OVERFLOW_pos a) as HB. pose proof (DIGITS_pos a) as HW.
  split; [assumption|]. split; [rewrite Hv; apply weighted_sum_firstn; lia|].
  intros i Hi.
  assert (Hir : 0 <= i < Z.of_nat (length r)) by lia.
  pose proof (Forall_rd _ r i Hok Hir) as Hx. unfold limb_ok in Hx.
  split; [|now rewrite <- OVERFLOW_pow].
  rewrite (limb_of_value a r i Hok Hir), Hv.
  set (W := BC_MUL_UINT_DIGITS a) in *. set (B := BC_MUL_UINT_OVERFLOW a) in *.
  assert (Hlo : W * i < nlen).
  { unfold arr_size in Hi. fold W in Hi.
    assert (i <= (nlen + W - 1) / W - 1) by lia.
    assert (W * ((nlen + W - 1) / W) <= nlen + W - 1)
      by (apply Z.mul_div_le; lia).
    nia. }
  set (m := Z.min W (nlen - W * i)).
  assert (Hm : 1 <= m <= W) by (unfold m; lia).
  replace nlen with (W * i + (m + (nlen - W * i - m))) at 2 by lia.
  rewrite weighted_sum_split by (unfold m; nia).
  rewrite weighted_sum_split by (unfold m; lia).
  replace (nlen - 1 - W * i) with (nlen - 1 - W * i) by lia.
  pose proof (weighted_sum_bound buf (nlen - 1) (W * i) HF ltac:(nia)) as Hb0.
  pose proof (weighted_sum_bound buf (nlen - 1 - W * i) m HF ltac:(lia)) as Hb1.
  pose proof (weighted_sum_bound buf (nlen - 1 - W * i - m)
                (nlen - W * i - m) HF ltac:(unfold m; lia)) as Hb2.
  set (lo := weighted_sum buf (nlen - 1) (W * i)) in *.
  set (c := weighted_sum buf (nlen - 1 - W * i) m) in *.
  set (hi := weighted_sum buf (nlen - 1 - W * i - m) (nlen - W * i - m)) in *.
  assert (EB : B ^ i = 10 ^ (W * i)).
  { unfold B. rewrite OVERFLOW_pow. fold W. now rewrite <- Z.pow_mul_r by lia. }
  rewrite EB.
  assert (Hp : 0 < 10 ^ (W * i)) by (apply Z.pow_pos_nonneg; nia).
  replace ((lo + 10 ^ (W * i) * (c + 10 ^ m * hi)) / 10 ^ (W * i))
    with (c + 10 ^ m * hi) by (apply Z.div_unique with (r := lo); lia).
  pose proof (pow10_DIGITS_small a m ltac:(fold W; lia)) as Hpm. fold B in Hpm.
  destruct (Z.eq_dec m W) as [E|E].
  - replace (10 ^ m) with B
      by (rewrite E; unfold B, W; now rewrite OVERFLOW_pow).
    symmetry. apply Z.mod_unique with (q := hi); [|lia].
    left. split; [lia|]. rewrite E in Hb1. unfold W in Hb1.
    rewrite <- OVERFLOW_pow in Hb1. fold B in Hb1. lia.
  - assert (Ehi : hi = 0).
    { unfold hi. replace (nlen - W * i - m) with 0 by (unfold m in *; lia).
      apply weighted_sum_0. }
    rewrite Ehi, Z.mul_0_r, Z.add_0_r. apply Z.mod_small. lia.
Qed.

(** The table of the source comment:
    12345678901234567890 => {34567890, 56789012, 1234}. *)
Lemma bc_convert_to_uint_limbs_witness :
  let buf := [1;2;3;4;5;6;7;8;9;0;1;2;3;4;5;6;7;8;9;0] in
  let r := bc_convert_to_uint Arch64 LittleEndian [7; 7; 7] buf (20 - 1) 20 in
  Forall is_digit buf /\ 0 <= 20 <= Z.of_nat (length buf) /\
  Z.of_nat (length [7; 7; 7]) = arr_size Arch64 20 /\
  r = [34567890; 56789012; 1234] /\
  limbs_value Arch64 r = digits_value (firstn (Z.to_nat 20) buf).
Proof.
  cbv zeta.
  assert (HF : Forall is_digit [1;2;3;4;5;6;7;8;9;0;1;2;3;4;5;6;7;8;9;0])
    by prove_digits.
  assert (Hn : 0 <= 20 <=
               Z.of_nat (length [1;2;3;4;5;6;7;8;9;0;1;2;3;4;5;6;7;8;9;0]))
    by (cbn; lia).
  assert (HL : Z.of_nat (length [7; 7; 7]) = arr_size Arch64 20) by reflexivity.
  exact (conj HF (conj Hn (conj HL (conj eq_refl
    (proj1 (proj2 (bc_convert_to_uint_limbs Arch64 LittleEndian [7; 7; 7]
                     [1;2;3;4;5;6;7;8;9;0;1;2;3;4;5;6;7;8;9;0] 20
                     HF Hn HL))))))).
Defined.

(** ** More about the accumulator *)

Lemma wr_rd_same l i : wr l i (rd l i) = l.
Proof.
  destruct (Z_lt_dec i 0) as [Hn|Hn].
  - unfold wr. destruct (i <? 0) eqn:E; [reflexivity|lia].
  - destruct (Z_lt_dec i (Z.of_nat (length l))) as [Hi|Hi].
    + apply list_eq_rd; [apply length_wr|].
      intros j Hj. destruct (Z.eq_dec i j) as [<-|Hne].
      * apply rd_wr_same. lia.
      * now apply rd_wr_other.
    + apply list_eq_rd; [apply length_wr|].
      intros j Hj. rewrite length_wr in Hj. apply rd_wr_other. lia.
Qed.

(** A pass over an accumulator whose lower slots are already below
    [10 ^ W] changes nothing. *)
Lemma bc_digits_adjustment_normal a s n :
  Z.of_nat (length (acc_prod s)) = n -> slots_ok a (acc_prod s) ->
  (forall j, 0 <= j < n - 1 -> rd (acc_prod s) j < BC_MUL_UINT_OVERFLOW a) ->
  bc_digits_adjustment a s n = s.
Proof.
  intros HL HS Hlow. unfold bc_digits_adjustment.
  destruct (Z_le_dec (n - 1) 0) as [Hn|Hn]; [now apply for_loop_nonpos|].
  apply (for_loop_inv (fun _ t => t = s)); [lia|reflexivity|].
  intros i t Hi ->. pose proof (OVERFLOW_pos a) as HB.
  pose proof (slots_ok_rd a (acc_prod s) i HS) as Hri.
  pose proof (slots_ok_rd a (acc_prod s) (i + 1) HS) as Hri1.
  specialize (Hlow i Hi).
  unfold acc_add. cbn [acc_prod acc_ovf].
  rewrite (Z.div_small (rd (acc_prod s) i)) by lia. rewrite Z.add_0_r.
  rewrite uwrap_small by assumption. rewrite wr_rd_same.
  rewrite exceeds_small by lia. rewrite orb_false_r.
  rewrite Z.mod_small by lia. rewrite wr_rd_same.
  destruct s; reflexivity.
Qed.

(** X4: [bc_digits_adjustment] is idempotent: after a pass in which no
    addition wrapped, a second pass leaves the accumulator as it is. *)
Theorem bc_digits_adjustment_idempotent a s n :
  Z.of_nat (length (acc_prod s)) = n -> 1 <= n -> slots_ok a (acc_prod s) ->
  acc_ovf (bc_digits_adjustment a s n) = false ->
  bc_digits_adjustment a (bc_digits_adjustment a s n) n =
  bc_digits_adjustment a s n.
Proof.
  intros HL Hn HS Hov.
  destruct (bc_digits_adjustment_spec a s n HL Hn HS Hov)
    as (_ & HL' & HS' & Hlow & _).
  apply bc_digits_adjustment_normal; [lia|assumption|].
  intros j Hj. apply Hlow. assumption.
Qed.

Lemma bc_digits_adjustment_idempotent_witness :
  let s := {| acc_prod := [123456789; 4000000000; 7]; acc_ovf := false |} in
  Z.of_nat (length (acc_prod s)) = 3 /\ 1 <= 3 /\
  slots_ok Arch32 (acc_prod s) /\
  acc_ovf (bc_digits_adjustment Arch32 s 3) = false /\
  bc_digits_adjustment Arch32 (bc_digits_adjustment Arch32 s 3) 3 =
  bc_digits_adjustment Arch32 s 3.
Proof.
  cbv zeta.
  assert (HL : Z.of_nat (length (acc_prod
                 {| acc_prod := [123456789; 4000000000; 7];
                    acc_ovf := false |})) = 3) by reflexivity.
  assert (Hn : 1 <= 3) by lia.
  assert (HS : slots_ok Arch32 (acc_prod
                 {| acc_prod := [123456789; 4000000000; 7];
                    acc_ovf := false |}))
    by (repeat constructor; vm_compute; discriminate).
  assert (Hov : acc_ovf (bc_digits_adjustment Arch32
                  {| acc_prod := [123456789; 4000000000; 7];
                     acc_ovf := false |} 3) = false) by reflexivity.
  exact (conj HL (conj Hn (conj HS (conj Hov
    (bc_digits_adjustment_idempotent Arch32
       {| acc_prod := [123456789; 4000000000; 7]; acc_ovf := false |} 3
       HL Hn HS Hov))))).
Defined.

(** X3: after the multiply-and-add loops and the final adjustment the
    accumulator of [bc_standard_mul] has [n1_arr_size + n2_arr_size - 1]
    slots and stands for the product of the two operands read as integers;
    every slot but the last is below [10 ^ W] and the last is below
    [(10 ^ W) ^ 2]. *)
Theorem bc_standard_mul_acc_product junk a e n1 n1len n2 n2len :
  Forall is_digit (n_value n1) -> Forall is_digit (n_value n2) ->
  1 <= n1len <= Z.of_nat (length (n_value n1)) ->
  1 <= n2len <= Z.of_nat (length (n_value n2)) ->
  let p := arr_size a n1len + arr_size a n2len - 1 in
  let acc := acc_prod (bc_standard_mul_acc junk a e n1 n1len n2 n2len) in
  Z.of_nat (length acc) = p /\
  limbs_value a acc =
    digits_value (firstn (Z.to_nat n1len) (n_value n1)) *
    digits_value (firstn (Z.to_nat n2len) (n_value n2)) /\
  (forall j, 0 <= j < p - 1 -> 0 <= rd acc j < BC_MUL_UINT_OVERFLOW a) /\
  0 <= rd acc (p - 1) < BC_MUL_UINT_OVERFLOW a ^ 2.
Proof.
  intros HF1 HF2 H1 H2. cbv zeta.
  pose proof (arr_size_pos a n1len ltac:(lia)) as Ha1.
  pose proof (arr_size_pos a n2len ltac:(lia)) as Ha2.
  destruct (bc_standard_mul_acc_spec junk a e n1 n1len n2 n2len HF1 HF2
              ltac:(lia) ltac:(lia) ltac:(lia)) as (_ & HL & HS & Hlow & Hv).
  set (p := arr_size a n1len + arr_size a n2len - 1) in *.
  set (acc := acc_prod (bc_standard_mul_acc junk a e n1 n1len n2 n2len)) in *.
  pose proof (OVERFLOW_pos a) as HB. pose proof (DIGITS_pos a) as HW.
  rewrite !weighted_sum_firstn in Hv by lia.
  split; [assumption|]. split; [assumption|]. split; [assumption|].
  split; [apply (slots_ok_rd a acc (p - 1) HS)|].
  - (* the product has at most [len1 + len2] digits *)
    rewrite (limbs_value_last a acc p HL ltac:(lia) Hlow), Hv.
    assert (Hd1 : Forall is_digit (firstn (Z.to_nat n1len) (n_value n1))).
    { rewrite <- (firstn_skipn (Z.to_nat n1len) (n_value n1)) in HF1.
      now apply Forall_app in HF1 as [H _]. }
    assert (Hd2 : Forall is_digit (firstn (Z.to_nat n2len) (n_value n2))).
    { rewrite <- (firstn_skipn (Z.to_nat n2len) (n_value n2)) in HF2.
      now apply Forall_app in HF2 as [H _]. }
    pose proof (digits_value_bound _ Hd1) as Hb1.
    pose proof (digits_value_bound _ Hd2) as Hb2.
    rewrite length_firstn, Nat.min_l, Z2Nat.id in Hb1, Hb2 by lia.
    set (x1 := digits_value (firstn (Z.to_nat n1len) (n_value n1))) in *.
    set (x2 := digits_value (firstn (Z.to_nat n2len) (n_value n2))) in *.
    pose proof (arr_size_bounds a n1len ltac:(lia)) as Hs1.
    pose proof (arr_size_bounds a n2len ltac:(lia)) as Hs2.
    set (W := BC_MUL_UINT_DIGITS a) in *. set (B := BC_MUL_UINT_OVERFLOW a) in *.
    assert (Hx : x1 * x2 < B ^ (p - 1) * B ^ 2).
    { rewrite <- Z.pow_add_r by lia. unfold B. rewrite OVERFLOW_pow. fold W.
      rewrite <- Z.pow_mul_r by lia.
      assert (10 ^ n1len * 10 ^ n2len <= 10 ^ (W * (p - 1 + 2))).
      { rewrite <- Z.pow_add_r by lia. apply Z.pow_le_mono_r; [lia|].
        unfold p. lia. }
      assert (0 < 10 ^ n1len) by (apply Z.pow_pos_nonneg; lia).
      assert (0 < 10 ^ n2len) by (apply Z.pow_pos_nonneg; lia).
      nia. }
    apply Z.div_lt_upper_bound; [apply Z.pow_pos_nonneg; lia|assumption].
Qed.

Lemma bc_standard_mul_acc_product_witness :
  Forall is_digit (n_value sample_a) /\ Forall is_digit (n_value sample_b) /\
  1 <= 11 <= Z.of_nat (length (n_value sample_a)) /\
  1 <= 6 <= Z.of_nat (length (n_value sample_b)) /\
  acc_prod (bc_standard_mul_acc sample_junk Arch32 BigEndian
              sample_a 11 sample_b 6) = [3872; 2958; 6296; 5] /\
  limbs_value Arch32
    (acc_prod (bc_standard_mul_acc sample_junk Arch32 BigEndian
                 sample_a 11 sample_b 6)) =
  digits_value (firstn (Z.to_nat 11) (n_value sample_a)) *
  digits_value (firstn (Z.to_nat 6) (n_value sample_b)).
Proof.
  assert (Ha : Forall is_digit (n_value sample_a)) by (cbn; prove_digits).
  assert (Hb : Forall is_digit (n_value sample_b)) by (cbn; prove_digits).
  assert (H1 : 1 <= 11 <= Z.of_nat (length (n_value sample_a))) by (cbn; lia).
  assert (H2 : 1 <= 6 <= Z.of_nat (length (n_value sample_b))) by (cbn; lia).
  exact (conj Ha (conj Hb (conj H1 (conj H2 (conj eq_refl
    (proj1 (proj2 (bc_standard_mul_acc_product sample_junk Arch32 BigEndian
                     sample_a 11 sample_b 6 Ha Hb H1 H2)))))))).
Defined.

(** ** Packing and unpacking are inverse *)

Lemma bytes_at_nth buf str (n : nat) :
  bytes_at buf str (Z.of_nat n) =
  map (fun k => rd buf (str + Z.of_nat k)) (seq 0 n).
Proof.
  unfold bytes_at, zrange. rewrite Nat2Z.id, map_map. reflexivity.
Qed.

Lemma map_nth_seq (l : list Z) :
  map (fun k => nth k l 0) (seq 0 (length l)) = l.
Proof.
  induction l as [|x l IH]; [reflexivity|].
  cbn [length seq map nth]. f_equal.
  rewrite <- seq_shift, map_map. exact IH.
Qed.

Lemma bytes_at_mid A l D :
  bytes_at (A ++ l ++ D) (Z.of_nat (length A)) (Z.of_nat (length l)) = l.
Proof.
  rewrite bytes_at_nth.
  transitivity (map (fun k => nth k l 0) (seq 0 (length l)));
    [|apply map_nth_seq].
  apply map_ext_in. intros k Hk. apply in_seq in Hk.
  rewrite rd_app_r by lia.
  replace (Z.of_nat (length A) + Z.of_nat k - Z.of_nat (length A))
    with (Z.of_nat k) by lia.
  rewrite rd_app_l by lia. unfold rd.
  destruct (Z.of_nat k <? 0) eqn:E; [lia|]. now rewrite Nat2Z.id.
Qed.

(** [bc_parse_chunk_chars] depends on the [W] bytes at [str] only. *)
Lemma bc_parse_chunk_chars_bytes a e buf str buf' str' :
  bytes_at buf str (BC_MUL_UINT_DIGITS a) =
  bytes_at buf' str' (BC_MUL_UINT_DIGITS a) ->
  bc_parse_chunk_chars a e buf str = bc_parse_chunk_chars a e buf' str'.
Proof.
  destruct a; cbn [bc_parse_chunk_chars BC_MUL_UINT_DIGITS]; intros H;
    unfold bc_parse_chunk_chars_32, bc_parse_chunk_chars_64; now rewrite H.
Qed.

(** Reading back [W] digits placed anywhere in a buffer. *)
Lemma bc_parse_chunk_chars_to_digits a e A D x :
  0 <= x < BC_MUL_UINT_OVERFLOW a ->
  bc_parse_chunk_chars a e
    (A ++ to_digits (Z.to_nat (BC_MUL_UINT_DIGITS a)) x ++ D)
    (Z.of_nat (length A)) = x.
Proof.
  intros Hx. pose proof (DIGITS_pos a) as HW.
  set (l := to_digits (Z.to_nat (BC_MUL_UINT_DIGITS a)) x).
  assert (Hl : Z.of_nat (length l) = BC_MUL_UINT_DIGITS a)
    by (unfold l; rewrite length_to_digits; lia).
  rewrite (bc_parse_chunk_chars_bytes a e _ _ l 0).
  - replace 0 with (BC_MUL_UINT_DIGITS a - 1 - BC_MUL_UINT_DIGITS a + 1) by lia.
    rewrite bc_parse_chunk_chars_spec by apply to_digits_digit.
    rewrite <- Hl. rewrite <- (app_nil_r l) at 1.
    rewrite weighted_sum_digits_value. unfold l.
    rewrite digits_value_to_digits, Z2Nat.id, <- OVERFLOW_pow by lia.
    apply Z.mod_small. assumption.
  - rewrite <- Hl. rewrite bytes_at_mid.
    pose proof (bytes_at_mid [] l []) as E. cbn [app length] in E.
    change (Z.of_nat 0) with 0 in E.
    rewrite app_nil_r in E. now rewrite E.
Qed.

(** The digits that one unpacking step writes. *)
Lemma emit_limb_out a e s :
  0 <= rd (em_prod s) (em_i s) < BC_MUL_UINT_OVERFLOW a ->
  BC_MUL_UINT_DIGITS a - 1 <= em_pend s < Z.of_nat (length (em_out s)) ->
  em_out (emit_limb a e s) =
  firstn (Z.to_nat (em_pend s + 1 - BC_MUL_UINT_DIGITS a)) (em_out s) ++
  to_digits (Z.to_nat (BC_MUL_UINT_DIGITS a)) (rd (em_prod s) (em_i s)) ++
  skipn (Z.to_nat (em_pend s + 1)) (em_out s).
Proof.
  intros Hx Hp. pose proof (DIGITS_pos a) as HW.
  set (x := rd (em_prod s) (em_i s)) in *.
  set (pre := firstn (Z.to_nat (em_pend s + 1)) (em_out s)).
  set (D := skipn (Z.to_nat (em_pend s + 1)) (em_out s)).
  assert (Eout : em_out s = pre ++ D) by (symmetry; apply firstn_skipn).
  assert (Hpre : Z.of_nat (length pre) = em_pend s + 1)
    by (unfold pre; rewrite length_firstn; lia).
  assert (Hfirst : forall k, 0 <= k <= em_pend s + 1 ->
            firstn (Z.to_nat k) pre = firstn (Z.to_nat k) (em_out s)).
  { intros k Hk. unfold pre. rewrite firstn_firstn.
    now rewrite Nat.min_l by lia. }
  destruct a; cbn [emit_limb em_out BC_MUL_UINT_DIGITS BC_MUL_UINT_OVERFLOW] in *;
    fold x; rewrite Eout.
  - rewrite bc_write_bcd_representation_spec by lia.
    replace (em_pend s + 1 - 4) with (em_pend s - 3) by lia.
    change (Z.to_nat 4) with 4%nat. rewrite Hfirst by lia.
    now rewrite <- Eout.
  - rewrite !wrap_small by (change (2 ^ 32) with 4294967296; dlia).
    rewrite <- (firstn_skipn (Z.to_nat (em_pend s - 3)) pre) at 1.
    rewrite <- app_assoc.
    rewrite bc_write_bcd_representation_spec
      by (try dlia; rewrite length_firstn; lia).
    rewrite firstn_firstn.
    replace (Init.Nat.min (Z.to_nat (em_pend s - 7)) (Z.to_nat (em_pend s - 3)))
      with (Z.to_nat (em_pend s - 7)) by lia.
    rewrite !app_assoc. rewrite <- (app_assoc (firstn _ pre)).
    rewrite bc_write_bcd_representation_spec;
      [ | dlia | lia
        | rewrite !length_app, length_firstn, length_to_digits, length_skipn; lia ].
    rewrite (app_assoc (firstn _ pre) (to_digits 4 _) (skipn _ pre)).
    rewrite firstn_app.
    rewrite firstn_all2
      by (rewrite length_app, length_firstn, length_to_digits; lia).
    replace (Z.to_nat (em_pend s - 3) -
             length (firstn (Z.to_nat (em_pend s - 7)) pre ++
                     to_digits 4 (x / 10000)))%nat with O
      by (rewrite length_app, length_firstn, length_to_digits; lia).
    cbn [firstn]. rewrite app_nil_r, <- !app_assoc.
    replace (em_pend s + 1 - 8) with (em_pend s - 7) by lia.
    rewrite Hfirst by lia. rewrite <- Eout. f_equal.
    change (Z.to_nat 8) with (4 + 4)%nat.
    rewrite to_digits_app. change (10 ^ Z.of_nat 4) with 10000.
    rewrite <- (to_digits_mod 4 x). change (10 ^ Z.of_nat 4) with 10000.
    now rewrite <- !app_assoc.
Qed.

(** X5: unpacking a limb below [10 ^ W] with the table
    ([bc_write_bcd_representation], once or twice) and packing the [W]
    bytes written again ([bc_partial_convert_to_uint]) gives the limb
    back, also when the two are done with different byte orders; the
    bytes outside the [W] written are left as they were. *)
Theorem emit_limb_round_trip a e e' s :
  0 <= rd (em_prod s) (em_i s) < BC_MUL_UINT_OVERFLOW a ->
  BC_MUL_UINT_DIGITS a - 1 <= em_pend s < Z.of_nat (length (em_out s)) ->
  let s' := emit_limb a e s in
  bc_partial_convert_to_uint a e' (em_out s') (em_pend s)
    (BC_MUL_UINT_DIGITS a) = rd (em_prod s) (em_i s) /\
  em_pend s' = em_pend s - BC_MUL_UINT_DIGITS a /\
  firstn (Z.to_nat (em_pend s' + 1)) (em_out s') =
    firstn (Z.to_nat (em_pend s' + 1)) (em_out s) /\
  skipn (Z.to_nat (em_pend s + 1)) (em_out s') =
    skipn (Z.to_nat (em_pend s + 1)) (em_out s).
Proof.
  intros Hx Hp. cbv zeta. pose proof (DIGITS_pos a) as HW.
  rewrite (emit_limb_out a e s Hx Hp).
  assert (Epend : em_pend (emit_limb a e s) = em_pend s - BC_MUL_UINT_DIGITS a)
    by (destruct a; reflexivity).
  rewrite Epend.
  set (A := firstn (Z.to_nat (em_pend s + 1 - BC_MUL_UINT_DIGITS a)) (em_out s)).
  set (l := to_digits (Z.to_nat (BC_MUL_UINT_DIGITS a)) (rd (em_prod s) (em_i s))).
  set (D := skipn (Z.to_nat (em_pend s + 1)) (em_out s)).
  assert (HA : Z.of_nat (length A) = em_pend s + 1 - BC_MUL_UINT_DIGITS a)
    by (unfold A; rewrite length_firstn; lia).
  assert (Hl : Z.of_nat (length l) = BC_MUL_UINT_DIGITS a)
    by (unfold l; rewrite length_to_digits; lia).
  repeat split.
  - unfold bc_partial_convert_to_uint. rewrite Z.eqb_refl.
    replace (em_pend s - BC_MUL_UINT_DIGITS a + 1) with (Z.of_nat (length A)) by lia.
    now apply bc_parse_chunk_chars_to_digits.
  - replace (em_pend s - BC_MUL_UINT_DIGITS a + 1)
      with (em_pend s + 1 - BC_MUL_UINT_DIGITS a) by lia.
    rewrite firstn_app.
    replace (Z.to_nat (em_pend s + 1 - BC_MUL_UINT_DIGITS a) - length A)%nat
      with O by lia.
    cbn [firstn]. rewrite app_nil_r. rewrite firstn_all2 by lia. reflexivity.
  - rewrite app_assoc. rewrite skipn_app.
    rewrite skipn_all2 by (rewrite length_app; lia).
    replace (Z.to_nat (em_pend s + 1) - length (A ++ l))%nat with O
      by (rewrite length_app; lia).
    reflexivity.
Qed.

Lemma emit_limb_round_trip_witness :
  let s := {| em_out := [0; 0; 7; 7; 7; 7; 7; 7; 7; 7; 1; 2];
              em_pend := 9; em_i := 1;
              em_prod := [5; 12345678; 9]; em_log := [] |} in
  0 <= rd (em_prod s) (em_i s) < BC_MUL_UINT_OVERFLOW Arch64 /\
  BC_MUL_UINT_DIGITS Arch64 - 1 <= em_pend s < Z.of_nat (length (em_out s)) /\
  em_out (emit_limb Arch64 LittleEndian s) =
    [0; 0; 1; 2; 3; 4; 5; 6; 7; 8; 1; 2] /\
  bc_partial_convert_to_uint Arch64 BigEndian
    (em_out (emit_limb Arch64 LittleEndian s)) (em_pend s)
    (BC_MUL_UINT_DIGITS Arch64) = rd (em_prod s) (em_i s).
Proof.
  cbv zeta.
  set (s := {| em_out := [0; 0; 7; 7; 7; 7; 7; 7; 7; 7; 1; 2];
               em_pend := 9; em_i := 1;
               em_prod := [5; 12345678; 9]; em_log := [] |}).
  assert (Hx : 0 <= rd (em_prod s) (em_i s) < BC_MUL_UINT_OVERFLOW Arch64)
    by (vm_compute; split; [discriminate|reflexivity]).
  assert (Hp : BC_MUL_UINT_DIGITS Arch64 - 1 <= em_pend s <
               Z.of_nat (length (em_out s)))
    by (vm_compute; split; [discriminate|reflexivity]).
  exact (conj Hx (conj Hp (conj eq_refl
    (proj1 (emit_limb_round_trip Arch64 LittleEndian BigEndian s Hx Hp))))).
Defined.

(** X6: packing the digits of a number into limbs ([bc_convert_to_uint])
    and converting the limb array back ([bc_standard_mul]'s conversion to
    digits: whole limbs, then the last one digit by digit) returns the
    digits, whatever the output buffer held before. *)
Theorem convert_emit_round_trip junk a e n_uint buf :
  Forall is_digit buf -> (1 <= length buf)%nat ->
  Z.of_nat (length n_uint) = arr_size a (Z.of_nat (length buf)) ->
  let nlen := Z.of_nat (length buf) in
  let limbs := bc_convert_to_uint a e n_uint buf (nlen - 1) nlen in
  em_out (bc_standard_mul_emit junk a e limbs (arr_size a nlen) nlen) = buf.
Proof.
  intros HF Hlen HL. cbv zeta.
  set (nlen := Z.of_nat (length buf)) in *.
  destruct (bc_convert_to_uint_spec a e n_uint buf nlen HF ltac:(lia) HL)
    as (HLr & Hok & Hv).
  set (limbs := bc_convert_to_uint a e n_uint buf (nlen - 1) nlen) in *.
  pose proof (arr_size_pos a nlen ltac:(lia)) as Hp.
  pose proof (arr_size_bounds a nlen ltac:(lia)) as Hb.
  assert (Hlow : forall j, 0 <= j < arr_size a nlen - 1 ->
            0 <= rd limbs j < BC_MUL_UINT_OVERFLOW a)
    by (intros j Hj; apply (Forall_rd _ limbs j Hok); lia).
  destruct (bc_standard_mul_emit_spec a e limbs (arr_size a nlen) nlen
              ltac:(lia) Hp Hlow ltac:(lia) junk) as (E & _).
  rewrite E, Hv.
  replace (weighted_sum buf (nlen - 1) nlen) with (digits_value buf).
  - unfold nlen. rewrite Nat2Z.id. now apply to_digits_digits_value.
  - pose proof (weighted_sum_digits_value buf []) as W.
    rewrite app_nil_r in W. symmetry. exact W.
Qed.

Lemma convert_emit_round_trip_witness :
  let buf := n_value sample_a in
  let limbs := bc_convert_to_uint Arch32 BigEndian [0; 0; 0] buf (11 - 1) 11 in
  Forall is_digit buf /\ (1 <= length buf)%nat /\
  Z.of_nat (length [0; 0; 0]) = arr_size Arch32 (Z.of_nat (length buf)) /\
  limbs = [8912; 4567; 123] /\
  em_out (bc_standard_mul_emit sample_junk Arch32 BigEndian limbs
            (arr_size Arch32 11) 11) = buf.
Proof.
  cbv zeta.
  assert (HF : Forall is_digit (n_value sample_a)) by (cbn; prove_digits).
  assert (Hlen : (1 <= length (n_value sample_a))%nat) by (cbn; lia).
  assert (HL : Z.of_nat (length [0; 0; 0]) =
               arr_size Arch32 (Z.of_nat (length (n_value sample_a))))
    by reflexivity.
  exact (conj HF (conj Hlen (conj HL (conj eq_refl
    (convert_emit_round_trip sample_junk Arch32 BigEndian [0; 0; 0]
       (n_value sample_a) HF Hlen HL))))).
Defined.

(** ** The two paths, each on its own *)

Lemma digits_value_firstn_bound l n :
  Forall is_digit l -> 0 <= n <= Z.of_nat (length l) ->
  0 <= digits_value (firstn (Z.to_nat n) l) < 10 ^ n.
Proof.
  intros HF Hn.
  assert (Hd : Forall is_digit (firstn (Z.to_nat n) l)).
  { rewrite <- (firstn_skipn (Z.to_nat n) l) in HF.
    now apply Forall_app in HF as [H _]. }
  pose proof (digits_value_bound _ Hd) as Hb.
  now rewrite length_firstn, Nat.min_l, Z2Nat.id in Hb by lia.
Qed.

Lemma digits_value_to_digits_product n1len n2len x1 x2 :
  0 <= n1len -> 0 <= n2len ->
  0 <= x1 < 10 ^ n1len -> 0 <= x2 < 10 ^ n2len ->
  digits_value (to_digits (Z.to_nat (n1len + n2len)) (x1 * x2)) = x1 * x2.
Proof.
  intros H1 H2 Hx1 Hx2. rewrite digits_value_to_digits, Z2Nat.id by lia.
  apply Z.mod_small. rewrite Z.pow_add_r by lia. nia.
Qed.

(** X7: on operands of 1 to [W] digits, [bc_fast_mul] multiplies the two
    packed words without leaving the native type and returns a positive
    number of scale 0 whose [len1 + len2] digits write the product of the
    operands read as integers. *)
Theorem bc_fast_mul_product junk a e n1 n1len n2 n2len :
  Forall is_digit (n_value n1) -> Forall is_digit (n_value n2) ->
  1 <= n1len <= BC_MUL_UINT_DIGITS a ->
  n1len <= Z.of_nat (length (n_value n1)) ->
  1 <= n2len <= BC_MUL_UINT_DIGITS a ->
  n2len <= Z.of_nat (length (n_value n2)) ->
  let x1 := digits_value (firstn (Z.to_nat n1len) (n_value n1)) in
  let x2 := digits_value (firstn (Z.to_nat n2len) (n_value n2)) in
  let r := bc_fast_mul junk a e n1 n1len n2 n2len in
  bc_partial_convert_to_uint a e (n_value n1) (n1len - 1) n1len *
  bc_partial_convert_to_uint a e (n_value n2) (n2len - 1) n2len
    <= BC_UINT_MAX a /\
  n_sign r = PLUS /\ n_len r = n1len + n2len /\ n_scale r = 0 /\
  Z.of_nat (length (n_value r)) = n1len + n2len /\
  Forall is_digit (n_value r) /\
  digits_value (n_value r) = x1 * x2.
Proof.
  intros HF1 HF2 H1 HL1 H2 HL2. cbv zeta.
  rewrite bc_fast_mul_spec by (assumption || lia).
  rewrite !bc_partial_convert_to_uint_spec by (assumption || lia).
  rewrite !weighted_sum_firstn by lia.
  pose proof (digits_value_firstn_bound _ n1len HF1 ltac:(lia)) as Hb1.
  pose proof (digits_value_firstn_bound _ n2len HF2 ltac:(lia)) as Hb2.
  pose proof (pow10_DIGITS_small a n1len ltac:(lia)) as Hp1.
  pose proof (pow10_DIGITS_small a n2len ltac:(lia)) as Hp2.
  pose proof (OVERFLOW_sq_max a) as Hsq.
  cbn [n_sign n_len n_scale n_value].
  split; [nia|]. repeat split.
  - rewrite length_to_digits. lia.
  - apply to_digits_digit.
  - apply (digits_value_to_digits_product n1len n2len); lia.
Qed.

Lemma bc_fast_mul_product_witness :
  Forall is_digit (n_value sample_c) /\ Forall is_digit (n_value sample_b) /\
  1 <= 3 <= BC_MUL_UINT_DIGITS Arch32 /\
  3 <= Z.of_nat (length (n_value sample_c)) /\
  1 <= 4 <= BC_MUL_UINT_DIGITS Arch32 /\
  4 <= Z.of_nat (length (n_value sample_b)) /\
  n_value (bc_fast_mul sample_junk Arch32 LittleEndian sample_c 3 sample_b 4)
  = [0; 0; 0; 3; 9; 9; 6] /\
  digits_value
    (n_value (bc_fast_mul sample_junk Arch32 LittleEndian sample_c 3 sample_b 4))
  = digits_value (firstn (Z.to_nat 3) (n_value sample_c)) *
    digits_value (firstn (Z.to_nat 4) (n_value sample_b)).
Proof.
  assert (Hc : Forall is_digit (n_value sample_c)) by (cbn; prove_digits).
  assert (Hb : Forall is_digit (n_value sample_b)) by (cbn; prove_digits).
  assert (H1 : 1 <= 3 <= BC_MUL_UINT_DIGITS Arch32) by (cbn; lia).
  assert (L1 : 3 <= Z.of_nat (length (n_value sample_c))) by (cbn; lia).
  assert (H2 : 1 <= 4 <= BC_MUL_UINT_DIGITS Arch32) by (cbn; lia).
  assert (L2 : 4 <= Z.of_nat (length (n_value sample_b))) by (cbn; lia).
  pose proof (bc_fast_mul_product sample_junk Arch32 LittleEndian
                sample_c 3 sample_b 4 Hc Hb H1 L1 H2 L2) as H.
  cbv zeta in H.
  exact (conj Hc (conj Hb (conj H1 (conj L1 (conj H2 (conj L2 (conj eq_refl
    (proj2 (proj2 (proj2 (proj2 (proj2 (proj2 H))))))))))))).
Defined.

(** X8: on operands of any number of digits (at least one each, also
    below [W]), [bc_standard_mul] returns a positive number of scale 0
    whose [len1 + len2] digits write the product of the operands read as
    integers; the result does not depend on what the allocated memory
    held. *)
Theorem bc_standard_mul_product junk junk' a e n1 n1len n2 n2len :
  Forall is_digit (n_value n1) -> Forall is_digit (n_value n2) ->
  1 <= n1len <= Z.of_nat (length (n_value n1)) ->
  1 <= n2len <= Z.of_nat (length (n_value n2)) ->
  let x1 := digits_value (firstn (Z.to_nat n1len) (n_value n1)) in
  let x2 := digits_value (firstn (Z.to_nat n2len) (n_value n2)) in
  let r := bc_standard_mul junk a e n1 n1len n2 n2len in
  n_sign r = PLUS /\ n_len r = n1len + n2len /\ n_scale r = 0 /\
  Z.of_nat (length (n_value r)) = n1len + n2len /\
  Forall is_digit (n_value r) /\
  digits_value (n_value r) = x1 * x2 /\
  r = bc_standard_mul junk' a e n1 n1len n2 n2len.
Proof.
  intros HF1 HF2 H1 H2. cbv zeta.
  pose proof (arr_size_pos a n1len ltac:(lia)) as Ha1.
  pose proof (arr_size_pos a n2len ltac:(lia)) as Ha2.
  rewrite !bc_standard_mul_spec by (assumption || lia).
  rewrite !weighted_sum_firstn by lia.
  pose proof (digits_value_firstn_bound _ n1len HF1 ltac:(lia)) as Hb1.
  pose proof (digits_value_firstn_bound _ n2len HF2 ltac:(lia)) as Hb2.
  cbn [n_sign n_len n_scale n_value]. repeat split.
  - rewrite length_to_digits. lia.
  - apply to_digits_digit.
  - apply (digits_value_to_digits_product n1len n2len); lia.
Qed.

Lemma bc_standard_mul_product_witness :
  Forall is_digit (n_value sample_a) /\ Forall is_digit (n_value sample_a) /\
  1 <= 11 <= Z.of_nat (length (n_value sample_a)) /\
  1 <= 11 <= Z.of_nat (length (n_value sample_a)) /\
  digits_value
    (n_value (bc_standard_mul sample_junk Arch64 LittleEndian
                sample_a 11 sample_a 11)) = 12345678912 * 12345678912.
Proof.
  assert (Ha : Forall is_digit (n_value sample_a)) by (cbn; prove_digits).
  assert (H1 : 1 <= 11 <= Z.of_nat (length (n_value sample_a))) by (cbn; lia).
  pose proof (bc_standard_mul_product sample_junk sample_junk Arch64
                LittleEndian sample_a 11 sample_a 11 Ha Ha H1 H1) as H.
  cbv zeta in H.
  exact (conj Ha (conj Ha (conj H1 (conj H1
    (proj1 (proj2 (proj2 (proj2 (proj2 (proj2 H)))))))))).
Defined.

(** ** More about [bc_multiply] *)

(** X9: [bc_multiply] returns the same number on 32-bit and 64-bit
    machines, on little-endian and big-endian machines, and whatever the
    memory it allocates held before. *)
Theorem bc_multiply_platform_independent
    junk1 junk2 a1 a2 e1 e2 n1 n2 scale :
  wf_num n1 -> wf_num n2 -> 0 <= scale ->
  bc_multiply junk1 a1 e1 n1 n2 scale = bc_multiply junk2 a2 e2 n1 n2 scale.
Proof.
  intros Hwf1 Hwf2 Hs.
  destruct (bc_multiply_spec junk1 a1 e1 n1 n2 scale Hwf1 Hwf2 Hs)
    as (Hsc & Hval & Hlen & Hnum & Hsign).
  destruct (bc_multiply_spec junk2 a2 e2 n1 n2 scale Hwf1 Hwf2 Hs)
    as (Hsc' & Hval' & Hlen' & Hnum' & Hsign').
  apply bc_num_eq.
  - rewrite Hsign, Hsign', Hnum, Hnum', Hsc, Hsc'. reflexivity.
  - now rewrite Hlen, Hlen'.
  - now rewrite Hsc, Hsc'.
  - now rewrite Hval, Hval'.
Qed.

Lemma bc_multiply_platform_independent_witness :
  wf_num sample_a /\ wf_num sample_b /\ 0 <= 5 /\
  bc_multiply sample_junk Arch32 BigEndian sample_a sample_b 5 =
  bc_multiply (fun _ => 0) Arch64 LittleEndian sample_a sample_b 5.
Proof.
  assert (Ha : wf_num sample_a) by prove_wf.
  assert (Hb : wf_num sample_b) by prove_wf.
  assert (Hs : 0 <= 5) by lia.
  exact (conj Ha (conj Hb (conj Hs
    (bc_multiply_platform_independent sample_junk (fun _ => 0)
       Arch32 Arch64 BigEndian LittleEndian sample_a sample_b 5 Ha Hb Hs)))).
Defined.

(** X10: when the result scale is the full scale
    [n1.scale + n2.scale] (the target scale is at least that, or one of the
    operands has scale 0), nothing is cut: the number returned is the
    product of the operands. *)
Theorem bc_multiply_exact_at_full_scale junk a e n1 n2 scale :
  wf_num n1 -> wf_num n2 -> 0 <= scale ->
  n_scale n1 + n_scale n2 <= Z.max scale (Z.max (n_scale n1) (n_scale n2)) ->
  let r := bc_multiply junk a e n1 n2 scale in
  n_scale r = n_scale n1 + n_scale n2 /\
  num_signed r = num_signed n1 * num_signed n2 /\
  (num_value r == num_value n1 * num_value n2)%Q.
Proof.
  intros Hwf1 Hwf2 Hs Hfull. cbv zeta.
  pose proof (num_signed_product junk a e n1 n2 scale Hwf1 Hwf2 Hs) as Hsigned.
  destruct (bc_multiply_spec junk a e n1 n2 scale Hwf1 Hwf2 Hs) as (Hsc & _).
  cbv zeta in Hsigned.
  set (r := bc_multiply junk a e n1 n2 scale) in *.
  assert (Esc : n_scale r = n_scale n1 + n_scale n2) by lia.
  rewrite Esc, Z.sub_diag, Z.quot_1_r in Hsigned.
  destruct Hwf1 as (_ & Hs1 & _). destruct Hwf2 as (_ & Hs2 & _).
  split; [assumption|]. split; [assumption|].
  unfold num_value. rewrite Hsigned, Esc.
  rewrite inject_Z_mult, Z.pow_add_r, inject_Z_mult by assumption.
  pose proof (inject_Z_pow10_nonzero (n_scale n1) Hs1).
  pose proof (inject_Z_pow10_nonzero (n_scale n2) Hs2).
  field. split; assumption.
Qed.

Lemma bc_multiply_exact_at_full_scale_witness :
  wf_num sample_a /\ wf_num sample_b /\ 0 <= 9 /\
  n_scale sample_a + n_scale sample_b <=
    Z.max 9 (Z.max (n_scale sample_a) (n_scale sample_b)) /\
  let r := bc_multiply sample_junk Arch64 BigEndian sample_a sample_b 9 in
  n_scale r = n_scale sample_a + n_scale sample_b /\
  num_signed r = num_signed sample_a * num_signed sample_b /\
  (num_value r == num_value sample_a * num_value sample_b)%Q.
Proof.
  assert (Ha : wf_num sample_a) by prove_wf.
  assert (Hb : wf_num sample_b) by prove_wf.
  assert (Hs : 0 <= 9) by lia.
  assert (Hf : n_scale sample_a + n_scale sample_b <=
               Z.max 9 (Z.max (n_scale sample_a) (n_scale sample_b)))
    by (cbn; lia).
  exact (conj Ha (conj Hb (conj Hs (conj Hf
    (bc_multiply_exact_at_full_scale sample_junk Arch64 BigEndian
       sample_a sample_b 9 Ha Hb Hs Hf))))).
Defined.

(** X11: the digits that [bc_multiply] drops are worth less than one unit
    of the last place kept, and the result is never larger in magnitude
    than the product: with [k] the number of digits dropped,
    [|r| * 10 ^ k <= |n1| * |n2| < (|r| + 1) * 10 ^ k]. *)
Theorem bc_multiply_truncation_error junk a e n1 n2 scale :
  wf_num n1 -> wf_num n2 -> 0 <= scale ->
  let r := bc_multiply junk a e n1 n2 scale in
  let k := n_scale n1 + n_scale n2 - n_scale r in
  0 <= k /\
  num_int r * 10 ^ k <= num_int n1 * num_int n2 < (num_int r + 1) * 10 ^ k.
Proof.
  intros Hwf1 Hwf2 Hs. cbv zeta.
  destruct (bc_multiply_spec junk a e n1 n2 scale Hwf1 Hwf2 Hs)
    as (Hsc & _ & _ & Hnum & _).
  destruct Hwf1 as (_ & Hs1 & _). destruct Hwf2 as (_ & Hs2 & _).
  set (r := bc_multiply junk a e n1 n2 scale) in *.
  set (k := n_scale n1 + n_scale n2 - n_scale r) in *.
  assert (Hk : 0 <= k) by (unfold k; lia).
  assert (Hp : 0 < 10 ^ k) by (apply Z.pow_pos_nonneg; lia).
  split; [assumption|]. rewrite Hnum.
  pose proof (Z.div_mod (num_int n1 * num_int n2) (10 ^ k) ltac:(lia)) as Hdm.
  pose proof (Z.mod_pos_bound (num_int n1 * num_int n2) (10 ^ k) Hp) as Hm.
  nia.
Qed.

Lemma bc_multiply_truncation_error_witness :
  wf_num sample_a /\ wf_num sample_b /\ 0 <= 0 /\
  let r := bc_multiply sample_junk Arch64 BigEndian sample_a sample_b 0 in
  let k := n_scale sample_a + n_scale sample_b - n_scale r in
  0 <= k /\
  num_int r * 10 ^ k <= num_int sample_a * num_int sample_b
    < (num_int r + 1) * 10 ^ k.
Proof.
  assert (Ha : wf_num sample_a) by prove_wf.
  assert (Hb : wf_num sample_b) by prove_wf.
  assert (Hs : 0 <= 0) by lia.
  exact (conj Ha (conj Hb (conj Hs
    (bc_multiply_truncation_error sample_junk Arch64 BigEndian
       sample_a sample_b 0 Ha Hb Hs)))).
Defined.

(** X12: changing the sign of the first operand, and nothing else,
    changes the sign of a non-zero result and nothing else; a zero result
    stays as it is. *)
Theorem bc_multiply_negate junk a e n1 n1' n2 scale :
  wf_num n1 -> wf_num n2 -> 0 <= scale ->
  n_len n1' = n_len n1 -> n_scale n1' = n_scale n1 ->
  n_value n1' = n_value n1 -> n_sign n1' <> n_sign n1 ->
  let r := bc_multiply junk a e n1 n2 scale in
  let r' := bc_multiply junk a e n1' n2 scale in
  n_value r' = n_value r /\ n_len r' = n_len r /\ n_scale r' = n_scale r /\
  num_signed r' = - num_signed r /\
  (num_int r <> 0 -> n_sign r' <> n_sign r) /\
  (num_int r = 0 -> r' = r).
Proof.
  intros Hwf1 Hwf2 Hs El Esc Ev Esg. cbv zeta.
  assert (Hwf1' : wf_num n1').
  { destruct Hwf1 as (H1 & H2 & H3 & H4). unfold wf_num.
    now rewrite El, Esc, Ev. }
  assert (Eint : num_int n1' = num_int n1)
    by (unfold num_int, num_digits; now rewrite El, Esc, Ev).
  destruct (bc_multiply_spec junk a e n1 n2 scale Hwf1 Hwf2 Hs)
    as (Hsc & Hval & Hlen & Hnum & Hsign).
  destruct (bc_multiply_spec junk a e n1' n2 scale Hwf1' Hwf2 Hs)
    as (Hsc' & Hval' & Hlen' & Hnum' & Hsign').
  rewrite El, Esc, Eint in *.
  set (r := bc_multiply junk a e n1 n2 scale) in *.
  set (r' := bc_multiply junk a e n1' n2 scale) in *.
  assert (Escr : n_scale r' = n_scale r) by lia.
  assert (Enum : num_int r' = num_int r) by (rewrite Hnum, Hnum', Escr; reflexivity).
  assert (Evr : n_value r' = n_value r) by (now rewrite Hval, Hval').
  assert (Elr : n_len r' = n_len r) by (now rewrite Hlen, Hlen').
  rewrite Enum in Hsign'.
  split; [assumption|]. split; [assumption|]. split; [assumption|].
  repeat split.
  - unfold num_signed. rewrite Hsign, Hsign', Enum.
    destruct (num_int r =? 0) eqn:Ez.
    + apply Z.eqb_eq in Ez. rewrite Ez. reflexivity.
    + destruct (n_sign n1), (n_sign n1'), (n_sign n2); cbn [sign_eqb];
        try lia; congruence.
  - intros Hnz. apply Z.eqb_neq in Hnz. rewrite Hsign, Hsign', Hnz.
    destruct (n_sign n1), (n_sign n1'), (n_sign n2); cbn [sign_eqb];
      congruence.
  - intros Hz. apply bc_num_eq; try assumption.
    rewrite Hsign, Hsign', Hz. reflexivity.
Qed.

Lemma bc_multiply_negate_witness :
  let n1' := {| n_sign := PLUS; n_len := 7; n_scale := 4;
                n_value := [1; 2; 3; 4; 5; 6; 7; 8; 9; 1; 2] |} in
  wf_num sample_a /\ wf_num sample_b /\ 0 <= 3 /\
  n_len n1' = n_len sample_a /\ n_scale n1' = n_scale sample_a /\
  n_value n1' = n_value sample_a /\ n_sign n1' <> n_sign sample_a /\
  num_signed (bc_multiply sample_junk Arch64 BigEndian n1' sample_b 3) =
  - num_signed (bc_multiply sample_junk Arch64 BigEndian sample_a sample_b 3).
Proof.
  cbv zeta.
  set (n1' := {| n_sign := PLUS; n_len := 7; n_scale := 4;
                 n_value := [1; 2; 3; 4; 5; 6; 7; 8; 9; 1; 2] |}).
  assert (Ha : wf_num sample_a) by prove_wf.
  assert (Hb : wf_num sample_b) by prove_wf.
  assert (Hs : 0 <= 3) by lia.
  assert (El : n_len n1' = n_len sample_a) by reflexivity.
  assert (Esc : n_scale n1' = n_scale sample_a) by reflexivity.
  assert (Ev : n_value n1' = n_value sample_a) by reflexivity.
  assert (Esg : n_sign n1' <> n_sign sample_a) by discriminate.
  pose proof (bc_multiply_negate sample_junk Arch64 BigEndian sample_a n1'
                sample_b 3 Ha Hb Hs El Esc Ev Esg) as H.
  cbv zeta in H.
  exact (conj Ha (conj Hb (conj Hs (conj El (conj Esc (conj Ev (conj Esg
    (proj1 (proj2 (proj2 (proj2 H))))))))))).
Defined.

(** X13: when an operand is zero, whatever its sign and scale, the result
    is zero with sign [PLUS]. *)
Theorem bc_multiply_zero junk a e n1 n2 scale :
  wf_num n1 -> wf_num n2 -> 0 <= scale ->
  num_int n1 = 0 \/ num_int n2 = 0 ->
  let r := bc_multiply junk a e n1 n2 scale in
  num_int r = 0 /\ n_sign r = PLUS /\
  Forall (fun d => d = 0) (num_digits r).
Proof.
  intros Hwf1 Hwf2 Hs Hz. cbv zeta.
  destruct (bc_multiply_spec junk a e n1 n2 scale Hwf1 Hwf2 Hs)
    as (Hsc & Hval & _ & Hnum & Hsign).
  set (r := bc_multiply junk a e n1 n2 scale) in *.
  assert (E0 : num_int r = 0).
  { rewrite Hnum. replace (num_int n1 * num_int n2) with 0 by nia.
    apply Z.div_0_l. apply Z.pow_nonzero; [lia|].
    destruct Hwf1 as (_ & Hs1 & _). destruct Hwf2 as (_ & Hs2 & _). lia. }
  split; [assumption|]. split; [now rewrite Hsign, E0|].
  assert (Hdig : Forall is_digit (num_digits r)).
  { unfold num_digits. 
    pose proof (rm_leading_zeros_digits
                  (to_digits (Z.to_nat (n_len n1 + n_scale n1 +
                                        (n_len n2 + n_scale n2)))
                     (num_int n1 * num_int n2))
                  (n_len n1 + n_len n2) (to_digits_digit _ _)) as Hd.
    rewrite <- Hval in Hd.
    rewrite <- (firstn_skipn (Z.to_nat (n_len r + n_scale r)) (n_value r)) in Hd.
    now apply Forall_app in Hd as [H _]. }
  pose proof (proj2 (digits_value_zero _ Hdig) E0) as Hall.
  rewrite forallb_forall in Hall. apply Forall_forall.
  intros d Hd. now apply Z.eqb_eq, Hall.
Qed.

Lemma bc_multiply_zero_witness :
  let z := {| n_sign := MINUS; n_len := 1; n_scale := 2; n_value := [0; 0; 0] |} in
  wf_num sample_a /\ wf_num z /\ 0 <= 1 /\
  (num_int sample_a = 0 \/ num_int z = 0) /\
  let r := bc_multiply sample_junk Arch32 LittleEndian sample_a z 1 in
  num_int r = 0 /\ n_sign r = PLUS /\
  Forall (fun d => d = 0) (num_digits r).
Proof.
  cbv zeta.
  set (z := {| n_sign := MINUS; n_len := 1; n_scale := 2;
               n_value := [0; 0; 0] |}).
  assert (Ha : wf_num sample_a) by prove_wf.
  assert (Hz : wf_num z) by prove_wf.
  assert (Hs : 0 <= 1) by lia.
  assert (H0 : num_int sample_a = 0 \/ num_int z = 0) by (right; reflexivity).
  exact (conj Ha (conj Hz (conj Hs (conj H0
    (bc_multiply_zero sample_junk Arch32 LittleEndian sample_a z 1
       Ha Hz Hs H0))))).
Defined.

(** ** Scale and composition *)

Lemma bc_multiply_full_scale_signed junk a e n1 n2 scale :
  wf_num n1 -> wf_num n2 -> 0 <= scale ->
  n_scale n1 + n_scale n2 <= Z.max scale (Z.max (n_scale n1) (n_scale n2)) ->
  n_scale (bc_multiply junk a e n1 n2 scale) = n_scale n1 + n_scale n2 /\
  num_signed (bc_multiply junk a e n1 n2 scale) = num_signed n1 * num_signed n2.
Proof.
  intros Hwf1 Hwf2 Hs Hfull.
  pose proof (num_signed_product junk a e n1 n2 scale Hwf1 Hwf2 Hs) as Hsigned.
  destruct (bc_multiply_spec junk a e n1 n2 scale Hwf1 Hwf2 Hs) as (Hsc & _).
  cbv zeta in Hsigned.
  set (r := bc_multiply junk a e n1 n2 scale) in *.
  assert (Esc : n_scale r = n_scale n1 + n_scale n2) by lia.
  rewrite Esc, Z.sub_diag, Z.quot_1_r in Hsigned. now split.
Qed.

(** At full scale the buffer returned holds exactly the digits the
    lengths announce. *)
Lemma bc_multiply_full_scale_wf junk a e n1 n2 scale :
  wf_num n1 -> wf_num n2 -> 0 <= scale ->
  n_scale n1 + n_scale n2 <= Z.max scale (Z.max (n_scale n1) (n_scale n2)) ->
  wf_num (bc_multiply junk a e n1 n2 scale).
Proof.
  intros Hwf1 Hwf2 Hs Hfull.
  destruct (bc_multiply_spec junk a e n1 n2 scale Hwf1 Hwf2 Hs)
    as (Hsc & Hval & Hlen & _).
  destruct Hwf1 as (Hl1 & Hs1 & _). destruct Hwf2 as (Hl2 & Hs2 & _).
  set (r := bc_multiply junk a e n1 n2 scale) in *.
  set (raw := to_digits (Z.to_nat (n_len n1 + n_scale n1 +
                                   (n_len n2 + n_scale n2)))
                (num_int n1 * num_int n2)) in *.
  pose proof (rm_leading_zeros_length raw (n_len n1 + n_len n2)) as [HL _].
  pose proof (rm_leading_zeros_nonneg raw (n_len n1 + n_len n2) ltac:(lia)) as HN.
  unfold wf_num. rewrite Hval, Hlen. repeat split.
  - assumption.
  - lia.
  - unfold raw in HL. rewrite length_to_digits, Z2Nat.id in HL by lia.
    fold raw in HL. lia.
  - apply rm_leading_zeros_digits, to_digits_digit.
Qed.

(** X14: the target scale only decides where the result is cut: the
    digit buffer and the integer length returned are the same for every
    scale, and the result for a smaller scale is the result for a larger one
    with the extra decimal places dropped. *)
Theorem bc_multiply_scale_only_cuts junk a e n1 n2 scale scale' :
  wf_num n1 -> wf_num n2 -> 0 <= scale <= scale' ->
  let r := bc_multiply junk a e n1 n2 scale in
  let r' := bc_multiply junk a e n1 n2 scale' in
  n_value r = n_value r' /\ n_len r = n_len r' /\
  n_scale r <= n_scale r' /\
  num_int r = num_int r' / 10 ^ (n_scale r' - n_scale r).
Proof.
  intros Hwf1 Hwf2 Hs. cbv zeta.
  destruct (bc_multiply_spec junk a e n1 n2 scale Hwf1 Hwf2 ltac:(lia))
    as (Hsc & Hval & Hlen & Hnum & _).
  destruct (bc_multiply_spec junk a e n1 n2 scale' Hwf1 Hwf2 ltac:(lia))
    as (Hsc' & Hval' & Hlen' & Hnum' & _).
  destruct Hwf1 as (_ & Hs1 & _). destruct Hwf2 as (_ & Hs2 & _).
  set (r := bc_multiply junk a e n1 n2 scale) in *.
  set (r' := bc_multiply junk a e n1 n2 scale') in *.
  assert (Hle : n_scale r <= n_scale r') by lia.
  split; [now rewrite Hval, Hval'|]. split; [now rewrite Hlen, Hlen'|].
  split; [assumption|].
  rewrite Hnum, Hnum'.
  set (k' := n_scale n1 + n_scale n2 - n_scale r').
  set (d := n_scale r' - n_scale r).
  assert (Hk' : 0 <= k') by (unfold k'; lia).
  assert (Hd : 0 <= d) by (unfold d; lia).
  replace (n_scale n1 + n_scale n2 - n_scale r) with (k' + d)
    by (unfold k', d; lia).
  rewrite Z.pow_add_r by assumption.
  assert (0 < 10 ^ k') by (apply Z.pow_pos_nonneg; lia).
  assert (0 < 10 ^ d) by (apply Z.pow_pos_nonneg; lia).
  rewrite Z.div_div by lia. reflexivity.
Qed.

Lemma bc_multiply_scale_only_cuts_witness :
  wf_num sample_a /\ wf_num sample_b /\ 0 <= 4 <= 7 /\
  let r := bc_multiply sample_junk Arch64 LittleEndian sample_a sample_b 4 in
  let r' := bc_multiply sample_junk Arch64 LittleEndian sample_a sample_b 7 in
  n_value r = n_value r' /\ n_len r = n_len r' /\
  n_scale r <= n_scale r' /\
  num_int r = num_int r' / 10 ^ (n_scale r' - n_scale r).
Proof.
  assert (Ha : wf_num sample_a) by prove_wf.
  assert (Hb : wf_num sample_b) by prove_wf.
  assert (Hs : 0 <= 4 <= 7) by lia.
  exact (conj Ha (conj Hb (conj Hs
    (bc_multiply_scale_only_cuts sample_junk Arch64 LittleEndian
       sample_a sample_b 4 7 Ha Hb Hs)))).
Defined.

(** X15: when the target scale is at least the sum of the three operand
    scales, so that no product is cut, multiplying three numbers gives the
    same number whichever pair is multiplied first. *)
Theorem bc_multiply_assoc_full_scale junk a e n1 n2 n3 scale :
  wf_num n1 -> wf_num n2 -> wf_num n3 ->
  n_scale n1 + n_scale n2 + n_scale n3 <= scale ->
  let l := bc_multiply junk a e (bc_multiply junk a e n1 n2 scale) n3 scale in
  let r := bc_multiply junk a e n1 (bc_multiply junk a e n2 n3 scale) scale in
  n_scale l = n_scale r /\
  num_signed l = num_signed r /\
  num_signed l = num_signed n1 * num_signed n2 * num_signed n3 /\
  (num_value l == num_value r)%Q.
Proof.
  intros Hwf1 Hwf2 Hwf3 Hsc. cbv zeta.
  pose proof Hwf1 as (_ & Hs1 & _). pose proof Hwf2 as (_ & Hs2 & _).
  pose proof Hwf3 as (_ & Hs3 & _).
  assert (Hs : 0 <= scale) by lia.
  destruct (bc_multiply_full_scale_signed junk a e n1 n2 scale Hwf1 Hwf2 Hs
              ltac:(lia)) as [S12 V12].
  destruct (bc_multiply_full_scale_signed junk a e n2 n3 scale Hwf2 Hwf3 Hs
              ltac:(lia)) as [S23 V23].
  pose proof (bc_multiply_full_scale_wf junk a e n1 n2 scale Hwf1 Hwf2 Hs
                ltac:(lia)) as W12.
  pose proof (bc_multiply_full_scale_wf junk a e n2 n3 scale Hwf2 Hwf3 Hs
                ltac:(lia)) as W23.
  destruct (bc_multiply_full_scale_signed junk a e _ n3 scale W12 Hwf3 Hs
              ltac:(lia)) as [SL VL].
  destruct (bc_multiply_full_scale_signed junk a e n1 _ scale Hwf1 W23 Hs
              ltac:(lia)) as [SR VR].
  assert (E1 : n_scale (bc_multiply junk a e (bc_multiply junk a e n1 n2 scale)
                          n3 scale) =
               n_scale (bc_multiply junk a e n1 (bc_multiply junk a e n2 n3 scale)
                          scale)) by lia.
  assert (E2 : num_signed (bc_multiply junk a e (bc_multiply junk a e n1 n2 scale)
                             n3 scale) =
               num_signed (bc_multiply junk a e n1
                             (bc_multiply junk a e n2 n3 scale) scale))
    by (rewrite VL, VR, V12, V23; ring).
  split; [exact E1|]. split; [exact E2|].
  split; [rewrite VL, V12; reflexivity|].
  unfold num_value. rewrite E1, E2. reflexivity.
Qed.

Lemma bc_multiply_assoc_full_scale_witness :
  wf_num sample_a /\ wf_num sample_b /\ wf_num sample_c /\
  n_scale sample_a + n_scale sample_b + n_scale sample_c <= 9 /\
  let l := bc_multiply sample_junk Arch32 LittleEndian
             (bc_multiply sample_junk Arch32 LittleEndian sample_a sample_b 9)
             sample_c 9 in
  let r := bc_multiply sample_junk Arch32 LittleEndian sample_a
             (bc_multiply sample_junk Arch32 LittleEndian sample_b sample_c 9)
             9 in
  n_scale l = n_scale r /\
  num_signed l = num_signed r /\
  num_signed l = num_signed sample_a * num_signed sample_b * num_signed sample_c /\
  (num_value l == num_value r)%Q.
Proof.
  assert (Ha : wf_num sample_a) by prove_wf.
  assert (Hb : wf_num sample_b) by prove_wf.
  assert (Hc : wf_num sample_c) by prove_wf.
  assert (Hs : n_scale sample_a + n_scale sample_b + n_scale sample_c <= 9)
    by (cbn; lia).
  exact (conj Ha (conj Hb (conj Hc (conj Hs
    (bc_multiply_assoc_full_scale sample_junk Arch32 LittleEndian
       sample_a sample_b sample_c 9 Ha Hb Hc Hs))))).
Defined.

(** ** The table of two-digit values *)

Lemma LUT_checked e :
  forallb
    (fun u => rd (LUT e) u =?
              match e with
              | LittleEndian => u / 10 + 16 * (u mod 10)
              | BigEndian => u mod 10 + 16 * (u / 10)
              end)
    (zrange 100) = true.
Proof. destruct e; vm_compute; reflexivity. Qed.

(** X16: entry [u] of the table packs the two decimal digits of [u] into
    the two nibbles of one byte, in the order the byte order of the machine
    asks for, and [bc_expand_lut] spreads them over two bytes so that in
    memory the tens digit comes first, on either byte order. *)
Theorem LUT_entry_two_digits e u :
  0 <= u < 100 ->
  rd (LUT e) u = match e with
                 | LittleEndian => u / 10 + 16 * (u mod 10)
                 | BigEndian => u mod 10 + 16 * (u / 10)
                 end /\
  0 <= rd (LUT e) u < 256 /\
  store e 2 (bc_expand_lut (rd (LUT e) u)) = [u / 10; u mod 10].
Proof.
  intros Hu.
  assert (HL : rd (LUT e) u = match e with
                              | LittleEndian => u / 10 + 16 * (u mod 10)
                              | BigEndian => u mod 10 + 16 * (u / 10)
                              end).
  { pose proof (LUT_checked e) as H. rewrite forallb_forall in H.
    specialize (H u (proj2 (in_zrange 100 u) Hu)). now apply Z.eqb_eq in H. }
  split; [exact HL|]. split.
  - rewrite HL. destruct e; dlia.
  - rewrite (bc_expand_lut_spec e u Hu). unfold store.
    assert (Hq : 0 <= u / 10 < 10) by dlia.
    assert (Hm : 0 <= u mod 10 < 10) by dlia.
    set (q := u / 10) in *. set (m := u mod 10) in *.
    destruct e; cbn [le_split rev app].
    + replace ((q + 256 * m) mod 256) with q by dlia.
      replace ((q + 256 * m) / 256 mod 256) with m by dlia. reflexivity.
    + replace ((m + 256 * q) mod 256) with m by dlia.
      replace ((m + 256 * q) / 256 mod 256) with q by dlia. reflexivity.
Qed.

Lemma LUT_entry_two_digits_witness :
  0 <= 47 < 100 /\
  rd (LUT LittleEndian) 47 = 0x74 /\
  store LittleEndian 2 (bc_expand_lut (rd (LUT LittleEndian) 47)) = [4; 7].
Proof.
  assert (Hu : 0 <= 47 < 100) by lia.
  pose proof (LUT_entry_two_digits LittleEndian 47 Hu) as (H1 & _ & H3).
  exact (conj Hu (conj H1 H3)).
Defined.
